(** * Kotlin test discovery: a shallow embedding of [KotlinTestDiscovery]

    The development follows [testDiscovery.ts]: the string helpers the
    code calls, the two regular expressions of [resolveTestsInFile] and
    the backtracking matcher that runs them, the brace-counting scan of a
    class body, the tree store (test items live in a heap of mutable
    objects, as the extension shares them between its two indexes), the
    directory walk of [findKotlinTestFiles] and the queue of [runHandler];
    from [extension.ts] it takes the handler of the [kotlin.test.run]
    command.

    Conventions.  Strings are sequences of code units restricted to one
    byte each ([string]); a [Uri] is represented by its [fsPath].  The
    file system is what [readFile] and [readdir] return at the time of a
    call.  Each operation of the class runs to completion before the
    next one starts, and the callbacks of a [forEach] run in order.  The
    editor's test API is taken as documented: a [TestItemCollection] is
    keyed by item id and keeps insertion order, and the parent of an item
    is set when the item joins the children of another. *)

From Stdlib Require Import ZArith Ascii.
From stdpp Require Import base gmap list strings.

Local Open Scope Z_scope.
Local Open Scope nat_scope.

(** ** String methods used by the extension *)

Module Js.

(** [s.startsWith(p)] *)
Fixpoint startsWith (s p : string) {struct p} : bool :=
  match p, s with
  | EmptyString, _ => true
  | String a p', String b s' => Ascii.eqb a b && startsWith s' p'
  | String _ _, EmptyString => false
  end.

(** [s.includes(sub)] *)
Fixpoint includes (s sub : string) : bool :=
  startsWith s sub ||
  match s with
  | EmptyString => false
  | String _ s' => includes s' sub
  end.

(** [s.substring(n)] *)
Fixpoint drop (n : nat) (s : string) : string :=
  match n, s with
  | S n', String _ s' => drop n' s'
  | _, _ => s
  end.

(** [s.substring(0, n)] *)
Fixpoint take (n : nat) (s : string) : string :=
  match n, s with
  | S n', String c s' => String c (take n' s')
  | _, _ => EmptyString
  end.

(** [s.endsWith(p)] *)
Definition endsWith (s p : string) : bool :=
  (String.length p <=? String.length s) &&
  String.eqb (drop (String.length s - String.length p) s) p.

(** [s.indexOf(c)] for a one-character needle; [None] stands for -1. *)
Fixpoint indexOf (s : string) (c : ascii) : option nat :=
  match s with
  | EmptyString => None
  | String b s' => if Ascii.eqb b c then Some 0 else S <$> indexOf s' c
  end.

(** [s.split(sep)] for a one-character separator: never empty. *)
Fixpoint split (s : string) (sep : ascii) : list string :=
  match s with
  | EmptyString => [EmptyString]
  | String c s' =>
      if Ascii.eqb c sep then EmptyString :: split s' sep
      else match split s' sep with
           | x :: xs => String c x :: xs
           | [] => [String c EmptyString]
           end
  end.

(** Truthiness of an optional string: [undefined] and [""] are falsy. *)
Definition truthy (o : option string) : bool :=
  match o with
  | Some (String _ _) => true
  | _ => false
  end.

End Js.

(** ** Regular expressions

    The fragment of ECMAScript patterns that [classRegex] and
    [methodRegex] are written in, with the backtracking order of the
    language: a greedy quantifier tries the longest repetition first, a
    lazy one the shortest, an alternative its left branch first.  Every
    quantified atom of the two patterns is a single character class, so
    repetition is a recursion on the input. *)

Module Regex.

Inductive regex : Type :=
| Lit (s : string)                 (* a literal sequence *)
| Plus (p : ascii → bool)          (* [p]+  greedy *)
| Star (p : ascii → bool)          (* [p]*  greedy *)
| StarLazy (p : ascii → bool)      (* [p]*? lazy *)
| Seq (r1 r2 : regex)
| Alt (r1 r2 : regex)
| Opt (r : regex)                  (* (?:r)? greedy *)
| Group (r : regex).               (* (r), the one capture group *)

Definition orElse {A} (x : option A) (y : option A) : option A :=
  match x with
  | Some _ => x
  | None => y
  end.

Section Matcher.
Context {A : Type}.

Fixpoint lit (l s : string) (k : string → option A) : option A :=
  match l, s with
  | EmptyString, _ => k s
  | String a l', String b s' => if Ascii.eqb a b then lit l' s' k else None
  | String _ _, EmptyString => None
  end.

Fixpoint star (p : ascii → bool) (s : string) (k : string → option A) : option A :=
  match s with
  | String c s' => if p c then orElse (star p s' k) (k s) else k s
  | EmptyString => k s
  end.

Fixpoint starLazy (p : ascii → bool) (s : string) (k : string → option A) : option A :=
  orElse (k s)
    match s with
    | String c s' => if p c then starLazy p s' k else None
    | EmptyString => None
    end.

Definition plus (p : ascii → bool) (s : string) (k : string → option A) : option A :=
  match s with
  | String c s' => if p c then star p s' k else None
  | EmptyString => None
  end.
End Matcher.

(** The continuation receives the rest of the input and the text
    captured so far. *)
Fixpoint run {A} (r : regex) (s : string) (cap : option string)
    (k : string → option string → option A) : option A :=
  match r with
  | Lit l => lit l s (λ s', k s' cap)
  | Plus p => plus p s (λ s', k s' cap)
  | Star p => star p s (λ s', k s' cap)
  | StarLazy p => starLazy p s (λ s', k s' cap)
  | Seq r1 r2 => run r1 s cap (λ s' cap', run r2 s' cap' k)
  | Alt r1 r2 => orElse (run r1 s cap k) (run r2 s cap k)
  | Opt r1 => orElse (run r1 s cap k) (k s cap)
  | Group r1 =>
      run r1 s cap
        (λ s' _, k s' (Some (Js.take (String.length s - String.length s') s)))
  end.

(** A match anchored at the head of [s]: the capture ([undefined] when
    the group did not take part) and the length of the matched text. *)
Definition matchAt (r : regex) (s : string) : option (option string * nat) :=
  run r s None (λ s' cap, Some (cap, String.length s - String.length s')).

(** One match of a [g]-flagged pattern as the loops of the extension
    consume it: capture 1, and the input from [match.index] on. *)
Record found : Type := Found { capture : string; fromIndex : string }.

(** [while ((m = r.exec(s)) !== null)] with the [g] flag: the search
    resumes at [lastIndex], the end of the previous match; [skip]
    counts the characters of that match still to pass.  Both patterns
    begin with a literal, so a match is never empty and [lastIndex]
    always advances. *)
Fixpoint execLoop (r : regex) (s : string) (skip : nat) : list found :=
  match skip with
  | S n =>
      match s with
      | String _ s' => execLoop r s' n
      | EmptyString => []
      end
  | O =>
      match matchAt r s with
      | Some (cap, len) =>
          Found (default EmptyString cap) s ::
          match s with
          | String _ s' => execLoop r s' (len - 1)
          | EmptyString => []
          end
      | None =>
          match s with
          | String _ s' => execLoop r s' 0
          | EmptyString => []
          end
      end
  end.

Definition execAll (r : regex) (s : string) : list found := execLoop r s 0.

(** Character classes. [\s] is listed for code units below 256. *)
Definition any (_ : ascii) : bool := true.
Definition isNot (c : ascii) (a : ascii) : bool := negb (Ascii.eqb a c).
Definition space (a : ascii) : bool :=
  let n := nat_of_ascii a in
  (9 <=? n) && (n <=? 13) || (n =? 32) || (n =? 160).
Definition word (a : ascii) : bool :=
  let n := nat_of_ascii a in
  (48 <=? n) && (n <=? 57) || (65 <=? n) && (n <=? 90) ||
  (97 <=? n) && (n <=? 122) || (n =? 95).

End Regex.

(** ** The declaration scanner of [resolveTestsInFile] *)

Import Regex.

(** [/class\s+(\w+)(?:\s*:\s*\w+(?:<[^>]*>)?)?\s*{/g] *)
Definition classRegex : regex :=
  Seq (Lit "class")
  (Seq (Plus space)
  (Seq (Group (Plus word))
  (Seq (Opt (Seq (Star space)
            (Seq (Lit ":")
            (Seq (Star space)
            (Seq (Plus word)
                 (Opt (Seq (Lit "<") (Seq (Star (isNot ">")) (Lit ">")))))))))
  (Seq (Star space)
       (Lit "{"))))).

(** [/@Test[^]*?(?:fun|suspend fun)\s+(\w+)\s*\([^)]*\)/g] *)
Definition methodRegex : regex :=
  Seq (Lit "@Test")
  (Seq (StarLazy any)
  (Seq (Alt (Lit "fun") (Lit "suspend fun"))
  (Seq (Plus space)
  (Seq (Group (Plus word))
  (Seq (Star space)
  (Seq (Lit "(")
  (Seq (Star (isNot ")"))
       (Lit ")")))))))).

(** The [while (braceCount > 0 && endPos < classContent.length)] loop;
    [rest] is [classContent] from [endPos] on, so the second test of the
    condition is [rest] being non-empty.  The result is the final
    [endPos]. *)
Fixpoint braceLoop (rest : string) (braceCount : Z) (endPos : nat) : nat :=
  match rest with
  | EmptyString => endPos
  | String c rest' =>
      if (0 <? braceCount)%Z then
        let braceCount' :=
          if Ascii.eqb c "{" then (braceCount + 1)%Z
          else if Ascii.eqb c "}" then (braceCount - 1)%Z
          else braceCount in
        braceLoop rest' braceCount' (S endPos)
      else endPos
  end.

(** The text searched for the methods of a class, from
    [content.substring(classMatch.index)]. *)
Definition classBody (classContent : string) : string :=
  match Js.indexOf classContent "{" with
  | Some openBraces =>
      let endPos := braceLoop (Js.drop (openBraces + 1) classContent) 1 (openBraces + 1) in
      Js.take endPos classContent
  | None => classContent
  end.

(** The names [methodRegex] finds for one class match, in order. *)
Definition methodNames (classContent : string) : list string :=
  capture <$> execAll methodRegex (classBody classContent).

(** What the scanner reports for a file: every class match whose name
    includes "Test", with its method names. *)
Definition scanDeclarations (content : string) : list (string * list string) :=
  omap (λ m, if Js.includes (capture m) "Test"
             then Some (capture m, methodNames (fromIndex m))
             else None)
       (execAll classRegex content).

(** ** Test items and the tree store *)

(** A [TestItemCollection] ([testController.items], [item.children]) is
    a map from item id to item that iterates in insertion order; items
    are referred to by their index in the heap of created objects.
    [add] replaces an entry with the same id where it stands, [delete]
    removes by id. *)
Definition TestItemCollection : Type := list (string * nat).

(** [Map.prototype.set] on a map kept as its entries in insertion order:
    an existing key keeps its place and takes the new value, a new key
    goes last. *)
Fixpoint upsert {V} (m : list (string * V)) (k : string) (v : V) : list (string * V) :=
  match m with
  | [] => [(k, v)]
  | (k', v') :: m' =>
      if decide (k' = k) then (k, v) :: m' else (k', v') :: upsert m' k v
  end.

Definition collAdd (c : TestItemCollection) (k : string) (r : nat) : TestItemCollection :=
  upsert c k r.

Definition collDelete (c : TestItemCollection) (k : string) : TestItemCollection :=
  filter (λ e, e.1 ≠ k) c.

(** A [TestItem]: [range] is always set to [undefined] by
    [createTestItem] and is left out. *)
Record TestItem : Type := mkTestItem {
  id : string;
  label : string;
  uri : option string;
  children : TestItemCollection;
  parent : option nat
}.

Definition setChildren (cs : TestItemCollection) (it : TestItem) : TestItem :=
  mkTestItem (id it) (label it) (uri it) cs (parent it).

Definition setParent (p : option nat) (it : TestItem) : TestItem :=
  mkTestItem (id it) (label it) (uri it) (children it) p.

(** The state of a [KotlinTestDiscovery] object. *)
Record Store : Type := mkStore {
  heap : list TestItem;
  items : TestItemCollection;                  (* testController.items *)
  testItems : gmap string nat;
  fileToTestItemsMap : gmap string (list nat)
}.

Definition initialStore : Store := mkStore [] [] ∅ ∅.

Definition itemId (h : list TestItem) (r : nat) : string :=
  default EmptyString (id <$> h !! r).

Definition itemChildren (h : list TestItem) (r : nat) : TestItemCollection :=
  default [] (children <$> h !! r).

Definition itemParent (h : list TestItem) (r : nat) : option nat :=
  h !! r ≫= parent.

(** [createTestItem(id, label, uri, undefined)]: a new object, entered
    in [testItems] under its id. *)
Definition createTestItem (id0 label0 : string) (uri0 : option string) (s : Store)
    : nat * Store :=
  let r := length (heap s) in
  (r, mkStore (heap s ++ [mkTestItem id0 label0 uri0 [] None])
              (items s)
              (<[id0 := r]> (testItems s))
              (fileToTestItemsMap s)).

(** [p.children.add(c)], as the editor's API documents it: the
    collection of [p] takes [c] under its id, in place of an item with
    the same id if there is one, and [c.parent] becomes [p]. *)
Definition childrenAdd (p c : nat) (s : Store) : Store :=
  let k := itemId (heap s) c in
  let h1 := alter (λ it, setChildren (collAdd (children it) k c) it) p (heap s) in
  mkStore (alter (setParent (Some p)) c h1)
          (items s) (testItems s) (fileToTestItemsMap s).

Definition removeTestsForFile (filePath : string) (s : Store) : Store :=
  match fileToTestItemsMap s !! filePath with
  | None => s
  | Some fileItems =>
      let s1 :=
        foldl (λ acc item,
                 mkStore (heap acc)
                         (collDelete (items acc) (itemId (heap acc) item))
                         (delete (itemId (heap acc) item) (testItems acc))
                         (fileToTestItemsMap acc))
              s fileItems in
      mkStore (heap s1) (items s1) (testItems s1)
              (delete filePath (fileToTestItemsMap s1))
  end.

(** [path.basename] of a path with "/" separators. *)
Fixpoint basename (p : string) : string :=
  match p with
  | EmptyString => EmptyString
  | String c p' =>
      if Js.includes p' "/" then basename p'
      else if Ascii.eqb c "/" then p' else p
  end.

Definition fileIdOf (filePath : string) : string := "kotlin-test:" +:+ filePath.

Definition getOrCreateFileTestItem (filePath : string) (s : Store) : nat * Store :=
  let fileName := basename filePath in
  let fileId := fileIdOf filePath in
  match testItems s !! fileId with
  | Some fileItem => (fileItem, s)
  | None =>
      let '(fileItem, s1) := createTestItem fileId fileName (Some filePath) s in
      (fileItem,
       mkStore (heap s1) (items s1) (testItems s1)
               (<[filePath := [fileItem]]> (fileToTestItemsMap s1)))
  end.

(** The body of the inner [while] loop: one method match. *)
Definition addMethod (filePath : string) (classItem : nat) (s : Store)
    (methodName : string) : Store :=
  let '(methodItem, s1) :=
    createTestItem (itemId (heap s) classItem +:+ "." +:+ methodName)
                   methodName (Some filePath) s in
  childrenAdd classItem methodItem s1.

(** The body of the outer [while] loop: one class match. *)
Definition addClass (filePath : string) (fileItem : nat) (s : Store)
    (classMatch : found) : Store :=
  let className := capture classMatch in
  if Js.includes className "Test" then
    let '(classItem, s1) :=
      createTestItem (itemId (heap s) fileItem +:+ "." +:+ className)
                     className (Some filePath) s in
    let s2 := childrenAdd fileItem classItem s1 in
    foldl (addMethod filePath classItem) s2 (methodNames (fromIndex classMatch))
  else s.

(** [resolveTestsInFile(uri)]; [readFile] is the file system at the time
    of the call, [None] when reading throws (the [catch] only logs). *)
Definition resolveTestsInFile (readFile : string → option string)
    (uri0 : option string) (s : Store) : Store :=
  match uri0 with
  | None => s
  | Some filePath =>
      if negb (Js.endsWith filePath ".kt") && negb (Js.endsWith filePath ".kts")
      then s
      else
        let s1 := removeTestsForFile filePath s in
        match readFile filePath with
        | None => s1
        | Some content =>
            let '(fileItem, s2) := getOrCreateFileTestItem filePath s1 in
            foldl (addClass filePath fileItem) s2 (execAll classRegex content)
        end
  end.

(** ** The directory walk of [findKotlinTestFiles] *)

(** A directory entry as [readdir(dir, { withFileTypes: true })] gives
    it; a directory carries what listing it yields, [None] when
    [readdir] throws. *)
#[local] Unset Elimination Schemes.
Inductive Dirent : Type :=
| FileEntry (name : string)
| DirEntry (name : string) (listing : option (list Dirent))
| OtherEntry (name : string).
#[local] Set Elimination Schemes.

(** [path.join(dir, name)] for a plain entry name. *)
Definition pathJoin (dir name : string) : string := dir +:+ "/" +:+ name.

(** The test on a directory entry that guards the recursive call. *)
Definition descends (name : string) : bool :=
  Js.startsWith name "." && negb (Js.startsWith name "build").

(** The test on a file name, with the precedence of [||] and [&&]. *)
Definition nameCheck (name : string) : bool :=
  Js.endsWith name ".kt" ||
  Js.endsWith name ".kts" && (Js.includes name "Test" || Js.includes name "Tests").

Definition contentCheck (content : string) : bool :=
  Js.includes content "@Test" || Js.includes content "import org.junit" ||
  Js.includes content "import kotlin.test" || Js.includes content "import io.kotest".

(** Whether a regular file is pushed on [testFiles]. *)
Definition isCandidateTestFile (name : string) (content : option string) : bool :=
  nameCheck name && from_option contentCheck false content.

(** The walk, with every callback run to completion in entry order: the
    directories [readdir] was called on, and the files pushed. *)
Fixpoint walkEntry (readFile : string → option string) (dir : string)
    (file : Dirent) : list string * list string :=
  match file with
  | DirEntry name listing =>
      let fullPath := pathJoin dir name in
      if descends name then
        match listing with
        | Some files =>
            let rs := map (walkEntry readFile fullPath) files in
            (fullPath :: concat (fst <$> rs), concat (snd <$> rs))
        | None => ([fullPath], [])
        end
      else ([], [])
  | FileEntry name =>
      let fullPath := pathJoin dir name in
      if isCandidateTestFile name (readFile fullPath) then ([], [fullPath]) else ([], [])
  | OtherEntry _ => ([], [])
  end.

(** [findKotlinTestFiles(dir)]: [listing] is what [readdir(dir)] gives. *)
Definition walk (readFile : string → option string) (dir : string)
    (listing : option (list Dirent)) : list string * list string :=
  match listing with
  | Some files =>
      let rs := map (walkEntry readFile dir) files in
      (dir :: concat (fst <$> rs), concat (snd <$> rs))
  | None => ([dir], [])
  end.

Definition findKotlinTestFiles (readFile : string → option string) (dir : string)
    (listing : option (list Dirent)) : list string :=
  (walk readFile dir listing).2.

(** The directories the walk lists, [dir] first. *)
Definition listedDirectories (readFile : string → option string) (dir : string)
    (listing : option (list Dirent)) : list string :=
  (walk readFile dir listing).1.

(** A workspace folder: its [fsPath] and its listing. *)
Definition WorkspaceFolder : Type := string * option (list Dirent).

(** [discoverAllTests()], every per-file rescan run to completion in the
    order the files are found. *)
Definition discoverAllTests (workspaceFolders : option (list WorkspaceFolder))
    (readFile : string → option string) (s : Store) : Store :=
  let s1 :=
    mkStore (heap s)
            (foldl (λ acc item, collDelete acc item.1) (items s) (items s))
            ∅ ∅ in
  match workspaceFolders with
  | None => s1
  | Some folders =>
      foldl (λ acc (folder : WorkspaceFolder),
               foldl (λ acc' file, resolveTestsInFile readFile (Some file) acc')
                     acc (findKotlinTestFiles readFile folder.1 folder.2))
            s1 folders
  end.

(** ** The run handler *)

Record TestRunRequest : Type := mkRequest {
  include : option (list nat);
  exclude : option (list nat)
}.

(** What a run does to its collaborators, in order. *)
Inductive RunEvent : Type :=
| Started (test : nat)
| Passed (test : nat)
| Failed (test : nat) (message : string)
| CreateTerminal (name : string)
| TerminalShow
| SendText (text : string)
| RunEnd.

(** The surroundings of a run: [workspace.workspaceFolders] (the
    [fsPath] of each), [fsExists], and the cancellation token as read at
    the head of each iteration of the queue loop. *)
Record RunEnv : Type := mkRunEnv {
  workspaceFolders : option (list string);
  fsExists : string → bool;
  isCancellationRequested : nat → bool
}.

(** [isAncestorOf(ancestor, descendant)]: the walk up the parent links.
    [None] when [fuel] links were followed without reaching an item
    that has no parent. *)
Fixpoint isAncestorOfFrom (fuel : nat) (h : list TestItem) (ancestor curr : nat)
    : option bool :=
  match fuel with
  | O => None
  | S fuel' =>
      match itemParent h curr with
      | None => Some false
      | Some p =>
          if String.eqb (itemId h p) (itemId h ancestor) then Some true
          else isAncestorOfFrom fuel' h ancestor p
      end
  end.

(** A chain of parent links that visits no object twice is no longer
    than the heap, so running out of this fuel means the links form a
    cycle. *)
Definition isAncestorOf (h : list TestItem) (ancestor descendant : nat) : option bool :=
  isAncestorOfFrom (S (length h)) h ancestor descendant.

(** [request.exclude?.some(excludedTest => this.isAncestorOf(excludedTest, test))] *)
Fixpoint someAncestor (h : list TestItem) (excluded : list nat) (test : nat)
    : option bool :=
  match excluded with
  | [] => Some false
  | excludedTest :: rest =>
      match isAncestorOf h excludedTest test with
      | None => None
      | Some true => Some true
      | Some false => someAncestor h rest test
      end
  end.

Definition isExcluded (h : list TestItem) (req : TestRunRequest) (test : nat)
    : option bool :=
  match exclude req with
  | None => Some false
  | Some excluded => someAncestor h excluded test
  end.

(** [`Test execution failed: ${err}`] *)
Definition failedMessage (err : string) : string := "Test execution failed: " +:+ err.

Definition noWorkspaceError : string := "Error: No workspace folder found!".
Definition noFolderTypeError : string :=
  "TypeError: Cannot read properties of undefined (reading 'uri')".
Definition onlyGradleError : string :=
  "Error: Error running tests: Only Gradle workspaces are supported for now!".

(** The command line sent to the terminal. *)
Definition gradleCommand (testClass : string) (testMethod : option string) : string :=
  "./gradlew test --tests " +:+ testClass +:+
  (if Js.truthy testMethod then "." +:+ default EmptyString testMethod else EmptyString).

(** [const [testClass, testMethod] = test.id.split("#")] *)
Definition selectorOf (testId : string) : string * option string :=
  let parts := Js.split testId "#" in
  (default EmptyString (parts !! 0), parts !! 1).

(** The [try] block of the queue loop for one leaf. *)
Definition dispatch (env : RunEnv) (h : list TestItem) (test : nat) : list RunEvent :=
  Started test ::
  match workspaceFolders env with
  | None => [Failed test (failedMessage noWorkspaceError)]
  | Some [] => [Failed test (failedMessage noFolderTypeError)]
  | Some (workspaceRoot :: _) =>
      let hasGradleFile :=
        fsExists env (pathJoin workspaceRoot "build.gradle") ||
        fsExists env (pathJoin workspaceRoot "build.gradle.kts") in
      let '(testClass, testMethod) := selectorOf (itemId h test) in
      CreateTerminal "Kotlin Test" :: TerminalShow ::
      (if hasGradleFile
       then [SendText (gradleCommand testClass testMethod); Passed test]
       else [Failed test (failedMessage onlyGradleError)])
  end.

(** The queue loop.  [iteration] counts the tests of the loop condition;
    the result is the events so far and whether the loop has ended
    within [fuel] iterations.  [queue.shift()] takes the head,
    [queue.push] appends. *)
Fixpoint runLoop (fuel : nat) (env : RunEnv) (h : list TestItem)
    (req : TestRunRequest) (queue : list nat) (iteration : nat)
    : list RunEvent * bool :=
  match queue with
  | [] => ([], true)
  | test :: queue' =>
      if isCancellationRequested env iteration then ([], true)
      else
        match fuel with
        | O => ([], false)
        | S fuel' =>
            match isExcluded h req test with
            | None => ([], false)
            | Some true => runLoop fuel' env h req queue' (S iteration)
            | Some false =>
                if 0 <? length (itemChildren h test) then
                  runLoop fuel' env h req (queue' ++ (itemChildren h test).*2)
                          (S iteration)
                else
                  let '(evs, ended) := runLoop fuel' env h req queue' (S iteration) in
                  (dispatch env h test ++ evs, ended)
            end
        end
  end.

(** [runHandler(request, token)]: the events of the run, and whether it
    has ended within [fuel] iterations; [run.end()] closes it. *)
Definition runHandler (fuel : nat) (env : RunEnv) (s : Store) (req : TestRunRequest)
    : list RunEvent * bool :=
  let queue :=
    match include req with
    | Some tests => tests
    | None => (items s).*2
    end in
  let '(evs, ended) := runLoop fuel env (heap s) req queue 0 in
  (if ended then evs ++ [RunEnd] else evs, ended).

(** ** Reachable states *)

Inductive Operation : Type :=
| DiscoverAllTests (workspaceFolders : option (list WorkspaceFolder))
                   (readFile : string → option string)
| ResolveTestsInFile (readFile : string → option string) (uri0 : option string)
| RemoveTestsForFile (filePath : string).

Definition step (op : Operation) (s : Store) : Store :=
  match op with
  | DiscoverAllTests folders readFile => discoverAllTests folders readFile s
  | ResolveTestsInFile readFile uri0 => resolveTestsInFile readFile uri0 s
  | RemoveTestsForFile filePath => removeTestsForFile filePath s
  end.

Inductive reachable : Store → Prop :=
| reachable_initial : reachable initialStore
| reachable_step op s : reachable s → reachable (step op s).

(** ** Observations on runs and stores *)

Definition startedTests (evs : list RunEvent) : list nat :=
  omap (λ e, match e with Started t => Some t | _ => None end) evs.

Definition failures (evs : list RunEvent) : list (nat * string) :=
  omap (λ e, match e with Failed t m => Some (t, m) | _ => None end) evs.

(** The events that touch the build tool's terminal. *)
Definition isInvocation (e : RunEvent) : bool :=
  match e with
  | CreateTerminal _ | TerminalShow | SendText _ => true
  | _ => false
  end.

Definition invocations (evs : list RunEvent) : list RunEvent :=
  List.filter isInvocation evs.

(** What a run with no workspace folder does for one leaf. *)
Definition startedThenFailed (message : string) (test : nat) : list RunEvent :=
  [Started test; Failed test message].

(** A subtree seen from its root, without object identities: the id of
    the node, the id of its parent, and its children in order, each under
    its key in the collection of the node, down to [depth] levels below
    the root. *)
#[local] Unset Elimination Schemes.
Inductive IdTree : Type :=
| IdNode (nodeId : string) (parentId : option string) (kids : list (string * IdTree)).
#[local] Set Elimination Schemes.

Definition itemParentId (h : list TestItem) (r : nat) : option string :=
  itemId h <$> itemParent h r.

Fixpoint treeView (depth : nat) (h : list TestItem) (r : nat) : IdTree :=
  IdNode (itemId h r) (itemParentId h r)
    match depth with
    | O => []
    | S d => prod_map (λ k, k) (treeView d h) <$> itemChildren h r
    end.

Definition kidsView (depth : nat) (h : list TestItem) (cs : TestItemCollection)
    : list (string * IdTree) :=
  prod_map (λ k, k) (treeView depth h) <$> cs.

(** The subtree of a path as each of the two indexes gives it. *)
Definition fileIndexView (depth : nat) (s : Store) (filePath : string)
    : option (list IdTree) :=
  fmap (M := list) (treeView depth (heap s)) <$> fileToTestItemsMap s !! filePath.

Definition registryView (depth : nat) (s : Store) (filePath : string) : option IdTree :=
  treeView depth (heap s) <$> testItems s !! fileIdOf filePath.

(** [a] is a proper prefix of [b]. *)
Definition properPrefix (a b : string) : Prop :=
  Js.startsWith b a = true ∧ a ≠ b.

(** Brace structure of the text after an opening brace.  [balancedFrom d s]:
    [s] closes the [d] braces open before it and every brace it opens
    itself, and closes nothing more. *)
Fixpoint balancedFrom (d : nat) (s : string) : bool :=
  match s with
  | EmptyString => d =? 0
  | String c s' =>
      if Ascii.eqb c "{" then balancedFrom (S d) s'
      else if Ascii.eqb c "}" then
        match d with
        | O => false
        | S d' => balancedFrom d' s'
        end
      else balancedFrom d s'
  end.

(** [staysOpen n s]: read from a brace count of [n], the count is
    positive before every character of [s] and at its end. *)
Fixpoint staysOpen (braceCount : Z) (s : string) : bool :=
  (0 <? braceCount)%Z &&
  match s with
  | EmptyString => true
  | String c s' =>
      if Ascii.eqb c "{" then staysOpen (braceCount + 1) s'
      else if Ascii.eqb c "}" then staysOpen (braceCount - 1) s'
      else staysOpen braceCount s'
  end.

(** The invariant of the store. *)
Record wfStore (s : Store) : Prop := mkWf {
  wf_items : items s = [];
  wf_registry : ∀ k r, testItems s !! k = Some r →
    ∃ it, heap s !! r = Some it ∧ id it = k;
  wf_children : ∀ r it k c, heap s !! r = Some it → (k, c) ∈ children it →
    r < c ∧ ∃ itc, heap s !! c = Some itc ∧ id itc = k ∧
                   ∃ name, k = id it +:+ "." +:+ name;
  wf_nodup : ∀ r it, heap s !! r = Some it → NoDup (children it).*1;
  wf_files : ∀ filePath fileItems f,
    fileToTestItemsMap s !! filePath = Some fileItems → f ∈ fileItems →
    ∃ it, heap s !! f = Some it ∧ id it = fileIdOf filePath;
  wf_parent : ∀ r it p, heap s !! r = Some it → parent it = Some p → p < r;
  wf_parent_id : ∀ r it p, heap s !! r = Some it → parent it = Some p →
    ∃ itp, heap s !! p = Some itp ∧ String.length (id itp) < String.length (id it)
}.

(** ** The subtree a scan builds, as a view

    What a scan of [content] hangs under a file item whose id is
    [fileId], given the children [v] the item has before the scan. *)

Fixpoint assoc {V} (m : list (string * V)) (k : string) : option V :=
  match m with
  | [] => None
  | (k', v) :: m' => if decide (k' = k) then Some v else assoc m' k
  end.

Definition insertAll {V} (m : list (string * V)) (es : list (string * V))
    : list (string * V) :=
  foldl (λ acc e, upsert acc e.1 e.2) m es.

Definition methodEntry (classId name : string) : string * IdTree :=
  (classId +:+ "." +:+ name, IdNode (classId +:+ "." +:+ name) (Some classId) []).

Definition classTree (depth : nat) (fileId className : string) (names : list string)
    : IdTree :=
  IdNode (fileId +:+ "." +:+ className) (Some fileId)
    match depth with
    | O => []
    | S _ => insertAll [] (methodEntry (fileId +:+ "." +:+ className) <$> names)
    end.

Definition classEntry (depth : nat) (fileId : string) (classMatch : found)
    : option (string * IdTree) :=
  if Js.includes (capture classMatch) "Test"
  then Some (fileId +:+ "." +:+ capture classMatch,
             classTree depth fileId (capture classMatch)
                       (methodNames (fromIndex classMatch)))
  else None.

Definition scannedKids (depth : nat) (fileId : string) (content : string)
    (v : list (string * IdTree)) : list (string * IdTree) :=
  insertAll v (omap (classEntry depth fileId) (execAll classRegex content)).

Definition scannedTree (depth : nat) (fileId : string) (parentId : option string)
    (content : string) (v : nat → list (string * IdTree)) : IdTree :=
  IdNode fileId parentId
    match depth with
    | O => []
    | S d => scannedKids d fileId content (v d)
    end.

(** [s'] comes from [s] by work on the object [f], whose id is [fid],
    and on objects created since: the other objects of [s] and the
    registry entries that do not extend [fid] are as they were, and [f]
    keeps its id and its parent. *)
Definition extends (f : nat) (fid : string) (s s' : Store) : Prop :=
  length (heap s) ≤ length (heap s') ∧
  (∀ r, r ≠ f → r < length (heap s) → heap s' !! r = heap s !! r) ∧
  (∀ itf, heap s !! f = Some itf →
     ∃ itf', heap s' !! f = Some itf' ∧ id itf' = id itf ∧ parent itf' = parent itf) ∧
  items s' = items s ∧
  fileToTestItemsMap s' = fileToTestItemsMap s ∧
  (∀ k, ¬ properPrefix fid k → testItems s' !! k = testItems s !! k).

(** What [childrenAdd] does to each object. *)
Definition afterAdd (p c : nat) (k : string) (r : nat) (it : TestItem) : TestItem :=
  if decide (r = c) then setParent (Some p) it
  else if decide (r = p) then setChildren (collAdd (children it) k c) it
  else it.

(** The number of iterations the queue loop spends on an item and what
    hangs under it, counted down [n] levels; an item of a reachable state
    has nothing deeper than [length h - r] levels below it. *)
Fixpoint subtreeSize (n : nat) (h : list TestItem) (r : nat) : nat :=
  S match n with
    | O => 0
    | S n' => sum_list_with (λ e, subtreeSize n' h e.2) (itemChildren h r)
    end.

Definition queueBound (h : list TestItem) (queue : list nat) : nat :=
  sum_list_with (λ t, subtreeSize (length h - t) h t) queue.

(** ** A workspace with one test file *)

Definition fooTestPath : string := "/ws/FooTest.kt".

Definition fooTestContent : string :=
  "import org.junit.Test class FooTest { @Test fun testA() {} @Test fun testB() {} }".

Definition fooTestFs (p : string) : option string :=
  if String.eqb p fooTestPath then Some fooTestContent else None.

(** The tree [File > Class > {Method A, Method B}]: the file item is
    object 0, the class 1, the methods 2 and 3. *)
Definition fooTestStore : Store :=
  step (ResolveTestsInFile fooTestFs (Some fooTestPath)) initialStore.

Definition gradleEnv : RunEnv :=
  mkRunEnv (Some ["/ws"]) (λ p, String.eqb p "/ws/build.gradle") (λ _, false).

Definition noWorkspaceEnv : RunEnv :=
  mkRunEnv None (λ _, false) (λ _, false).

(** An outer test class with a nested test class, and the store after
    the scan of a file that holds it: the file item is object 0, the
    item of [OuterTest] object 1. *)
Definition nestedContent : string :=
  "class OuterTest { @Test fun outer() {} class InnerTest { @Test fun inner() {} } }".

Definition nestedStore : Store :=
  resolveTestsInFile (λ _, Some nestedContent) (Some "/ws/NestedTest.kt") initialStore.

(** ** Further observations *)

(** The tests a run reports an outcome for, passed or failed, in order. *)
Definition outcomes (evs : list RunEvent) : list nat :=
  omap (λ e, match e with Passed t | Failed t _ => Some t | _ => None end) evs.

Definition passedTests (evs : list RunEvent) : list nat :=
  omap (λ e, match e with Passed t => Some t | _ => None end) evs.

(** The command lines sent to a terminal. *)
Definition commands (evs : list RunEvent) : list string :=
  omap (λ e, match e with SendText c => Some c | _ => None end) evs.

(** What a run in a workspace without a Gradle file does for one leaf. *)
Definition startedThenRefused (test : nat) : list RunEvent :=
  [Started test; CreateTerminal "Kotlin Test"; TerminalShow;
   Failed test (failedMessage onlyGradleError)].

(** What a run in a Gradle workspace does for one leaf. *)
Definition startedThenPassed (h : list TestItem) (test : nat) : list RunEvent :=
  [Started test; CreateTerminal "Kotlin Test"; TerminalShow;
   SendText (gradleCommand (selectorOf (itemId h test)).1 (selectorOf (itemId h test)).2);
   Passed test].

(** The handler of the [kotlin.test.run] command of [activate]: what it
    does to the terminal, and the error it throws if it throws, as
    [`${err}`] renders it.  [path.join] of the one [fsPath] is taken to
    return it, a path already in normal form. *)
Definition testRunCommand (env : RunEnv) (testMethod testClass : string)
    : list RunEvent * option string :=
  match workspaceFolders env with
  | None => ([CreateTerminal "Kotlin Test"; TerminalShow], None)
  | Some [] => ([CreateTerminal "Kotlin Test"; TerminalShow], Some noFolderTypeError)
  | Some (workspaceRoot :: _) =>
      let hasGradleFile :=
        fsExists env (pathJoin workspaceRoot "build.gradle") ||
        fsExists env (pathJoin workspaceRoot "build.gradle.kts") in
      if hasGradleFile
      then ([CreateTerminal "Kotlin Test"; TerminalShow; TerminalShow;
             SendText (gradleCommand testClass (Some testMethod))], None)
      else ([CreateTerminal "Kotlin Test"; TerminalShow; TerminalShow],
            Some onlyGradleError)
  end.


(** [c] is listed among the children of [r]; [below h r t]: [t] is [r]
    or is reached from it by going down through children. *)
Definition childOf (h : list TestItem) (r c : nat) : Prop :=
  c ∈ (itemChildren h r).*2.

Definition below (h : list TestItem) : nat → nat → Prop := rtc (childOf h).

(** [p] is the parent of [c]. *)
Definition parentOf (h : list TestItem) (c p : nat) : Prop :=
  itemParent h c = Some p.

(** The items a run starts from. *)
Definition initialQueue (s : Store) (req : TestRunRequest) : list nat :=
  match include req with
  | Some tests => tests
  | None => (items s).*2
  end.

(** Every path of the file index has one item, and that item is a root. *)
Definition rooted (s : Store) : Prop :=
  ∀ filePath fileItems, fileToTestItemsMap s !! filePath = Some fileItems →
    ∃ f, fileItems = [f] ∧ itemParent (heap s) f = None.



(** A non-empty text of word characters. *)
Fixpoint allChars (p : ascii → bool) (w : string) : bool :=
  match w with
  | EmptyString => true
  | String c w' => p c && allChars p w'
  end.

Definition isWord (w : string) : bool :=
  match w with
  | EmptyString => false
  | String _ _ => allChars word w
  end.

(** Whether a text begins with a word character. *)
Definition startsWithWord (s : string) : bool :=
  match s with
  | String c _ => word c
  | EmptyString => false
  end.

(** Whether a pattern holds a capture group. *)
Fixpoint hasGroup (r : regex) : bool :=
  match r with
  | Group _ => true
  | Seq r1 r2 | Alt r1 r2 => hasGroup r1 || hasGroup r2
  | Opt r1 => hasGroup r1
  | _ => false
  end.

(** The three kinds of item the discovery makes: the item of a file, of
    a class of the file, of a method of the class.  The id begins with
    the file id of the item's own path. *)
Inductive itemKind (it : TestItem) : Prop :=
| kind_file filePath :
    uri it = Some filePath → id it = fileIdOf filePath →
    label it = basename filePath → itemKind it
| kind_class filePath className :
    uri it = Some filePath →
    id it = fileIdOf filePath +:+ "." +:+ className →
    label it = className →
    isWord className = true → Js.includes className "Test" = true → itemKind it
| kind_method filePath className methodName :
    uri it = Some filePath →
    id it = (fileIdOf filePath +:+ "." +:+ className) +:+ "." +:+ methodName →
    label it = methodName →
    isWord className = true → Js.includes className "Test" = true →
    isWord methodName = true → itemKind it.

Definition kinded (s : Store) : Prop :=
  ∀ r it, heap s !! r = Some it → itemKind it.

(** * Properties *)

(** ** Strings *)

Section StringFacts.
Implicit Types s t u : string.

Lemma append_nil t : EmptyString +:+ t = t.
Proof. reflexivity. Qed.

Lemma append_cons c s t : String c s +:+ t = String c (s +:+ t).
Proof. reflexivity. Qed.

Lemma length_append s t : String.length (s +:+ t) = String.length s + String.length t.
Proof.
  induction s as [|c s IH]; [done |].
  rewrite append_cons. simpl. by rewrite IH.
Qed.

Lemma append_assoc s t u : (s +:+ t) +:+ u = s +:+ t +:+ u.
Proof.
  induction s as [|c s IH]; [done |].
  rewrite !append_cons. by rewrite IH.
Qed.

Lemma startsWith_append s t : Js.startsWith (s +:+ t) s = true.
Proof.
  induction s as [|c s IH]; [done |].
  rewrite append_cons. simpl. by rewrite Ascii.eqb_refl, IH.
Qed.

Lemma append_ne_self s c t : s ≠ s +:+ String c t.
Proof.
  intros H. apply (f_equal String.length) in H.
  rewrite length_append in H. simpl in H. lia.
Qed.

Lemma properPrefix_append s c t : properPrefix s (s +:+ String c t).
Proof. split; [apply startsWith_append | apply append_ne_self]. Qed.

Lemma properPrefix_trans s t u : properPrefix s t → properPrefix t u → properPrefix s u.
Proof.
  revert t u. induction s as [|a s IH]; intros t u [H1 N1] [H2 N2].
  - split; [by destruct u |]. intros <-. destruct t; [done | discriminate].
  - destruct t as [|b t]; [discriminate |]. destruct u as [|c u]; [discriminate |].
    simpl in H1, H2. apply andb_prop in H1 as [E1 H1], H2 as [E2 H2].
    apply Ascii.eqb_eq in E1, E2. subst b c.
    destruct (IH t u) as [H3 N3].
    + split; [done | congruence].
    + split; [done | congruence].
    + split; [simpl; by rewrite Ascii.eqb_refl, H3 | congruence].
Qed.

Lemma take_append s t : Js.take (String.length s) (s +:+ t) = s.
Proof.
  induction s as [|c s IH]; [by destruct t |].
  rewrite append_cons. simpl. by rewrite IH.
Qed.

Lemma drop_append s t : Js.drop (String.length s) (s +:+ t) = t.
Proof.
  induction s as [|c s IH]; [by destruct t |].
  rewrite append_cons. simpl. done.
Qed.

Lemma take_all s : Js.take (String.length s) s = s.
Proof. induction s as [|c s IH]; simpl; [done | by rewrite IH]. Qed.

(** The first brace of [pre +:+ "{" +:+ t] is the one written out when
    [pre] has none. *)
Lemma indexOf_append pre c t :
  Js.indexOf pre c = None →
  Js.indexOf (pre +:+ String c t) c = Some (String.length pre).
Proof.
  induction pre as [|b pre IH]; intros H.
  - rewrite append_nil. simpl. by rewrite Ascii.eqb_refl.
  - rewrite append_cons. simpl in *. destruct (Ascii.eqb b c); [done |].
    destruct (Js.indexOf pre c); [done |]. by rewrite IH.
Qed.

(** An id without the separator is not split. *)
Lemma split_without_separator s sep :
  Js.indexOf s sep = None → Js.split s sep = [s].
Proof.
  induction s as [|c s IH]; simpl; [done |].
  destruct (Ascii.eqb c sep); [done |].
  destruct (Js.indexOf s sep); [done |]. intros _. by rewrite IH.
Qed.
End StringFacts.

(** ** The brace-counting loop *)

(** Once the count is zero the loop has stopped. *)
Lemma braceLoop_stopped rest endPos : braceLoop rest 0 endPos = endPos.
Proof. by destruct rest. Qed.

(** Over text that closes the [d] braces open before it, then one closing
    brace, the loop runs from a count of [d + 1] to just past that brace. *)
Lemma braceLoop_balanced body : ∀ d rest endPos,
  balancedFrom d body = true →
  braceLoop (body +:+ "}" +:+ rest) (Z.of_nat d + 1) endPos
  = endPos + String.length body + 1.
Proof.
  induction body as [|c body IH]; intros d rest endPos H; simpl in H.
  - apply Nat.eqb_eq in H. subst d. rewrite append_nil, append_cons. simpl.
    rewrite braceLoop_stopped. lia.
  - rewrite append_cons. cbn [braceLoop String.length].
    replace (0 <? Z.of_nat d + 1)%Z with true by (symmetry; apply Z.ltb_lt; lia).
    destruct (Ascii.eqb c "{").
    + replace (Z.of_nat d + 1 + 1)%Z with (Z.of_nat (S d) + 1)%Z by lia.
      rewrite IH; [lia | done].
    + destruct (Ascii.eqb c "}").
      * destruct d as [|d]; [done |].
        replace (Z.of_nat (S d) + 1 - 1)%Z with (Z.of_nat d + 1)%Z by lia.
        rewrite IH; [lia | done].
      * rewrite IH; [lia | done].
Qed.

(** Over text that leaves the count positive the loop runs to the end. *)
Lemma braceLoop_unclosed body : ∀ n endPos,
  staysOpen n body = true →
  braceLoop body n endPos = endPos + String.length body.
Proof.
  induction body as [|c body IH]; intros n endPos H; simpl in H.
  - simpl. lia.
  - apply andb_prop in H as [Hn H].
    cbn [braceLoop String.length]. rewrite Hn.
    destruct (Ascii.eqb c "{"); [rewrite IH; [lia | done] |].
    destruct (Ascii.eqb c "}"); rewrite IH; first [lia | done].
Qed.

(** The class body once the first brace is located. *)
Lemma classBody_from_brace (pre t : string) :
  Js.indexOf pre "{" = None →
  classBody (pre +:+ "{" +:+ t)
  = Js.take (braceLoop t 1 (String.length pre + 1)) (pre +:+ "{" +:+ t).
Proof.
  intros Hpre. unfold classBody.
  change (pre +:+ "{" +:+ t) with (pre +:+ String "{" t).
  rewrite (indexOf_append pre "{" t Hpre).
  change (pre +:+ String "{" t) with (pre +:+ "{" +:+ t).
  rewrite <- (append_assoc pre "{" t).
  replace (String.length pre + 1) with (String.length (pre +:+ "{"))
    by (rewrite length_append; done).
  by rewrite drop_append.
Qed.

(** C7, as the code has it: for a class whose braces are balanced, the
    text searched for its methods is the text from the class keyword
    through the brace that matches its opening brace, whatever follows
    that brace, and the method list is every match of the method pattern
    in that text, in order.  The bodies of nested inner classes are part
    of that text, so their methods are not left out. *)
Theorem class_methods_span_matching_brace (pre body rest : string) :
  Js.indexOf pre "{" = None →
  balancedFrom 0 body = true →
  classBody (pre +:+ "{" +:+ body +:+ "}" +:+ rest) = pre +:+ "{" +:+ body +:+ "}" ∧
  methodNames (pre +:+ "{" +:+ body +:+ "}" +:+ rest)
  = capture <$> execAll methodRegex (pre +:+ "{" +:+ body +:+ "}").
Proof.
  intros Hpre Hbal.
  assert (classBody (pre +:+ "{" +:+ body +:+ "}" +:+ rest)
          = pre +:+ "{" +:+ body +:+ "}") as Hbody.
  { rewrite (classBody_from_brace pre _ Hpre).
    rewrite (braceLoop_balanced body 0 rest _ Hbal).
    replace (String.length pre + 1 + String.length body + 1)
      with (String.length (pre +:+ "{" +:+ body +:+ "}"))
      by (rewrite !length_append; simpl; lia).
    rewrite <- (append_assoc body "}" rest).
    rewrite <- (append_assoc "{" (body +:+ "}") rest).
    rewrite <- (append_assoc pre ("{" +:+ body +:+ "}") rest).
    by rewrite take_append. }
  split; [done |]. unfold methodNames. by rewrite Hbody.
Qed.

Lemma class_methods_span_matching_brace_witness :
  methodNames ("class OuterTest " +:+ "{" +:+
               " @Test fun outer() {} class InnerTest { @Test fun inner() {} } "
               +:+ "}" +:+ " class Other {}")
  = capture <$> execAll methodRegex
      ("class OuterTest " +:+ "{" +:+
       " @Test fun outer() {} class InnerTest { @Test fun inner() {} } " +:+ "}").
Proof.
  apply (class_methods_span_matching_brace "class OuterTest "
           " @Test fun outer() {} class InnerTest { @Test fun inner() {} } "
           " class Other {}"); reflexivity.
Defined.

(** The claim of C7 fails on a nested class whose braces are balanced:
    the method of [InnerTest] is listed for [OuterTest] too, and the
    scan hangs an item for it under the item of [OuterTest]. *)
Lemma nested_method_listed_for_outer_class :
  balancedFrom 0 " @Test fun outer() {} class InnerTest { @Test fun inner() {} } "
  = true ∧
  scanDeclarations nestedContent
  = [("OuterTest", ["outer"; "inner"]); ("InnerTest", ["inner"])] ∧
  (itemChildren (heap nestedStore) 1).*1
  = ["kotlin-test:/ws/NestedTest.kt.OuterTest.outer";
     "kotlin-test:/ws/NestedTest.kt.OuterTest.inner"].
Proof. vm_compute. done. Qed.

(** C9: a class body that is never closed is scanned to the end of the
    content.  The loop is a recursion on the text still to read, so it
    stops there; the text from the class keyword to the end of the
    content is the class body, and the methods are those found in it. *)
Theorem unclosed_class_body_ends_at_content_end (pre body : string) :
  Js.indexOf pre "{" = None →
  staysOpen 1 body = true →
  classBody (pre +:+ "{" +:+ body) = pre +:+ "{" +:+ body ∧
  methodNames (pre +:+ "{" +:+ body)
  = capture <$> execAll methodRegex (pre +:+ "{" +:+ body).
Proof.
  intros Hpre Hopen.
  assert (classBody (pre +:+ "{" +:+ body) = pre +:+ "{" +:+ body) as Hbody.
  { rewrite (classBody_from_brace pre _ Hpre).
    rewrite (braceLoop_unclosed body 1 _ Hopen).
    replace (String.length pre + 1 + String.length body)
      with (String.length (pre +:+ "{" +:+ body))
      by (rewrite !length_append; simpl; lia).
    apply take_all. }
  split; [done |]. unfold methodNames. by rewrite Hbody.
Qed.

Lemma unclosed_class_body_ends_at_content_end_witness :
  classBody ("class FooTest " +:+ "{" +:+ " @Test fun a() { if (x) { } ")
  = "class FooTest " +:+ "{" +:+ " @Test fun a() { if (x) { } ".
Proof.
  apply (unclosed_class_body_ends_at_content_end
           "class FooTest " " @Test fun a() { if (x) { } "); reflexivity.
Defined.

(** ** The file classifier and the directory walk *)

(** C5, on a file [Foo.kt] whose content holds [@Test]: the name has no
    "Test" in it, yet the file is pushed on [testFiles].  In the test on
    the name, [&&] binds tighter than [||], so the check for "Test"
    applies to [.kts] files only. *)
Theorem kt_file_without_test_in_name_is_candidate :
  Js.includes "Foo.kt" "Test" = false ∧
  Js.includes "Foo.kt" "Tests" = false ∧
  isCandidateTestFile "Foo.kt" (Some "class Foo { @Test fun bar() {} }") = true ∧
  findKotlinTestFiles (λ _, Some "class Foo { @Test fun bar() {} }") "/ws"
    (Some [FileEntry "Foo.kt"]) = ["/ws/Foo.kt"].
Proof. vm_compute. done. Qed.


(** The name of a [.kt] file is not looked at further. *)
Lemma kt_name_passes name : Js.endsWith name ".kt" = true → nameCheck name = true.
Proof. unfold nameCheck. by intros ->. Qed.


(** C6, on a workspace whose test file lies under [src]: the walk lists
    the workspace folder only.  The guard of the recursive call asks for
    a name that starts with ".", so [src] is not entered and its test
    file is not found, while a hidden directory is. *)
Theorem plain_directory_is_not_descended :
  Js.startsWith "src" "build" = false ∧
  descends "src" = false ∧
  listedDirectories (λ _, Some "@Test") "/ws"
    (Some [DirEntry "src" (Some [FileEntry "FooTest.kt"]);
           DirEntry ".idea" (Some [])]) = ["/ws"; "/ws/.idea"] ∧
  findKotlinTestFiles (λ _, Some "@Test") "/ws"
    (Some [DirEntry "src" (Some [FileEntry "FooTest.kt"]);
           DirEntry ".idea" (Some [])]) = [].
Proof. vm_compute. done. Qed.

(** ** Insertion-ordered maps *)

Section Upsert.
Context {V : Type}.
Implicit Types (m : list (string * V)) (k : string) (v : V).

Lemma elem_of_upsert m k v e : e ∈ upsert m k v → e ∈ m ∨ e = (k, v).
Proof.
  induction m as [|[k' v'] m IH]; csimpl.
  - intros ->%list_elem_of_singleton. by right.
  - case_decide.
    + intros [->|Hin]%elem_of_cons; [by right | left; by apply elem_of_cons; right].
    + intros [->|Hin]%elem_of_cons; [left; apply elem_of_cons; by left |].
      destruct (IH Hin) as [?|?]; [left; apply elem_of_cons; by right | by right].
Qed.

Lemma upsert_keys_in m k v : k ∈ m.*1 → (upsert m k v).*1 = m.*1.
Proof.
  induction m as [|[k' v'] m IH]; csimpl; [by intros ?%elem_of_nil |].
  case_decide; [by subst |].
  intros [?|Hin]%elem_of_cons; [congruence |]. csimpl. by rewrite IH.
Qed.

Lemma upsert_keys_notin m k v : k ∉ m.*1 → (upsert m k v).*1 = m.*1 ++ [k].
Proof.
  induction m as [|[k' v'] m IH]; csimpl; [done |].
  intros H. apply not_elem_of_cons in H as [Hne H].
  case_decide; [congruence |]. csimpl. by rewrite IH.
Qed.

Lemma upsert_key_elem m k v : k ∈ (upsert m k v).*1.
Proof.
  destruct (decide (k ∈ m.*1)) as [H|H].
  - by rewrite upsert_keys_in.
  - rewrite upsert_keys_notin by done. apply elem_of_app. right. by apply list_elem_of_singleton.
Qed.

Lemma upsert_keys_mono m k v k' : k' ∈ m.*1 → k' ∈ (upsert m k v).*1.
Proof.
  intros H. destruct (decide (k ∈ m.*1)).
  - by rewrite upsert_keys_in.
  - rewrite upsert_keys_notin by done. apply elem_of_app. by left.
Qed.

Lemma upsert_NoDup m k v : NoDup m.*1 → NoDup (upsert m k v).*1.
Proof.
  intros H. destruct (decide (k ∈ m.*1)).
  - by rewrite upsert_keys_in.
  - rewrite upsert_keys_notin by done. apply NoDup_app. split; [done |].
    split; [| apply NoDup_singleton].
    intros x Hx ->%list_elem_of_singleton. done.
Qed.

Lemma assoc_upsert m k v k' :
  assoc (upsert m k v) k' = if decide (k = k') then Some v else assoc m k'.
Proof.
  induction m as [|[k0 v0] m IH]; csimpl.
  - repeat case_decide; congruence.
  - repeat (case_decide; csimpl); subst; try congruence.
Qed.

Lemma assoc_notin m k : k ∉ m.*1 → assoc m k = None.
Proof.
  induction m as [|[k0 v0] m IH]; csimpl; [done |].
  intros H. apply not_elem_of_cons in H as [Hne H].
  case_decide; [congruence | by apply IH].
Qed.

(** Two maps with the same keys in the same order and the same values
    are the same list of entries. *)
Lemma upsert_ext m1 m2 :
  NoDup m1.*1 → m1.*1 = m2.*1 → (∀ k, assoc m1 k = assoc m2 k) → m1 = m2.
Proof.
  revert m2. induction m1 as [|[k1 v1] m1 IH]; intros [|[k2 v2] m2] Hnd Hk Ha;
    try done.
  csimpl in Hk. injection Hk as -> Hk. apply NoDup_cons in Hnd as [Hnotin Hnd].
  pose proof (Ha k2) as Hv. csimpl in Hv. rewrite !decide_True in Hv by done.
  injection Hv as ->. f_equal. apply IH; [done | done |].
  intros k. destruct (decide (k2 = k)) as [<-|Hne].
  - rewrite !assoc_notin; [done | by rewrite <- Hk | done].
  - specialize (Ha k). csimpl in Ha. by rewrite !decide_False in Ha by done.
Qed.

Implicit Types es : list (string * V).

Lemma insertAll_cons m e es : insertAll m (e :: es) = insertAll (upsert m e.1 e.2) es.
Proof. reflexivity. Qed.

Lemma insertAll_NoDup es : ∀ m, NoDup m.*1 → NoDup (insertAll m es).*1.
Proof.
  induction es as [|e es IH]; intros m H; [done |].
  rewrite insertAll_cons. apply IH. by apply upsert_NoDup.
Qed.

Lemma insertAll_keys_mono es : ∀ m k, k ∈ m.*1 → k ∈ (insertAll m es).*1.
Proof.
  induction es as [|e es IH]; intros m k H; [done |].
  rewrite insertAll_cons. apply IH. by apply upsert_keys_mono.
Qed.

Lemma insertAll_keys_new es : ∀ m k, k ∈ es.*1 → k ∈ (insertAll m es).*1.
Proof.
  induction es as [|e es IH]; intros m k H; [by apply elem_of_nil in H |].
  rewrite insertAll_cons. csimpl in H. apply elem_of_cons in H as [->|H].
  - apply insertAll_keys_mono, upsert_key_elem.
  - by apply IH.
Qed.

(** Inserting entries whose keys are all present moves no key. *)
Lemma insertAll_keys_present es : ∀ m,
  (∀ k, k ∈ es.*1 → k ∈ m.*1) → (insertAll m es).*1 = m.*1.
Proof.
  induction es as [|e es IH]; intros m H; [done |].
  rewrite insertAll_cons. rewrite IH.
  - apply upsert_keys_in, H. csimpl. apply elem_of_cons. by left.
  - intros k Hk. apply upsert_keys_mono, H. csimpl. apply elem_of_cons. by right.
Qed.

Lemma assoc_insertAll_other es : ∀ m k,
  k ∉ es.*1 → assoc (insertAll m es) k = assoc m k.
Proof.
  induction es as [|e es IH]; intros m k H; [done |].
  rewrite insertAll_cons. csimpl in H. apply not_elem_of_cons in H as [Hne H].
  rewrite IH by done. rewrite assoc_upsert. by rewrite decide_False.
Qed.

Lemma assoc_insertAll_agree es : ∀ m1 m2 k,
  assoc m1 k = assoc m2 k ∨ k ∈ es.*1 →
  assoc (insertAll m1 es) k = assoc (insertAll m2 es) k.
Proof.
  induction es as [|e es IH]; intros m1 m2 k H.
  - destruct H as [H|H]; [done | by apply elem_of_nil in H].
  - rewrite !insertAll_cons. apply IH. rewrite !assoc_upsert.
    destruct (decide (e.1 = k)) as [|Hne]; [by left |].
    destruct H as [H|H]; [by left |]. right.
    csimpl in H. apply elem_of_cons in H as [?|?]; [congruence | done].
Qed.

(** Running the same insertions a second time changes nothing. *)
Lemma insertAll_idempotent m es :
  NoDup m.*1 → insertAll (insertAll m es) es = insertAll m es.
Proof.
  intros Hnd. apply upsert_ext.
  - by do 2 apply insertAll_NoDup.
  - apply insertAll_keys_present. intros k Hk. by apply insertAll_keys_new.
  - intros k. destruct (decide (k ∈ es.*1)) as [Hin|Hout].
    + apply assoc_insertAll_agree. by right.
    + by rewrite assoc_insertAll_other.
Qed.

End Upsert.

Lemma fmap_upsert {V W} (g : V → W) (m : list (string * V)) k v :
  prod_map (λ x, x) g <$> upsert m k v = upsert (prod_map (λ x, x) g <$> m) k (g v).
Proof.
  induction m as [|[k' v'] m IH]; csimpl; [done |].
  case_decide; csimpl; [done | by rewrite IH].
Qed.

(** ** The heap of test items *)

Lemma itemId_lookup h r it : h !! r = Some it → itemId h r = id it.
Proof. intros H. unfold itemId. by rewrite H. Qed.

Lemma itemChildren_lookup h r it : h !! r = Some it → itemChildren h r = children it.
Proof. intros H. unfold itemChildren. by rewrite H. Qed.

Lemma childrenAdd_heap p c s r :
  p ≠ c →
  heap (childrenAdd p c s) !! r = afterAdd p c (itemId (heap s) c) r <$> heap s !! r.
Proof.
  intros Hne. unfold childrenAdd, afterAdd. simpl.
  destruct (decide (r = c)) as [->|Hc].
  - rewrite list_lookup_alter_eq. rewrite list_lookup_alter_ne by done.
    by destruct (heap s !! c).
  - rewrite list_lookup_alter_ne by done.
    destruct (decide (r = p)) as [->|Hp].
    + rewrite list_lookup_alter_eq. by destruct (heap s !! p).
    + rewrite list_lookup_alter_ne by done. by destruct (heap s !! r).
Qed.

Lemma childrenAdd_heap_other p c s r :
  p ≠ c → r ≠ p → r ≠ c → heap (childrenAdd p c s) !! r = heap s !! r.
Proof.
  intros Hne Hp Hc. rewrite childrenAdd_heap by done.
  destruct (heap s !! r); [|done]. simpl. unfold afterAdd.
  by rewrite !decide_False by done.
Qed.

Lemma childrenAdd_heap_parent p c s ip :
  p ≠ c → heap s !! p = Some ip →
  heap (childrenAdd p c s) !! p
  = Some (setChildren (collAdd (children ip) (itemId (heap s) c) c) ip).
Proof.
  intros Hne Hp. rewrite childrenAdd_heap by done. rewrite Hp. simpl.
  unfold afterAdd. rewrite decide_False by done. by rewrite decide_True.
Qed.

Lemma childrenAdd_heap_child p c s ic :
  p ≠ c → heap s !! c = Some ic →
  heap (childrenAdd p c s) !! c = Some (setParent (Some p) ic).
Proof.
  intros Hne Hc. rewrite childrenAdd_heap by done. rewrite Hc. simpl.
  unfold afterAdd. by rewrite decide_True.
Qed.

Lemma afterAdd_id p c k r it : id (afterAdd p c k r it) = id it.
Proof. unfold afterAdd. by repeat case_decide. Qed.

Lemma childrenAdd_length p c s : length (heap (childrenAdd p c s)) = length (heap s).
Proof. unfold childrenAdd. simpl. by rewrite !length_alter. Qed.

Lemma createTestItem_lookup_old k l u s r :
  r < length (heap s) → heap (createTestItem k l u s).2 !! r = heap s !! r.
Proof. intros H. simpl. by rewrite lookup_app_l. Qed.

Lemma createTestItem_lookup_new k l u s :
  heap (createTestItem k l u s).2 !! length (heap s) = Some (mkTestItem k l u [] None).
Proof. simpl. rewrite lookup_app_r by done. by rewrite Nat.sub_diag. Qed.

Lemma createTestItem_lookup_Some k l u s r it :
  heap (createTestItem k l u s).2 !! r = Some it →
  heap s !! r = Some it ∨ r = length (heap s) ∧ it = mkTestItem k l u [] None.
Proof.
  simpl. intros [H|[H1 H2]]%lookup_app_Some; [by left | right].
  apply list_lookup_singleton_Some in H2 as [H2 <-]. split; [lia | done].
Qed.

(** ** The invariant holds in every reachable state *)

Lemma wf_initial : wfStore initialStore.
Proof. split; simpl; try done; intros *; by rewrite ?lookup_empty. Qed.

Lemma wf_createTestItem k l u s : wfStore s → wfStore (createTestItem k l u s).2.
Proof.
  intros [Hi Hr Hc Hn Hf Hpar Hpid]. split.
  7: { intros r it p Hit Hp.
       apply createTestItem_lookup_Some in Hit as [Hit|[-> ->]]; [| done].
       destruct (Hpid _ _ _ Hit Hp) as (itp & Hitp & Hlen).
       exists itp. split; [| done].
       simpl. rewrite lookup_app_l; [done | by eapply lookup_lt_Some]. }
  6: { intros r it p Hit Hp.
       apply createTestItem_lookup_Some in Hit as [Hit|[-> ->]]; [by eapply Hpar | done]. }
  5: { intros p fs f Hp Hin. destruct (Hf _ _ _ Hp Hin) as (it & Hit & Hid).
       exists it. split; [|done].
       simpl. rewrite lookup_app_l; [done | by eapply lookup_lt_Some]. }
  - done.
  - intros k' r. cbn [createTestItem snd testItems].
    destruct (decide (k = k')) as [<-|Hne].
    + rewrite lookup_insert_eq. intros [= <-]. eexists.
      split; [apply createTestItem_lookup_new | done].
    + rewrite lookup_insert_ne by done. intros H.
      destruct (Hr _ _ H) as (it & Hit & Hid). exists it. split; [|done].
      simpl. rewrite lookup_app_l; [done | by eapply lookup_lt_Some].
  - intros r it k' c Hit Hin.
    apply createTestItem_lookup_Some in Hit as [Hit|[-> ->]];
      [| by apply elem_of_nil in Hin].
    destruct (Hc _ _ _ _ Hit Hin) as (Hlt & itc & Hitc & Hid & Hname).
    split; [done |]. exists itc. split; [|done].
    simpl. rewrite lookup_app_l; [done | by eapply lookup_lt_Some].
  - intros r it Hit.
    apply createTestItem_lookup_Some in Hit as [Hit|[-> ->]]; [by eapply Hn |].
    simpl. apply NoDup_nil_2.
Qed.

Lemma wf_childrenAdd p c s ip ic name :
  wfStore s → p < c →
  heap s !! p = Some ip → heap s !! c = Some ic →
  id ic = id ip +:+ "." +:+ name →
  wfStore (childrenAdd p c s).
Proof.
  intros [Hi Hr Hc Hn Hf Hpar Hpid] Hlt Hp Hcc Hid.
  assert (p ≠ c) as Hne by lia.
  assert (∀ r it, heap s !! r = Some it →
            ∃ it', heap (childrenAdd p c s) !! r = Some it' ∧ id it' = id it) as Hkeep.
  { intros r it Hit. rewrite childrenAdd_heap by done. rewrite Hit. simpl.
    eexists. split; [done | apply afterAdd_id]. }
  split.
  7: { intros r it' q Hit' Hq. rewrite childrenAdd_heap in Hit' by done.
       destruct (heap s !! r) as [it|] eqn:Hit; [|done].
       injection Hit' as <-. rewrite afterAdd_id.
       assert (parent it = Some q ∨ (r = c ∧ q = p)) as [Hold|[-> ->]].
       { unfold afterAdd in Hq. repeat case_decide; simpl in Hq; subst;
           first [by left | injection Hq as <-; by right]. }
       - destruct (Hpid _ _ _ Hit Hold) as (itq & Hitq & Hlen).
         destruct (Hkeep _ _ Hitq) as (itq' & Hitq' & Hidq).
         exists itq'. split; [done |]. by rewrite Hidq.
       - destruct (Hkeep _ _ Hp) as (ip' & Hip' & Hidp).
         exists ip'. split; [done |]. rewrite Hidp.
         rewrite Hit in Hcc. injection Hcc as ->.
         rewrite Hid, !length_append. simpl. lia. }
  6: { intros r it' q Hit' Hq. rewrite childrenAdd_heap in Hit' by done.
       destruct (heap s !! r) as [it|] eqn:Hit; [|done].
       injection Hit' as <-. unfold afterAdd in Hq.
       repeat case_decide; simpl in Hq; subst;
         first [by eapply Hpar | injection Hq as <-; lia]. }
  5: { intros q fs f Hq Hin. destruct (Hf _ _ _ Hq Hin) as (it & Hit & <-).
       by apply Hkeep. }
  - done.
  - intros k r H. destruct (Hr _ _ H) as (it & Hit & <-). by apply Hkeep.
  - intros r it' k x Hit' Hin.
    rewrite childrenAdd_heap in Hit' by done.
    rewrite (itemId_lookup _ _ _ Hcc) in Hit'.
    destruct (heap s !! r) as [it|] eqn:Hit; [|done].
    injection Hit' as <-. rewrite afterAdd_id.
    assert ((k, x) ∈ children it ∨ (r = p ∧ k = id ic ∧ x = c)) as [Hold|(-> & -> & ->)].
    { unfold afterAdd in Hin. repeat case_decide; simpl in Hin; try by left.
      apply elem_of_upsert in Hin as [?|[= -> ->]]; [by left | by right]. }
    + destruct (Hc _ _ _ _ Hit Hold) as (Hlt' & itx & Hitx & Hidx & Hname).
      split; [done |]. destruct (Hkeep _ _ Hitx) as (itx' & Hitx' & Hidx').
      exists itx'. split; [done |]. split; [congruence | done].
    + split; [done |]. destruct (Hkeep _ _ Hcc) as (ic' & Hic' & Hidc').
      exists ic'. split; [done |]. split; [done |].
      exists name. rewrite Hit in Hp. injection Hp as ->. done.
  - intros r it' Hit'. rewrite childrenAdd_heap in Hit' by done.
    destruct (heap s !! r) as [it|] eqn:Hit; [|done].
    injection Hit' as <-. unfold afterAdd. repeat case_decide; simpl.
    + by eapply Hn.
    + apply upsert_NoDup. by eapply Hn.
    + by eapply Hn.
Qed.

Lemma removeTestsForFile_heap filePath s : heap (removeTestsForFile filePath s) = heap s.
Proof.
  unfold removeTestsForFile. destruct (fileToTestItemsMap s !! filePath) as [l|]; [|done].
  simpl. revert s. induction l as [|x l IH]; intros s; [done |]. simpl. by rewrite IH.
Qed.

Lemma removeTestsForFile_items filePath s :
  items s = [] → items (removeTestsForFile filePath s) = [].
Proof.
  unfold removeTestsForFile. destruct (fileToTestItemsMap s !! filePath) as [l|]; [|done].
  simpl. revert s. induction l as [|x l IH]; intros s H; [done |]. simpl.
  apply IH. simpl. by rewrite H.
Qed.

Lemma removeTestsForFile_registry filePath s k r :
  testItems (removeTestsForFile filePath s) !! k = Some r → testItems s !! k = Some r.
Proof.
  unfold removeTestsForFile. destruct (fileToTestItemsMap s !! filePath) as [l|]; [|done].
  simpl. revert s. induction l as [|x l IH]; intros s H; [done |]. simpl in H.
  apply IH in H. simpl in H. by apply lookup_delete_Some in H as [_ H].
Qed.

Lemma removeTestsForFile_index filePath s :
  fileToTestItemsMap (removeTestsForFile filePath s)
  = delete filePath (fileToTestItemsMap s).
Proof.
  unfold removeTestsForFile.
  destruct (fileToTestItemsMap s !! filePath) as [l|] eqn:E.
  - simpl. f_equal. clear E. revert s.
    induction l as [|x l IH]; intros s; [done |]. simpl. by rewrite IH.
  - symmetry. by apply delete_id.
Qed.

Lemma removeTestsForFile_absent filePath s :
  fileToTestItemsMap s !! filePath = None → removeTestsForFile filePath s = s.
Proof. intros H. unfold removeTestsForFile. by rewrite H. Qed.

Lemma wf_removeTestsForFile filePath s : wfStore s → wfStore (removeTestsForFile filePath s).
Proof.
  intros [Hi Hr Hc Hn Hf Hpar Hpid]. split.
  7: { rewrite removeTestsForFile_heap. eauto. }
  - by apply removeTestsForFile_items.
  - intros k r H%removeTestsForFile_registry. rewrite removeTestsForFile_heap. eauto.
  - rewrite removeTestsForFile_heap. eauto.
  - rewrite removeTestsForFile_heap. eauto.
  - rewrite removeTestsForFile_heap, removeTestsForFile_index.
    intros q fs f [_ Hq]%lookup_delete_Some Hin. eauto.
  - rewrite removeTestsForFile_heap. eauto.
Qed.

(** ** What a scan builds *)

Lemma extends_refl f fid s : extends f fid s s.
Proof. repeat split; eauto. Qed.

Lemma extends_chain f fid c cid s s2 s3 :
  extends f fid s s2 → extends c cid s2 s3 →
  (c = f ∨ length (heap s) ≤ c) → (cid = fid ∨ properPrefix fid cid) →
  extends f fid s s3.
Proof.
  intros (L1 & F1 & K1 & I1 & M1 & T1) (L2 & F2 & K2 & I2 & M2 & T2) Hc Hid.
  repeat split.
  - lia.
  - intros r Hr Hlt. rewrite F2; [by apply F1 | | lia].
    destruct Hc as [->|Hc]; [done | lia].
  - intros itf Hf. destruct (K1 _ Hf) as (itf2 & Hf2 & Hid2 & Hp2).
    destruct Hc as [->|Hc].
    + destruct (K2 _ Hf2) as (itf3 & Hf3 & Hid3 & Hp3).
      exists itf3. split; [done |]. split; congruence.
    + exists itf2. split; [| done]. rewrite F2; [done | |].
      * apply lookup_lt_Some in Hf. lia.
      * by eapply lookup_lt_Some.
  - congruence.
  - congruence.
  - intros k Hk. rewrite T2; [by apply T1 |].
    destruct Hid as [->|Hid]; [done |].
    intros Hk'. apply Hk. by eapply properPrefix_trans.
Qed.

Section Frame.
Variables (f : nat) (fid : string) (s s' : Store).
Hypothesis Hwf : wfStore s.
Hypothesis Hext : extends f fid s s'.

Lemma extends_itemId r : r < length (heap s) → itemId (heap s') r = itemId (heap s) r.
Proof.
  destruct Hext as (_ & F & K & _). intros Hr.
  destruct (decide (r = f)) as [->|Hne].
  - destruct (lookup_lt_is_Some_2 _ _ Hr) as [itf Hitf].
    destruct (K _ Hitf) as (itf' & Hitf' & Hid & _).
    by rewrite (itemId_lookup _ _ _ Hitf'), (itemId_lookup _ _ _ Hitf).
  - unfold itemId. by rewrite F.
Qed.

Lemma extends_itemParentId r :
  r < length (heap s) → itemParentId (heap s') r = itemParentId (heap s) r.
Proof.
  destruct Hext as (_ & F & K & _). intros Hr.
  destruct (lookup_lt_is_Some_2 _ _ Hr) as [it Hit].
  assert (itemParent (heap s') r = parent it) as Hp'.
  { unfold itemParent. destruct (decide (r = f)) as [->|Hne].
    - destruct (K _ Hit) as (it' & Hit' & _ & Hp). by rewrite Hit'.
    - rewrite F by done. by rewrite Hit. }
  unfold itemParentId. rewrite Hp'. unfold itemParent. rewrite Hit. simpl.
  destruct (parent it) as [p|] eqn:Hp; [|done]. simpl. f_equal.
  apply extends_itemId. pose proof (wf_parent s Hwf _ _ _ Hit Hp). lia.
Qed.

(** The objects of [s] above [f] look the same in [s'], all the way
    down. *)
Lemma treeView_frame depth : ∀ x,
  f < x → x < length (heap s) → treeView depth (heap s') x = treeView depth (heap s) x.
Proof.
  induction depth as [|d IH]; intros x Hfx Hx; simpl.
  - by rewrite extends_itemId, extends_itemParentId.
  - rewrite extends_itemId, extends_itemParentId by done. f_equal.
    destruct Hext as (_ & F & _).
    destruct (lookup_lt_is_Some_2 _ _ Hx) as [it Hit].
    unfold itemChildren. rewrite F by (done || lia). rewrite Hit. simpl.
    apply list_fmap_ext. intros i [k c] Hi. unfold prod_map. simpl. f_equal.
    apply list_elem_of_lookup_2 in Hi.
    destruct (wf_children s Hwf _ _ _ _ Hit Hi) as (Hxc & itc & Hc & _).
    apply IH; [lia | by eapply lookup_lt_Some].
Qed.

Lemma kidsView_frame depth r it :
  heap s !! r = Some it → f ≤ r →
  kidsView depth (heap s') (children it) = kidsView depth (heap s) (children it).
Proof.
  intros Hit Hfr. unfold kidsView. apply list_fmap_ext. intros i [k c] Hi.
  unfold prod_map. simpl. f_equal. apply list_elem_of_lookup_2 in Hi.
  destruct (wf_children s Hwf _ _ _ _ Hit Hi) as (Hrc & itc & Hc & _).
  apply treeView_frame; [lia | by eapply lookup_lt_Some].
Qed.
End Frame.

Lemma kidsView_upsert depth h cs k c :
  kidsView depth h (collAdd cs k c) = upsert (kidsView depth h cs) k (treeView depth h c).
Proof. unfold kidsView, collAdd. apply fmap_upsert. Qed.

Lemma kidsView_keys depth h cs : (kidsView depth h cs).*1 = cs.*1.
Proof.
  unfold kidsView. rewrite <- list_fmap_compose. apply list_fmap_ext.
  by intros i [k x] _.
Qed.

(** The view of an object whose fields are known. *)
Lemma treeView_lookup depth h r it :
  h !! r = Some it →
  treeView depth h r
  = IdNode (id it) (itemId h <$> parent it)
      match depth with
      | O => []
      | S d => kidsView d h (children it)
      end.
Proof.
  intros H. destruct depth; simpl;
    unfold itemParentId, itemParent, itemChildren;
    by rewrite (itemId_lookup _ _ _ H), H.
Qed.

Lemma addMethod_unfold filePath c s name :
  addMethod filePath c s name
  = childrenAdd c (length (heap s))
      (createTestItem (itemId (heap s) c +:+ "." +:+ name) name (Some filePath) s).2.
Proof. reflexivity. Qed.

Lemma addClass_unfold filePath f s classMatch :
  addClass filePath f s classMatch
  = if Js.includes (capture classMatch) "Test" then
      foldl (addMethod filePath (length (heap s)))
        (childrenAdd f (length (heap s))
           (createTestItem (itemId (heap s) f +:+ "." +:+ capture classMatch)
                           (capture classMatch) (Some filePath) s).2)
        (methodNames (fromIndex classMatch))
    else s.
Proof. reflexivity. Qed.

(** One method: a new leaf under the class item. *)
Lemma addMethod_spec filePath c s name ic :
  wfStore s → heap s !! c = Some ic →
  wfStore (addMethod filePath c s name) ∧
  extends c (id ic) s (addMethod filePath c s name) ∧
  heap (addMethod filePath c s name) !! c
  = Some (setChildren (collAdd (children ic) (id ic +:+ "." +:+ name) (length (heap s))) ic) ∧
  ∀ depth, treeView depth (heap (addMethod filePath c s name)) (length (heap s))
           = (methodEntry (id ic) name).2.
Proof.
  intros Hwf Hc. rewrite addMethod_unfold. rewrite (itemId_lookup _ _ _ Hc).
  set (mid := id ic +:+ "." +:+ name).
  set (s1 := (createTestItem mid name (Some filePath) s).2).
  assert (c < length (heap s)) as Hlt by (by eapply lookup_lt_Some).
  assert (heap s1 !! c = Some ic) as Hc1 by (subst s1; simpl; by rewrite lookup_app_l).
  assert (heap s1 !! length (heap s) = Some (mkTestItem mid name (Some filePath) [] None))
    as Hm1 by apply createTestItem_lookup_new.
  assert (c ≠ length (heap s)) as Hne by lia.
  assert (heap (childrenAdd c (length (heap s)) s1) !! c
          = Some (setChildren (collAdd (children ic) mid (length (heap s))) ic)) as Hc2.
  { rewrite (childrenAdd_heap_parent _ _ _ _ Hne Hc1).
    by rewrite (itemId_lookup _ _ _ Hm1). }
  split; [| split; [| split]].
  - eapply (wf_childrenAdd c (length (heap s)) s1 ic _ name);
      [by apply wf_createTestItem | done | done | exact Hm1 | done].
  - repeat split.
    + rewrite childrenAdd_length. subst s1. simpl. rewrite length_app. lia.
    + intros r Hr Hrlt. rewrite childrenAdd_heap_other by (done || lia).
      subst s1. simpl. by rewrite lookup_app_l.
    + intros itf Hf. rewrite Hc in Hf. injection Hf as <-. eexists. split; [exact Hc2 | done].
    + intros k Hk. subst s1. simpl. rewrite lookup_insert_ne; [done |].
      intros <-. apply Hk. apply properPrefix_append.
  - exact Hc2.
  - intros depth.
    rewrite (treeView_lookup _ _ _ _ (childrenAdd_heap_child _ _ _ _ Hne Hm1)).
    cbn [setParent parent children id fmap option_fmap option_map].
    rewrite (itemId_lookup _ _ _ Hc2). by destruct depth.
Qed.

Lemma addMethods_spec filePath c names : ∀ s ic,
  wfStore s → heap s !! c = Some ic →
  wfStore (foldl (addMethod filePath c) s names) ∧
  extends c (id ic) s (foldl (addMethod filePath c) s names) ∧
  ∃ ic', heap (foldl (addMethod filePath c) s names) !! c = Some ic' ∧
         id ic' = id ic ∧ parent ic' = parent ic ∧
         ∀ depth,
           kidsView depth (heap (foldl (addMethod filePath c) s names)) (children ic')
           = insertAll (kidsView depth (heap s) (children ic))
                       (methodEntry (id ic) <$> names).
Proof.
  induction names as [|name names IH]; intros s ic Hwf Hc.
  - split; [done |]. split; [apply extends_refl |]. by exists ic.
  - destruct (addMethod_spec filePath c s name ic Hwf Hc) as (Hwf1 & Hext1 & Hc1 & Hleaf).
    destruct (IH _ _ Hwf1 Hc1) as (Hwf2 & Hext2 & ic' & Hc2 & Hid2 & Hp2 & Hkids).
    cbn [setChildren id parent children] in Hext2, Hid2, Hp2, Hkids.
    rewrite fmap_cons. cbn [foldl].
    split; [done |]. split.
    + eapply extends_chain; [exact Hext1 | exact Hext2 | by left | by left].
    + exists ic'. split; [done |]. split; [done |]. split; [done |].
      intros depth. rewrite Hkids, kidsView_upsert, Hleaf.
      by rewrite (kidsView_frame c (id ic) s _ Hwf Hext1 depth c ic Hc).
Qed.

(** One class match: a class item under the file item, with a leaf for
    each method found. *)
Lemma addClass_spec filePath f s classMatch itf :
  wfStore s → heap s !! f = Some itf →
  wfStore (addClass filePath f s classMatch) ∧
  extends f (id itf) s (addClass filePath f s classMatch) ∧
  ∃ itf', heap (addClass filePath f s classMatch) !! f = Some itf' ∧
          id itf' = id itf ∧ parent itf' = parent itf ∧
          ∀ depth,
            kidsView depth (heap (addClass filePath f s classMatch)) (children itf')
            = insertAll (kidsView depth (heap s) (children itf))
                        (option_list (classEntry depth (id itf) classMatch)).
Proof.
  intros Hwf Hf. rewrite addClass_unfold. unfold classEntry.
  rewrite (itemId_lookup _ _ _ Hf).
  destruct (Js.includes (capture classMatch) "Test").
  2: { split; [done |]. split; [apply extends_refl |]. by exists itf. }
  set (className := capture classMatch).
  set (cid := id itf +:+ "." +:+ className).
  set (names := methodNames (fromIndex classMatch)).
  set (c := length (heap s)).
  set (s1 := (createTestItem cid className (Some filePath) s).2).
  set (s2 := childrenAdd f c s1).
  assert (f < c) as Hlt by (by eapply lookup_lt_Some).
  assert (f ≠ c) as Hne by lia.
  assert (heap s1 !! f = Some itf) as Hf1 by (subst s1; simpl; by rewrite lookup_app_l).
  assert (heap s1 !! c = Some (mkTestItem cid className (Some filePath) [] None))
    as Hc1 by apply createTestItem_lookup_new.
  assert (wfStore s2) as Hwf2.
  { eapply (wf_childrenAdd f c s1 itf _ className);
      [by apply wf_createTestItem | done | done | exact Hc1 | done]. }
  assert (heap s2 !! c = Some (setParent (Some f) (mkTestItem cid className (Some filePath) [] None)))
    as Hc2.
  { subst s2. by rewrite (childrenAdd_heap_child _ _ _ _ Hne Hc1). }
  assert (heap s2 !! f = Some (setChildren (collAdd (children itf) cid c) itf)) as Hf2.
  { subst s2. rewrite (childrenAdd_heap_parent _ _ _ _ Hne Hf1).
    by rewrite (itemId_lookup _ _ _ Hc1). }
  assert (extends f (id itf) s s2) as Hext2.
  { repeat split.
    - subst s2. rewrite childrenAdd_length. subst s1. simpl. rewrite length_app. lia.
    - intros r Hr Hrlt. subst s2.
      rewrite childrenAdd_heap_other by (done || (subst c; lia)).
      subst s1. simpl. by rewrite lookup_app_l.
    - intros it0 Hf0. rewrite Hf in Hf0. injection Hf0 as <-.
      eexists. split; [exact Hf2 | done].
    - intros k Hk. subst s2 s1. simpl. rewrite lookup_insert_ne; [done |].
      intros <-. apply Hk. apply properPrefix_append. }
  destruct (addMethods_spec filePath c names s2 _ Hwf2 Hc2)
    as (Hwf3 & Hext3 & ic' & Hc3 & Hid3 & Hp3 & Hkids).
  cbn [setParent id parent children] in Hext3, Hid3, Hp3, Hkids.
  set (s3 := foldl (addMethod filePath c) s2 names) in *.
  assert (extends f (id itf) s s3) as Hext.
  { eapply extends_chain; [exact Hext2 | exact Hext3 | right; subst c; lia |].
    right. apply properPrefix_append. }
  assert (heap s3 !! f = Some (setChildren (collAdd (children itf) cid c) itf)) as Hf3.
  { destruct Hext3 as (_ & F3 & _). rewrite F3; [done | done |]. by eapply lookup_lt_Some. }
  split; [done |]. split; [done |].
  exists (setChildren (collAdd (children itf) cid c) itf).
  split; [done |]. split; [done |]. split; [done |].
  intros depth. cbn [setChildren children]. rewrite kidsView_upsert.
  rewrite (kidsView_frame f (id itf) s s3 Hwf Hext depth f itf Hf) by done.
  transitivity (upsert (kidsView depth (heap s) (children itf)) cid
                       (classTree depth (id itf) className names)); [| reflexivity].
  f_equal. rewrite (treeView_lookup _ _ _ _ Hc3). rewrite Hid3, Hp3. simpl.
  rewrite (itemId_lookup _ _ _ Hf3). simpl. unfold classTree. fold cid. f_equal.
  destruct depth as [|d]; [done |]. by rewrite Hkids.
Qed.

Lemma addClasses_spec filePath f classMatches : ∀ s itf,
  wfStore s → heap s !! f = Some itf →
  wfStore (foldl (addClass filePath f) s classMatches) ∧
  extends f (id itf) s (foldl (addClass filePath f) s classMatches) ∧
  ∃ itf', heap (foldl (addClass filePath f) s classMatches) !! f = Some itf' ∧
          id itf' = id itf ∧ parent itf' = parent itf ∧
          ∀ depth,
            kidsView depth (heap (foldl (addClass filePath f) s classMatches))
                     (children itf')
            = insertAll (kidsView depth (heap s) (children itf))
                        (omap (classEntry depth (id itf)) classMatches).
Proof.
  induction classMatches as [|m ms IH]; intros s itf Hwf Hf.
  - split; [done |]. split; [apply extends_refl |]. by exists itf.
  - destruct (addClass_spec filePath f s m itf Hwf Hf)
      as (Hwf1 & Hext1 & itf1 & Hf1 & Hid1 & Hp1 & Hv1).
    destruct (IH _ _ Hwf1 Hf1) as (Hwf2 & Hext2 & itf2 & Hf2 & Hid2 & Hp2 & Hv2).
    cbn [foldl]. rewrite Hid1 in *.
    split; [done |]. split.
    + eapply extends_chain; [exact Hext1 | exact Hext2 | by left | by left].
    + exists itf2. split; [done |]. split; [done |]. split; [congruence |].
      intros depth. rewrite Hv2, Hv1. unfold insertAll. csimpl.
      by destruct (classEntry depth (id itf) m).
Qed.

Lemma getOrCreateFileTestItem_old filePath s r :
  testItems s !! fileIdOf filePath = Some r →
  getOrCreateFileTestItem filePath s = (r, s).
Proof. intros H. unfold getOrCreateFileTestItem. by rewrite H. Qed.

Lemma getOrCreateFileTestItem_new filePath s :
  testItems s !! fileIdOf filePath = None →
  getOrCreateFileTestItem filePath s
  = (length (heap s),
     mkStore (heap s ++ [mkTestItem (fileIdOf filePath) (basename filePath)
                                    (Some filePath) [] None])
             (items s)
             (<[fileIdOf filePath := length (heap s)]> (testItems s))
             (<[filePath := [length (heap s)]]> (fileToTestItemsMap s))).
Proof. intros H. unfold getOrCreateFileTestItem. by rewrite H. Qed.

(** The item [getOrCreateFileTestItem] returns is an object of the heap
    whose id is the file id. *)
Lemma wf_getOrCreateFileTestItem filePath s :
  wfStore s →
  wfStore (getOrCreateFileTestItem filePath s).2 ∧
  ∃ itf, heap (getOrCreateFileTestItem filePath s).2
           !! (getOrCreateFileTestItem filePath s).1 = Some itf ∧
         id itf = fileIdOf filePath.
Proof.
  intros Hwf. destruct (testItems s !! fileIdOf filePath) as [r|] eqn:E.
  - rewrite (getOrCreateFileTestItem_old _ _ _ E). split; [done |].
    by apply (wf_registry s Hwf).
  - rewrite (getOrCreateFileTestItem_new _ _ E). cbn [fst snd].
    pose proof (wf_createTestItem (fileIdOf filePath) (basename filePath)
                  (Some filePath) s Hwf) as [Hi Hr Hc Hn Hf Hpar Hpid].
    split.
    + split; try done. cbn [heap fileToTestItemsMap].
      intros q fs f Hq Hin. destruct (decide (filePath = q)) as [<-|Hne].
      * rewrite lookup_insert_eq in Hq. injection Hq as <-.
        apply list_elem_of_singleton in Hin as ->. eexists.
        split; [apply createTestItem_lookup_new | done].
      * rewrite lookup_insert_ne in Hq by done. by eapply Hf.
    + eexists. split; [apply createTestItem_lookup_new | done].
Qed.

Lemma resolveTestsInFile_unfold readFile filePath s :
  resolveTestsInFile readFile (Some filePath) s
  = if negb (Js.endsWith filePath ".kt") && negb (Js.endsWith filePath ".kts") then s
    else match readFile filePath with
         | None => removeTestsForFile filePath s
         | Some content =>
             foldl (addClass filePath
                      (getOrCreateFileTestItem filePath (removeTestsForFile filePath s)).1)
                   (getOrCreateFileTestItem filePath (removeTestsForFile filePath s)).2
                   (execAll classRegex content)
         end.
Proof.
  unfold resolveTestsInFile.
  destruct (negb _ && negb _); [done |].
  destruct (readFile filePath); [|done].
  by destruct (getOrCreateFileTestItem filePath (removeTestsForFile filePath s)).
Qed.

Lemma wf_resolveTestsInFile readFile uri0 s :
  wfStore s → wfStore (resolveTestsInFile readFile uri0 s).
Proof.
  intros Hwf. destruct uri0 as [filePath|]; [|done].
  rewrite resolveTestsInFile_unfold.
  destruct (negb _ && negb _); [done |].
  pose proof (wf_removeTestsForFile filePath s Hwf) as Hwf1.
  destruct (readFile filePath) as [content|]; [|done].
  destruct (wf_getOrCreateFileTestItem filePath _ Hwf1) as (Hwf2 & itf & Hf & _).
  by destruct (addClasses_spec filePath _ (execAll classRegex content) _ _ Hwf2 Hf).
Qed.

Lemma foldl_preserves {A B} (P : A → Prop) (f : A → B → A) (l : list B) :
  (∀ a b, P a → P (f a b)) → ∀ a, P a → P (foldl f a l).
Proof. intros Hf. induction l as [|b l IH]; intros a Ha; simpl; auto. Qed.

Lemma wf_discoverAllTests folders readFile s :
  wfStore s → wfStore (discoverAllTests folders readFile s).
Proof.
  intros [Hi Hr Hc Hn Hf Hpar Hpid]. unfold discoverAllTests.
  assert (wfStore (mkStore (heap s)
            (foldl (λ acc item, collDelete acc item.1) (items s) (items s)) ∅ ∅)) as Hwf.
  { split; simpl; try done; try (intros *; by rewrite lookup_empty).
    by rewrite Hi. }
  destruct folders as [folders|]; [|done].
  apply foldl_preserves; [|done]. intros acc folder Hacc.
  apply foldl_preserves; [|done]. intros acc' file Hacc'.
  by apply wf_resolveTestsInFile.
Qed.

Lemma wf_step op s : wfStore s → wfStore (step op s).
Proof.
  destruct op; simpl.
  - apply wf_discoverAllTests.
  - apply wf_resolveTestsInFile.
  - apply wf_removeTestsForFile.
Qed.

Lemma reachable_wf s : reachable s → wfStore s.
Proof. induction 1; [apply wf_initial | by apply wf_step]. Qed.

(** C2: in every reachable state [testController.items] is empty.  An
    item made by [getOrCreateFileTestItem] is entered in [testItems]
    under the file id, and in [fileToTestItemsMap] when it is new, and the
    root collection stays empty; a run request without [include] starts
    from an empty queue and ends at once, with no item dispatched. *)
Theorem root_items_stay_empty (s : Store) :
  reachable s →
  items s = [] ∧
  (∀ filePath,
     items (getOrCreateFileTestItem filePath s).2 = [] ∧
     testItems (getOrCreateFileTestItem filePath s).2 !! fileIdOf filePath
     = Some (getOrCreateFileTestItem filePath s).1 ∧
     (testItems s !! fileIdOf filePath = None →
      fileToTestItemsMap (getOrCreateFileTestItem filePath s).2 !! filePath
      = Some [(getOrCreateFileTestItem filePath s).1])) ∧
  (∀ fuel env excluded,
     runHandler fuel env s (mkRequest None excluded) = ([RunEnd], true)).
Proof.
  intros Hs%reachable_wf. pose proof (wf_items s Hs) as Hi.
  split; [done |]. split.
  - intros filePath.
    destruct (testItems s !! fileIdOf filePath) as [r|] eqn:E.
    + rewrite (getOrCreateFileTestItem_old _ _ _ E). by repeat split.
    + rewrite (getOrCreateFileTestItem_new _ _ E). cbn [fst snd items testItems
        fileToTestItemsMap]. by rewrite !lookup_insert_eq.
  - intros fuel env excluded. unfold runHandler. cbn [include]. rewrite Hi.
    by destruct fuel.
Qed.

Lemma root_items_stay_empty_witness :
  items fooTestStore = [] ∧
  runHandler 4 gradleEnv fooTestStore (mkRequest None None) = ([RunEnd], true).
Proof.
  destruct (root_items_stay_empty fooTestStore) as (H1 & _ & H3).
  - exact (reachable_step (ResolveTestsInFile fooTestFs (Some fooTestPath))
             initialStore reachable_initial).
  - split; [exact H1 | apply H3].
Defined.

(** The id of a child is the id of its parent, a dot and a name. *)
Lemma child_id_extends_parent_id s r it k c :
  wfStore s → heap s !! r = Some it → (k, c) ∈ children it →
  ∃ itc, heap s !! c = Some itc ∧ id itc = k ∧
         (∃ name, id itc = id it +:+ "." +:+ name) ∧
         properPrefix (id it) (id itc).
Proof.
  intros Hwf Hit Hin.
  destruct (wf_children s Hwf _ _ _ _ Hit Hin) as (_ & itc & Hitc & Hid & name & Hname).
  exists itc. split; [done |]. split; [done |]. rewrite Hid, Hname.
  split; [by exists name | apply properPrefix_append].
Qed.

(** C10: in every reachable state, an item the file index lists for a
    path has the id [kotlin-test:<path>]; each of its children (the
    class items) has an id that is this id, a dot and a name, so the
    file id is a proper prefix of it; and each child of such a child (the
    method items) has an id that is the class id, a dot and a name, so
    the class id is a proper prefix of it. *)
Theorem ids_extend_parent_ids (s : Store) (filePath : string)
    (fileItems : list nat) (f : nat) :
  reachable s →
  fileToTestItemsMap s !! filePath = Some fileItems → f ∈ fileItems →
  ∃ itf, heap s !! f = Some itf ∧ id itf = fileIdOf filePath ∧
    ∀ kc c, (kc, c) ∈ children itf →
      ∃ itc, heap s !! c = Some itc ∧
        (∃ className, id itc = id itf +:+ "." +:+ className) ∧
        properPrefix (id itf) (id itc) ∧
        ∀ km m, (km, m) ∈ children itc →
          ∃ itm, heap s !! m = Some itm ∧
            (∃ methodName, id itm = id itc +:+ "." +:+ methodName) ∧
            properPrefix (id itc) (id itm) ∧
            properPrefix (id itf) (id itm).
Proof.
  intros Hwf%reachable_wf Hp Hin.
  destruct (wf_files s Hwf _ _ _ Hp Hin) as (itf & Hf & Hid).
  exists itf. split; [done |]. split; [done |].
  intros kc c Hc.
  destruct (child_id_extends_parent_id s f itf kc c Hwf Hf Hc)
    as (itc & Hitc & _ & Hcn & Hpc).
  exists itc. split; [done |]. split; [done |]. split; [done |].
  intros km m Hm.
  destruct (child_id_extends_parent_id s c itc km m Hwf Hitc Hm)
    as (itm & Hitm & _ & Hmn & Hpm).
  exists itm. split; [done |]. split; [done |]. split; [done |].
  by eapply properPrefix_trans.
Qed.

Lemma ids_extend_parent_ids_witness :
  ∃ itf, heap fooTestStore !! 0 = Some itf ∧ id itf = fileIdOf fooTestPath ∧
    ∀ kc c, (kc, c) ∈ children itf →
      ∃ itc, heap fooTestStore !! c = Some itc ∧
        (∃ className, id itc = id itf +:+ "." +:+ className) ∧
        properPrefix (id itf) (id itc) ∧
        ∀ km m, (km, m) ∈ children itc →
          ∃ itm, heap fooTestStore !! m = Some itm ∧
            (∃ methodName, id itm = id itc +:+ "." +:+ methodName) ∧
            properPrefix (id itc) (id itm) ∧
            properPrefix (id itf) (id itm).
Proof.
  apply (ids_extend_parent_ids fooTestStore fooTestPath [0] 0).
  - exact (reachable_step (ResolveTestsInFile fooTestFs (Some fooTestPath))
             initialStore reachable_initial).
  - vm_compute. reflexivity.
  - apply list_elem_of_singleton. reflexivity.
Defined.

(** ** Rescanning a file *)

Lemma not_properPrefix_self k : ¬ properPrefix k k.
Proof. by intros [_ H]. Qed.

Lemma treeView_unfold depth h r :
  treeView depth h r
  = IdNode (itemId h r) (itemParentId h r)
      match depth with
      | O => []
      | S d => kidsView d h (itemChildren h r)
      end.
Proof. by destruct depth. Qed.

Lemma removeTestsForFile_single filePath s f :
  fileToTestItemsMap s !! filePath = Some [f] →
  testItems (removeTestsForFile filePath s) = delete (itemId (heap s) f) (testItems s).
Proof. intros H. unfold removeTestsForFile. by rewrite H. Qed.

(** The scan of a readable file when the registry has no item under the
    file id: a new file item is made and entered in both indexes; it has
    no parent, and its subtree is what the scan finds and nothing else. *)
Lemma rebuild_new filePath content s0 :
  wfStore s0 → testItems s0 !! fileIdOf filePath = None →
  ∃ f,
    fileToTestItemsMap
      (foldl (addClass filePath (getOrCreateFileTestItem filePath s0).1)
             (getOrCreateFileTestItem filePath s0).2
             (execAll classRegex content)) !! filePath = Some [f] ∧
    testItems
      (foldl (addClass filePath (getOrCreateFileTestItem filePath s0).1)
             (getOrCreateFileTestItem filePath s0).2
             (execAll classRegex content)) !! fileIdOf filePath = Some f ∧
    ∀ depth,
      treeView depth
        (heap (foldl (addClass filePath (getOrCreateFileTestItem filePath s0).1)
                     (getOrCreateFileTestItem filePath s0).2
                     (execAll classRegex content))) f
      = scannedTree depth (fileIdOf filePath) None content (λ _, []).
Proof.
  intros Hwf Hnone.
  destruct (wf_getOrCreateFileTestItem filePath s0 Hwf) as (Hwf0 & _).
  revert Hwf0. rewrite (getOrCreateFileTestItem_new _ _ Hnone). cbn [fst snd].
  set (f := length (heap s0)).
  set (itf := mkTestItem (fileIdOf filePath) (basename filePath) (Some filePath) [] None).
  set (s0' := mkStore _ _ _ _). intros Hwf0.
  assert (heap s0' !! f = Some itf) as Hf by apply createTestItem_lookup_new.
  destruct (addClasses_spec filePath f (execAll classRegex content) s0' itf Hwf0 Hf)
    as (Hwf1 & (_ & _ & _ & _ & Hmap & Hreg) & itf' & Hf' & Hid' & Hp' & Hview).
  exists f. split; [| split].
  - rewrite Hmap. subst s0'. simpl. apply lookup_insert_eq.
  - rewrite Hreg by apply not_properPrefix_self. subst s0'. simpl.
    apply lookup_insert_eq.
  - intros depth. rewrite (treeView_lookup _ _ _ _ Hf'), Hid', Hp'.
    unfold scannedTree. simpl. f_equal. destruct depth as [|d]; [done |].
    by rewrite Hview.
Qed.

(** The scan when the registry holds an item [r] under the file id: the
    item is reused, with the parent it has; the file index is left as it
    is; and the classes found are set among the children the item
    already has. *)
Lemma rebuild_old filePath content s0 r :
  wfStore s0 → testItems s0 !! fileIdOf filePath = Some r →
  fileToTestItemsMap
    (foldl (addClass filePath (getOrCreateFileTestItem filePath s0).1)
           (getOrCreateFileTestItem filePath s0).2
           (execAll classRegex content)) = fileToTestItemsMap s0 ∧
  testItems
    (foldl (addClass filePath (getOrCreateFileTestItem filePath s0).1)
           (getOrCreateFileTestItem filePath s0).2
           (execAll classRegex content)) !! fileIdOf filePath = Some r ∧
  ∃ it, heap s0 !! r = Some it ∧
    ∀ depth,
      treeView depth
        (heap (foldl (addClass filePath (getOrCreateFileTestItem filePath s0).1)
                     (getOrCreateFileTestItem filePath s0).2
                     (execAll classRegex content))) r
      = scannedTree depth (fileIdOf filePath) (itemParentId (heap s0) r) content
          (λ d, kidsView d (heap s0) (children it)).
Proof.
  intros Hwf Hsome. rewrite (getOrCreateFileTestItem_old _ _ _ Hsome). cbn [fst snd].
  destruct (wf_registry s0 Hwf _ _ Hsome) as (it & Hit & Hid).
  destruct (addClasses_spec filePath r (execAll classRegex content) s0 it Hwf Hit)
    as (Hwf1 & Hext & it' & Hit' & Hid' & Hp' & Hview).
  pose proof Hext as (_ & _ & _ & _ & Hmap & Hreg).
  rewrite Hid in *.
  split; [done |]. split.
  - rewrite Hreg by apply not_properPrefix_self. done.
  - exists it. split; [done |]. intros depth.
    rewrite treeView_unfold.
    rewrite (extends_itemParentId r _ s0 _ Hwf Hext) by (by eapply lookup_lt_Some).
    rewrite (itemId_lookup _ _ _ Hit'), (itemChildren_lookup _ _ _ Hit'), Hid'.
    unfold scannedTree. f_equal. destruct depth as [|d]; [done |].
    by rewrite Hview.
Qed.

(** C8: from any reachable state, two rescans of the same path in
    succession, the file system unchanged, leave the same subtree for
    the path after the second as after the first: the same ids, the same
    parent ids and the same children in the same order at every depth,
    whether the subtree is reached through the file index or through the
    registry of ids.  Each rescan begins with [removeTestsForFile]. *)
Theorem rescan_twice_same_subtree (readFile : string → option string)
    (filePath : string) (s : Store) (depth : nat) :
  reachable s →
  fileIndexView depth (resolveTestsInFile readFile (Some filePath)
                         (resolveTestsInFile readFile (Some filePath) s)) filePath
  = fileIndexView depth (resolveTestsInFile readFile (Some filePath) s) filePath ∧
  registryView depth (resolveTestsInFile readFile (Some filePath)
                        (resolveTestsInFile readFile (Some filePath) s)) filePath
  = registryView depth (resolveTestsInFile readFile (Some filePath) s) filePath.
Proof.
  intros Hwf%reachable_wf.
  pose proof (wf_resolveTestsInFile readFile (Some filePath) s Hwf) as Hwf1.
  revert Hwf1. rewrite !(resolveTestsInFile_unfold readFile filePath).
  destruct (negb _ && negb _); [done |].
  pose proof (wf_removeTestsForFile filePath s Hwf) as Hwf0.
  assert (fileToTestItemsMap (removeTestsForFile filePath s) !! filePath = None) as Hgone.
  { rewrite removeTestsForFile_index. apply lookup_delete_eq. }
  destruct (readFile filePath) as [content|].
  2: { intros _. by rewrite (removeTestsForFile_absent _ _ Hgone). }
  set (s0 := removeTestsForFile filePath s) in *.
  set (s1 := foldl _ _ _). intros Hwf1.
  destruct (testItems s0 !! fileIdOf filePath) as [r|] eqn:Hreg0.
  - (* the registry holds an item under the file id: it is reused *)
    destruct (rebuild_old filePath content s0 r Hwf0 Hreg0)
      as (Hmap1 & Hreg1 & it & Hit & Hview1).
    fold s1 in Hmap1, Hreg1, Hview1.
    assert (removeTestsForFile filePath s1 = s1) as ->.
    { apply removeTestsForFile_absent. by rewrite Hmap1. }
    destruct (rebuild_old filePath content s1 r Hwf1 Hreg1)
      as (Hmap2 & Hreg2 & it1 & Hit1 & Hview2).
    split.
    + unfold fileIndexView. by rewrite Hmap2, Hmap1, Hgone.
    + unfold registryView. rewrite Hreg2, Hreg1. simpl. f_equal.
      rewrite Hview2, Hview1. unfold scannedTree.
      pose proof (Hview1 0) as Hroot. rewrite treeView_unfold in Hroot.
      unfold scannedTree in Hroot. injection Hroot as _ ->. f_equal.
      destruct depth as [|d]; [done |].
      specialize (Hview1 (S d)). rewrite treeView_unfold in Hview1.
      rewrite (itemChildren_lookup _ _ _ Hit1) in Hview1.
      unfold scannedTree in Hview1. injection Hview1 as _ _ ->. unfold scannedKids.
      rewrite insertAll_idempotent; [done |].
      rewrite kidsView_keys. by eapply (wf_nodup s0 Hwf0).
  - (* no item under the file id: a new file item each time *)
    destruct (rebuild_new filePath content s0 Hwf0 Hreg0)
      as (f & Hmap1 & Hreg1 & Hview1).
    fold s1 in Hmap1, Hreg1, Hview1.
    assert (itemId (heap s1) f = fileIdOf filePath) as Hid1.
    { specialize (Hview1 0). rewrite treeView_unfold in Hview1.
      unfold scannedTree in Hview1. by injection Hview1. }
    assert (testItems (removeTestsForFile filePath s1) !! fileIdOf filePath = None)
      as Hreg0'.
    { rewrite (removeTestsForFile_single _ _ _ Hmap1), Hid1. apply lookup_delete_eq. }
    destruct (rebuild_new filePath content _ (wf_removeTestsForFile filePath s1 Hwf1) Hreg0')
      as (f2 & Hmap2 & Hreg2 & Hview2).
    split.
    + unfold fileIndexView. rewrite Hmap2, Hmap1. simpl. by rewrite Hview2, Hview1.
    + unfold registryView. rewrite Hreg2, Hreg1. simpl. by rewrite Hview2, Hview1.
Qed.

Lemma rescan_twice_same_subtree_witness :
  registryView 3 (resolveTestsInFile fooTestFs (Some fooTestPath)
                    (resolveTestsInFile fooTestFs (Some fooTestPath) fooTestStore))
               fooTestPath
  = registryView 3 (resolveTestsInFile fooTestFs (Some fooTestPath) fooTestStore)
                 fooTestPath.
Proof.
  apply (rescan_twice_same_subtree fooTestFs fooTestPath fooTestStore 3).
  exact (reachable_step (ResolveTestsInFile fooTestFs (Some fooTestPath))
           initialStore reachable_initial).
Defined.

(** ** The queue loop ends *)

Lemma sum_list_with_le {A} (f g : A → nat) (l : list A) :
  (∀ x, x ∈ l → f x ≤ g x) → sum_list_with f l ≤ sum_list_with g l.
Proof.
  induction l as [|x l IH]; intros H; simpl; [done |].
  pose proof (H x ltac:(apply elem_of_cons; by left)).
  assert (sum_list_with f l ≤ sum_list_with g l).
  { apply IH. intros y Hy. apply H. apply elem_of_cons. by right. }
  lia.
Qed.

Lemma sum_list_with_fmap {A B} (f : B → nat) (g : A → B) (l : list A) :
  sum_list_with f (g <$> l) = sum_list_with (λ x, f (g x)) l.
Proof. induction l as [|x l IH]; csimpl; [done | by rewrite IH]. Qed.

Lemma subtreeSize_mono h : ∀ n m r, n ≤ m → subtreeSize n h r ≤ subtreeSize m h r.
Proof.
  induction n as [|n IH]; intros m r Hnm; [destruct m; simpl; lia |].
  destruct m as [|m]; [lia |]. simpl.
  assert (sum_list_with (λ e, subtreeSize n h e.2) (itemChildren h r)
          ≤ sum_list_with (λ e, subtreeSize m h e.2) (itemChildren h r)); [| lia].
  apply sum_list_with_le. intros e _. apply IH. lia.
Qed.

Lemma subtreeSize_pos n h r : 1 ≤ subtreeSize n h r.
Proof. destruct n; simpl; lia. Qed.

Lemma queueBound_cons h test queue :
  queueBound h (test :: queue)
  = subtreeSize (length h - test) h test + queueBound h queue.
Proof. reflexivity. Qed.

Section Ends.
Variable s : Store.
Hypothesis Hwf : wfStore s.

(** Expanding an item costs one iteration less than the item was
    counted for. *)
Lemma queueBound_children t :
  itemChildren (heap s) t ≠ [] →
  queueBound (heap s) (itemChildren (heap s) t).*2
  < subtreeSize (length (heap s) - t) (heap s) t.
Proof.
  intros Hne. unfold itemChildren in *.
  destruct (heap s !! t) as [it|] eqn:Hit; [|done]. simpl in *.
  pose proof (lookup_lt_Some _ _ _ Hit) as Hlt.
  destruct (length (heap s) - t) as [|n] eqn:Hn; [lia |]. simpl.
  unfold itemChildren. rewrite Hit. simpl.
  unfold queueBound. rewrite sum_list_with_fmap.
  assert (sum_list_with (λ x, subtreeSize (length (heap s) - x.2) (heap s) x.2)
            (children it)
          ≤ sum_list_with (λ e, subtreeSize n (heap s) e.2) (children it)); [| lia].
  apply sum_list_with_le. intros [k c] Hin. simpl.
  destruct (wf_children s Hwf _ _ _ _ Hit Hin) as (Htc & _).
  apply subtreeSize_mono. lia.
Qed.

(** Parent links lead to smaller object numbers, so the walk of
    [isAncestorOf] returns. *)
Lemma isAncestorOfFrom_total ancestor : ∀ fuel curr,
  curr < fuel → is_Some (isAncestorOfFrom fuel (heap s) ancestor curr).
Proof.
  induction fuel as [|fuel IH]; intros curr Hlt; [lia |]. simpl.
  unfold itemParent. destruct (heap s !! curr) as [it|] eqn:Hit; simpl; [|done].
  destruct (parent it) as [p|] eqn:Hp; [|done].
  destruct (String.eqb _ _); [done |].
  apply IH. pose proof (wf_parent s Hwf _ _ _ Hit Hp). lia.
Qed.

Lemma isAncestorOf_total ancestor descendant :
  is_Some (isAncestorOf (heap s) ancestor descendant).
Proof.
  unfold isAncestorOf.
  destruct (decide (descendant < length (heap s))) as [Hlt|Hge].
  - apply isAncestorOfFrom_total. lia.
  - simpl. unfold itemParent. rewrite lookup_ge_None_2 by lia. done.
Qed.

(** The ids on the way up are shorter than the id of the item the walk
    started from, so none of them is that id: no item is its own
    ancestor. *)
Lemma isAncestorOfFrom_self t : ∀ fuel curr itc,
  heap s !! curr = Some itc →
  String.length (id itc) ≤ String.length (itemId (heap s) t) →
  curr < fuel →
  isAncestorOfFrom fuel (heap s) t curr = Some false.
Proof.
  induction fuel as [|fuel IH]; intros curr itc Hc Hlen Hlt; [lia |]. simpl.
  unfold itemParent. rewrite Hc. simpl.
  destruct (parent itc) as [p|] eqn:Hp; [|done].
  destruct (wf_parent_id s Hwf _ _ _ Hc Hp) as (itp & Hitp & Hshort).
  pose proof (wf_parent s Hwf _ _ _ Hc Hp) as Hpc.
  rewrite (itemId_lookup _ _ _ Hitp).
  destruct (String.eqb_spec (id itp) (itemId (heap s) t)) as [E|_].
  - rewrite E in Hshort. lia.
  - apply (IH p itp); [done | lia | lia].
Qed.

Lemma isAncestorOf_self t : isAncestorOf (heap s) t t = Some false.
Proof.
  unfold isAncestorOf. destruct (heap s !! t) as [it|] eqn:Hit.
  - apply (isAncestorOfFrom_self t _ t it Hit).
    + by rewrite (itemId_lookup _ _ _ Hit).
    + apply lookup_lt_Some in Hit. lia.
  - simpl. unfold itemParent. by rewrite Hit.
Qed.

Lemma isExcluded_total req test : is_Some (isExcluded (heap s) req test).
Proof.
  unfold isExcluded. destruct (exclude req) as [excluded|]; [|done].
  induction excluded as [|e excluded IH]; simpl; [done |].
  destruct (isAncestorOf_total e test) as [[|] ->]; done.
Qed.

(** With as much fuel as the queue is counted for, the loop ends. *)
Lemma runLoop_ends env req : ∀ fuel queue iteration,
  queueBound (heap s) queue ≤ fuel →
  (runLoop fuel env (heap s) req queue iteration).2 = true.
Proof.
  induction fuel as [|fuel IH]; intros queue iteration Hb.
  - destruct queue as [|test queue]; [done |].
    rewrite queueBound_cons in Hb.
    pose proof (subtreeSize_pos (length (heap s) - test) (heap s) test). lia.
  - destruct queue as [|test queue]; [done |]. simpl.
    destruct (isCancellationRequested env iteration); [done |].
    rewrite queueBound_cons in Hb.
    pose proof (subtreeSize_pos (length (heap s) - test) (heap s) test) as Hpos.
    destruct (isExcluded_total req test) as [[|] ->].
    + apply IH. lia.
    + destruct (0 <? length (itemChildren (heap s) test)) eqn:Hkids.
      * apply IH. unfold queueBound. rewrite sum_list_with_app.
        fold (queueBound (heap s) queue).
        fold (queueBound (heap s) (itemChildren (heap s) test).*2).
        assert (itemChildren (heap s) test ≠ []) as Hne.
        { intros E. rewrite E in Hkids. done. }
        pose proof (queueBound_children test Hne). lia.
      * specialize (IH queue (S iteration)).
        destruct (runLoop fuel env (heap s) req queue (S iteration)) as [evs ended].
        simpl in *. apply IH. lia.
Qed.

Lemma runHandler_ends env req :
  ∃ fuel0, ∀ fuel, fuel0 ≤ fuel → (runHandler fuel env s req).2 = true.
Proof.
  exists (queueBound (heap s)
            (match include req with Some tests => tests | None => (items s).*2 end)).
  intros fuel Hfuel. unfold runHandler.
  pose proof (runLoop_ends env req fuel _ 0 Hfuel) as Hends.
  destruct (runLoop fuel env (heap s) req _ 0) as [evs ended]. done.
Qed.
End Ends.

(** ** Runs *)

(** C1, on the tree of [FooTest.kt]: the id of the leaf [testA] holds no
    "#", so the split returns it whole: [testClass] is the id, file path
    included, [testMethod] is [undefined], and the command line sent to
    the terminal names neither the class nor the method as declared. *)
Theorem selector_of_leaf_is_its_whole_id :
  itemId (heap fooTestStore) 2 = "kotlin-test:/ws/FooTest.kt.FooTest.testA" ∧
  selectorOf (itemId (heap fooTestStore) 2)
  = ("kotlin-test:/ws/FooTest.kt.FooTest.testA", None) ∧
  selectorOf (itemId (heap fooTestStore) 2) ≠ ("FooTest", Some "testA") ∧
  runHandler 4 gradleEnv fooTestStore (mkRequest (Some [2]) None)
  = ([Started 2; CreateTerminal "Kotlin Test"; TerminalShow;
      SendText "./gradlew test --tests kotlin-test:/ws/FooTest.kt.FooTest.testA";
      Passed 2; RunEnd], true).
Proof. vm_compute. repeat split; congruence. Qed.

(** Any id without "#" is returned whole. *)
Lemma selectorOf_without_separator (testId : string) :
  Js.indexOf testId "#" = None → selectorOf testId = (testId, None).
Proof.
  intros H. unfold selectorOf. by rewrite (split_without_separator _ _ H).
Qed.

(** C3, on the tree [File > Class > {Method A, Method B}]: a run that
    includes the class and excludes method A dispatches both methods.
    [isAncestorOf] starts the comparison at the parent of the candidate,
    so the excluded item itself is not dropped. *)
Theorem excluded_leaf_is_still_dispatched :
  runHandler 4 gradleEnv fooTestStore (mkRequest (Some [1]) (Some [2]))
  = ([Started 2; CreateTerminal "Kotlin Test"; TerminalShow;
      SendText "./gradlew test --tests kotlin-test:/ws/FooTest.kt.FooTest.testA";
      Passed 2;
      Started 3; CreateTerminal "Kotlin Test"; TerminalShow;
      SendText "./gradlew test --tests kotlin-test:/ws/FooTest.kt.FooTest.testB";
      Passed 3; RunEnd], true) ∧
  isAncestorOf (heap fooTestStore) 2 2 = Some false ∧
  startedTests (runHandler 4 gradleEnv fooTestStore
                  (mkRequest (Some [1]) (Some [2]))).1 = [2; 3].
Proof. vm_compute. done. Qed.

(** In every reachable state, an item is not dropped for being excluded
    itself: the exclusion test only looks above the candidate. *)
Lemma excluded_item_is_not_dropped_for_itself s tests t :
  reachable s → isExcluded (heap s) (mkRequest tests (Some [t])) t = Some false.
Proof.
  intros Hwf%reachable_wf. unfold isExcluded. simpl.
  by rewrite (isAncestorOf_self s Hwf t).
Qed.

Lemma startedTests_app evs1 evs2 :
  startedTests (evs1 ++ evs2) = startedTests evs1 ++ startedTests evs2.
Proof. apply omap_app. Qed.

Lemma failures_app evs1 evs2 : failures (evs1 ++ evs2) = failures evs1 ++ failures evs2.
Proof. apply omap_app. Qed.

Lemma invocations_app evs1 evs2 :
  invocations (evs1 ++ evs2) = invocations evs1 ++ invocations evs2.
Proof. apply List.filter_app. Qed.

Section NoWorkspace.
Variable env : RunEnv.
Hypothesis no_folders : workspaceFolders env = None.

Let message : string := failedMessage noWorkspaceError.

Lemma dispatch_no_workspace h test :
  dispatch env h test = startedThenFailed message test.
Proof. unfold dispatch. by rewrite no_folders. Qed.

(** Without a workspace folder the loop emits, for each leaf it
    reaches, [started] then [failed], and nothing else. *)
Lemma runLoop_no_workspace fuel h req : ∀ queue iteration,
  (runLoop fuel env h req queue iteration).1
  = flat_map (startedThenFailed message)
      (startedTests (runLoop fuel env h req queue iteration).1).
Proof.
  induction fuel as [|fuel IH]; intros queue iteration.
  - destruct queue; simpl; [done |].
    by destruct (isCancellationRequested env iteration).
  - destruct queue as [|test queue]; simpl; [done |].
    destruct (isCancellationRequested env iteration); [done |].
    destruct (isExcluded h req test) as [[|]|]; [apply IH | | done].
    destruct (0 <? length (itemChildren h test)); [apply IH |].
    specialize (IH queue (S iteration)).
    destruct (runLoop fuel env h req queue (S iteration)) as [evs ended].
    simpl in *. rewrite no_folders. simpl. by rewrite <- IH.
Qed.
End NoWorkspace.

(** The leaves a run starts do not depend on the workspace folders or on
    the files that exist. *)
Lemma runLoop_started_independent env env' fuel h req :
  (∀ i, isCancellationRequested env' i = isCancellationRequested env i) →
  ∀ queue iteration,
    startedTests (runLoop fuel env' h req queue iteration).1
    = startedTests (runLoop fuel env h req queue iteration).1 ∧
    (runLoop fuel env' h req queue iteration).2
    = (runLoop fuel env h req queue iteration).2.
Proof.
  intros Hc. induction fuel as [|fuel IH]; intros queue iteration.
  - destruct queue; simpl; [done |]. rewrite Hc.
    by destruct (isCancellationRequested env iteration).
  - destruct queue as [|test queue]; simpl; [done |]. rewrite Hc.
    destruct (isCancellationRequested env iteration); [done |].
    destruct (isExcluded h req test) as [[|]|]; [apply IH | | done].
    destruct (0 <? length (itemChildren h test)); [apply IH |].
    destruct (IH queue (S iteration)) as [IH1 IH2].
    destruct (runLoop fuel env h req queue (S iteration)) as [evs ended].
    destruct (runLoop fuel env' h req queue (S iteration)) as [evs' ended'].
    simpl in *. rewrite !startedTests_app, IH1, IH2. split; [|done].
    f_equal. unfold dispatch.
    destruct (workspaceFolders env) as [[|]|], (workspaceFolders env') as [[|]|];
      repeat first [done | destruct (selectorOf _) | destruct (_ || _)].
Qed.

(** The events of a run with no workspace folder, however far the loop
    has come. *)
Lemma no_workspace_events (fuel : nat) (env : RunEnv) (s : Store)
    (req : TestRunRequest) :
  workspaceFolders env = None →
  let evs := (runHandler fuel env s req).1 in
  let ended := (runHandler fuel env s req).2 in
  evs = flat_map (startedThenFailed
                    "Test execution failed: Error: No workspace folder found!")
                 (startedTests evs)
        ++ (if ended then [RunEnd] else []) ∧
  failures evs
  = (λ t, (t, "Test execution failed: Error: No workspace folder found!"))
      <$> startedTests evs ∧
  invocations evs = [] ∧
  ∀ env', (∀ i, isCancellationRequested env' i = isCancellationRequested env i) →
          startedTests (runHandler fuel env' s req).1 = startedTests evs.
Proof.
  intros Hnone. unfold runHandler.
  set (queue := match include req with Some tests => tests | None => (items s).*2 end).
  pose proof (runLoop_no_workspace env Hnone fuel (heap s) req queue 0) as Hloop.
  assert (∀ env', (∀ i, isCancellationRequested env' i = isCancellationRequested env i) →
            startedTests (let '(evs, ended) := runLoop fuel env' (heap s) req queue 0 in
                          (if ended then evs ++ [RunEnd] else evs, ended)).1
            = startedTests (let '(evs, ended) := runLoop fuel env (heap s) req queue 0 in
                            (if ended then evs ++ [RunEnd] else evs, ended)).1) as Hind.
  { intros env' Hc.
    destruct (runLoop_started_independent env env' fuel (heap s) req Hc queue 0)
      as [H1 H2].
    destruct (runLoop fuel env (heap s) req queue 0) as [evs ended].
    destruct (runLoop fuel env' (heap s) req queue 0) as [evs' ended'].
    simpl in *. subst ended'.
    destruct ended; simpl; [|done].
    by rewrite !startedTests_app, H1. }
  destruct (runLoop fuel env (heap s) req queue 0) as [evs ended].
  simpl in *. change (failedMessage noWorkspaceError)
    with "Test execution failed: Error: No workspace folder found!" in Hloop.
  set (msg := "Test execution failed: Error: No workspace folder found!") in *.
  assert (startedTests (if ended then evs ++ [RunEnd] else evs) = startedTests evs) as Hst.
  { destruct ended; [|done]. rewrite startedTests_app. simpl. apply app_nil_r. }
  assert (∀ l, failures (flat_map (startedThenFailed msg) l) = (λ t, (t, msg)) <$> l) as Hf.
  { induction l as [|t l IHl]; simpl; [done |]. by rewrite IHl. }
  assert (∀ l, invocations (flat_map (startedThenFailed msg) l) = []) as Hi.
  { induction l as [|t l IHl]; simpl; done. }
  rewrite Hst. repeat split.
  - destruct ended; [by rewrite <- Hloop |].
    rewrite app_nil_r. exact Hloop.
  - destruct ended.
    + rewrite failures_app. simpl. rewrite app_nil_r.
      rewrite Hloop at 1. apply Hf.
    + rewrite Hloop at 1. apply Hf.
  - destruct ended.
    + rewrite invocations_app. simpl. rewrite app_nil_r.
      rewrite Hloop. apply Hi.
    + rewrite Hloop. apply Hi.
  - intros env' Hc. rewrite (Hind env' Hc). done.
Qed.

(** C4, as the code has it: with no workspace folder open, a run from a
    reachable state ends, and every leaf its queue reaches is marked
    started and then failed with the "No workspace folder found!"
    message, one failure per leaf; no terminal is created and no command
    is sent.  The leaves are those the same request starts in any other
    surroundings. *)
Theorem no_workspace_fails_every_leaf (env : RunEnv) (s : Store)
    (req : TestRunRequest) :
  reachable s →
  workspaceFolders env = None →
  ∃ fuel0, ∀ fuel, fuel0 ≤ fuel →
    ∃ leaves,
      runHandler fuel env s req
      = (flat_map (startedThenFailed
                     "Test execution failed: Error: No workspace folder found!")
                  leaves ++ [RunEnd], true) ∧
      startedTests (runHandler fuel env s req).1 = leaves ∧
      failures (runHandler fuel env s req).1
      = (λ t, (t, "Test execution failed: Error: No workspace folder found!"))
          <$> leaves ∧
      invocations (runHandler fuel env s req).1 = [] ∧
      ∀ env', (∀ i, isCancellationRequested env' i = isCancellationRequested env i) →
              startedTests (runHandler fuel env' s req).1 = leaves.
Proof.
  intros Hwf%reachable_wf Hnone.
  destruct (runHandler_ends s Hwf env req) as [fuel0 Hends].
  exists fuel0. intros fuel Hfuel. specialize (Hends fuel Hfuel).
  destruct (no_workspace_events fuel env s req Hnone) as (Hevs & Hfail & Hinv & Hind).
  exists (startedTests (runHandler fuel env s req).1).
  rewrite Hends in Hevs.
  split; [| split; [reflexivity | split; [exact Hfail | split; [exact Hinv | exact Hind]]]].
  destruct (runHandler fuel env s req) as [evs ended]. cbn [fst snd] in *.
  rewrite Hends. f_equal. exact Hevs.
Qed.

Lemma no_workspace_fails_every_leaf_witness :
  ∃ fuel0, ∀ fuel, fuel0 ≤ fuel →
    ∃ leaves,
      runHandler fuel noWorkspaceEnv fooTestStore (mkRequest (Some [1]) None)
      = (flat_map (startedThenFailed
                     "Test execution failed: Error: No workspace folder found!")
                  leaves ++ [RunEnd], true) ∧
      startedTests (runHandler fuel noWorkspaceEnv fooTestStore
                      (mkRequest (Some [1]) None)).1 = leaves ∧
      failures (runHandler fuel noWorkspaceEnv fooTestStore
                  (mkRequest (Some [1]) None)).1
      = (λ t, (t, "Test execution failed: Error: No workspace folder found!"))
          <$> leaves ∧
      invocations (runHandler fuel noWorkspaceEnv fooTestStore
                     (mkRequest (Some [1]) None)).1 = [] ∧
      ∀ env', (∀ i, isCancellationRequested env' i
                    = isCancellationRequested noWorkspaceEnv i) →
              startedTests (runHandler fuel env' fooTestStore
                              (mkRequest (Some [1]) None)).1 = leaves.
Proof.
  apply (no_workspace_fails_every_leaf noWorkspaceEnv fooTestStore
           (mkRequest (Some [1]) None)).
  - exact (reachable_step (ResolveTestsInFile fooTestFs (Some fooTestPath))
             initialStore reachable_initial).
  - reflexivity.
Defined.

(** The claim of C4 fails on the tree of [FooTest.kt]: with no workspace
    folder, a run of the class marks both methods started and reports two
    failures, not one. *)
Lemma no_workspace_two_leaves_two_failures :
  runHandler 4 noWorkspaceEnv fooTestStore (mkRequest (Some [1]) None)
  = ([Started 2;
      Failed 2 "Test execution failed: Error: No workspace folder found!";
      Started 3;
      Failed 3 "Test execution failed: Error: No workspace folder found!";
      RunEnd], true) ∧
  length (failures (runHandler 4 noWorkspaceEnv fooTestStore
                      (mkRequest (Some [1]) None)).1) = 2 ∧
  startedTests (runHandler 4 noWorkspaceEnv fooTestStore
                  (mkRequest (Some [1]) None)).1 = [2; 3].
Proof. vm_compute. done. Qed.


(** * Further properties *)

(** ** The queue loop of [runHandler] *)

Lemma outcomes_app evs1 evs2 : outcomes (evs1 ++ evs2) = outcomes evs1 ++ outcomes evs2.
Proof. apply omap_app. Qed.

Lemma passedTests_app evs1 evs2 :
  passedTests (evs1 ++ evs2) = passedTests evs1 ++ passedTests evs2.
Proof. apply omap_app. Qed.

Lemma commands_app evs1 evs2 : commands (evs1 ++ evs2) = commands evs1 ++ commands evs2.
Proof. apply omap_app. Qed.

Lemma dispatch_started env h test : startedTests (dispatch env h test) = [test].
Proof.
  unfold dispatch. destruct (workspaceFolders env) as [[|root rest]|]; try done.
  destruct (selectorOf _). by destruct (_ || _).
Qed.

Lemma dispatch_outcomes env h test : outcomes (dispatch env h test) = [test].
Proof.
  unfold dispatch. destruct (workspaceFolders env) as [[|root rest]|]; try done.
  destruct (selectorOf _). by destruct (_ || _).
Qed.

Lemma runHandler_unfold fuel env s req :
  runHandler fuel env s req
  = ((runLoop fuel env (heap s) req (initialQueue s req) 0).1
       ++ (if (runLoop fuel env (heap s) req (initialQueue s req) 0).2
           then [RunEnd] else []),
     (runLoop fuel env (heap s) req (initialQueue s req) 0).2).
Proof.
  unfold runHandler, initialQueue.
  destruct (runLoop fuel env (heap s) req _ 0) as [evs [|]]; simpl; [done |].
  by rewrite app_nil_r.
Qed.

Lemma runLoop_cons fuel env h req test queue iteration :
  runLoop (S fuel) env h req (test :: queue) iteration
  = if isCancellationRequested env iteration then ([], true)
    else match isExcluded h req test with
         | None => ([], false)
         | Some true => runLoop fuel env h req queue (S iteration)
         | Some false =>
             if 0 <? length (itemChildren h test) then
               runLoop fuel env h req (queue ++ (itemChildren h test).*2) (S iteration)
             else
               ((dispatch env h test ++ (runLoop fuel env h req queue (S iteration)).1),
                (runLoop fuel env h req queue (S iteration)).2)
         end.
Proof.
  cbn [runLoop]. destruct (isCancellationRequested env iteration); [done |].
  destruct (isExcluded h req test) as [[|]|]; [done | | done].
  destruct (0 <? length (itemChildren h test)); [done |].
  by destruct (runLoop fuel env h req queue (S iteration)).
Qed.

(** What holds of the empty trace and is kept by the events of one more
    leaf holds of the events of the loop. *)
Lemma runLoop_events_ind (P : list RunEvent → Prop) env h req :
  P [] →
  (∀ test evs, itemChildren h test = [] → isExcluded h req test = Some false →
     P evs → P (dispatch env h test ++ evs)) →
  ∀ fuel queue iteration, P (runLoop fuel env h req queue iteration).1.
Proof.
  intros Hnil Hstep. induction fuel as [|fuel IH]; intros queue iteration.
  - destruct queue; simpl; [done |].
    by destruct (isCancellationRequested env iteration).
  - destruct queue as [|test queue]; simpl; [done |].
    destruct (isCancellationRequested env iteration); [done |].
    destruct (isExcluded h req test) as [[|]|] eqn:Hex; [apply IH | | done].
    destruct (itemChildren h test) as [|kid kids] eqn:Hkids; simpl.
    + specialize (IH queue (S iteration)).
      destruct (runLoop fuel env h req queue (S iteration)) as [evs ended].
      apply Hstep; done.
    + apply IH.
Qed.

Lemma runLoop_blocks fuel env h req queue iteration :
  (runLoop fuel env h req queue iteration).1
  = flat_map (dispatch env h)
      (startedTests (runLoop fuel env h req queue iteration).1).
Proof.
  apply (runLoop_events_ind (λ evs, evs = flat_map (dispatch env h) (startedTests evs)));
    [done |].
  intros test evs _ _ IH. rewrite startedTests_app, dispatch_started. simpl.
  by rewrite <- IH.
Qed.

Lemma startedTests_end evs (b : bool) :
  startedTests (evs ++ (if b then [RunEnd] else [])) = startedTests evs.
Proof. rewrite startedTests_app. destruct b; simpl; apply app_nil_r. Qed.

Lemma outcomes_end evs (b : bool) :
  outcomes (evs ++ (if b then [RunEnd] else [])) = outcomes evs.
Proof. rewrite outcomes_app. destruct b; simpl; apply app_nil_r. Qed.

Lemma runHandler_started fuel env s req :
  startedTests (runHandler fuel env s req).1
  = startedTests (runLoop fuel env (heap s) req (initialQueue s req) 0).1.
Proof. rewrite runHandler_unfold. apply startedTests_end. Qed.

Lemma runHandler_blocks fuel env s req :
  (runHandler fuel env s req).1
  = flat_map (dispatch env (heap s)) (startedTests (runHandler fuel env s req).1)
    ++ (if (runHandler fuel env s req).2 then [RunEnd] else []).
Proof.
  rewrite runHandler_started. rewrite runHandler_unfold. cbn [fst snd].
  f_equal. apply runLoop_blocks.
Qed.

Lemma runHandler_uniform (D : nat → list RunEvent) fuel env s req :
  (∀ t, dispatch env (heap s) t = D t) →
  (runHandler fuel env s req).1
  = flat_map D (startedTests (runHandler fuel env s req).1)
    ++ (if (runHandler fuel env s req).2 then [RunEnd] else []).
Proof.
  intros HD. rewrite runHandler_blocks at 1. f_equal.
  induction (startedTests _) as [|t l IH]; cbn [flat_map]; [done |].
  by rewrite HD, IH.
Qed.

(** X1: whatever the request, the surroundings and the fuel, the events
    of a run are one block per started leaf in the order the leaves are
    started, each block being what the [try] statement does for that
    leaf, followed by [run.end()] once the loop has ended.  So every
    test marked started is given exactly one outcome, passed or failed,
    before the next one is started. *)
Theorem run_reports_one_outcome_per_started_test (fuel : nat) (env : RunEnv)
    (s : Store) (req : TestRunRequest) :
  let evs := (runHandler fuel env s req).1 in
  evs = flat_map (dispatch env (heap s)) (startedTests evs)
        ++ (if (runHandler fuel env s req).2 then [RunEnd] else []) ∧
  outcomes evs = startedTests evs.
Proof.
  cbn zeta. split; [apply runHandler_blocks |].
  rewrite runHandler_started. rewrite runHandler_unfold. cbn [fst].
  rewrite outcomes_end.
  apply (runLoop_events_ind (λ evs, outcomes evs = startedTests evs)); [done |].
  intros test evs _ _ IH.
  by rewrite outcomes_app, startedTests_app, dispatch_outcomes, dispatch_started, IH.
Qed.

Lemma runHandler_started_leaves fuel env s req :
  Forall (λ t, itemChildren (heap s) t = [] ∧ isExcluded (heap s) req t = Some false)
         (startedTests (runHandler fuel env s req).1).
Proof.
  rewrite runHandler_started.
  apply (runLoop_events_ind
           (λ evs, Forall (λ t, itemChildren (heap s) t = [] ∧
                                isExcluded (heap s) req t = Some false)
                          (startedTests evs))); [by constructor |].
  intros test evs Hleaf Hex IH. rewrite startedTests_app, dispatch_started.
  by constructor.
Qed.

Lemma runLoop_origin env h req : ∀ fuel queue iteration,
  Forall (λ t, ∃ q, q ∈ queue ∧ below h q t)
         (startedTests (runLoop fuel env h req queue iteration).1).
Proof.
  induction fuel as [|fuel IH]; intros queue iteration.
  - destruct queue as [|test queue]; simpl; [by constructor |].
    destruct (isCancellationRequested env iteration); by constructor.
  - destruct queue as [|test queue]; [by constructor |]. rewrite runLoop_cons.
    destruct (isCancellationRequested env iteration); [by constructor |].
    destruct (isExcluded h req test) as [[|]|]; [| | by constructor].
    + eapply Forall_impl; [apply IH |]. intros t (q & Hq & Hb).
      exists q. split; [by apply list_elem_of_further | done].
    + destruct (0 <? length (itemChildren h test)).
      * eapply Forall_impl; [apply IH |]. intros t (q & Hq & Hb).
        apply elem_of_app in Hq as [Hq | Hq].
        -- exists q. split; [by apply list_elem_of_further | done].
        -- exists test. split; [apply list_elem_of_here |].
           by apply (rtc_l _ test q).
      * cbn [fst]. rewrite startedTests_app, dispatch_started. constructor.
        -- exists test. split; [apply list_elem_of_here | apply rtc_refl].
        -- eapply Forall_impl; [apply IH |]. intros t (q & Hq & Hb).
           exists q. split; [by apply list_elem_of_further | done].
Qed.

(** X2: a run starts only leaves, items without children, for which the
    exclusion test of the request answered no, and each of them is an
    item of the initial queue or lies below one: nothing outside the
    request is ever run. *)
Theorem run_starts_only_unexcluded_leaves (fuel : nat) (env : RunEnv) (s : Store)
    (req : TestRunRequest) :
  Forall (λ t, itemChildren (heap s) t = [] ∧
               isExcluded (heap s) req t = Some false ∧
               ∃ q, q ∈ initialQueue s req ∧ below (heap s) q t)
         (startedTests (runHandler fuel env s req).1).
Proof.
  apply Forall_forall. intros t Hin.
  pose proof (proj1 (Forall_forall _ _) (runHandler_started_leaves fuel env s req) t Hin)
    as [Hleaf Hex].
  split; [done |]. split; [done |].
  rewrite runHandler_started in Hin.
  apply (proj1 (Forall_forall _ _)
           (runLoop_origin env (heap s) req fuel (initialQueue s req) 0) t Hin).
Qed.

Section Workspace.
Variable env : RunEnv.
Variables (workspaceRoot : string) (otherFolders : list string).
Hypothesis folders : workspaceFolders env = Some (workspaceRoot :: otherFolders).

Lemma dispatch_without_gradle h test :
  fsExists env (pathJoin workspaceRoot "build.gradle") = false →
  fsExists env (pathJoin workspaceRoot "build.gradle.kts") = false →
  dispatch env h test = startedThenRefused test.
Proof.
  intros H1 H2. unfold dispatch. rewrite folders, H1, H2.
  by destruct (selectorOf _).
Qed.

Lemma dispatch_with_gradle h test :
  fsExists env (pathJoin workspaceRoot "build.gradle")
  || fsExists env (pathJoin workspaceRoot "build.gradle.kts") = true →
  dispatch env h test = startedThenPassed h test.
Proof.
  intros H1. unfold dispatch, startedThenPassed. rewrite folders, H1.
  by destruct (selectorOf _).
Qed.
End Workspace.

(** X3: when the first workspace folder holds neither [build.gradle]
    nor [build.gradle.kts], every leaf a run starts gets a terminal
    created and shown and is then reported failed with the "Only Gradle
    workspaces" message; nothing is reported passed and no command line
    is sent.  The other workspace folders are not looked at. *)
Theorem run_without_gradle_file_fails_every_leaf (fuel : nat) (env : RunEnv)
    (s : Store) (req : TestRunRequest) (workspaceRoot : string)
    (otherFolders : list string) :
  workspaceFolders env = Some (workspaceRoot :: otherFolders) →
  fsExists env (pathJoin workspaceRoot "build.gradle") = false →
  fsExists env (pathJoin workspaceRoot "build.gradle.kts") = false →
  let evs := (runHandler fuel env s req).1 in
  evs = flat_map startedThenRefused (startedTests evs)
        ++ (if (runHandler fuel env s req).2 then [RunEnd] else []) ∧
  failures evs
  = (λ t, (t, "Test execution failed: Error: Error running tests: Only Gradle workspaces are supported for now!"))
      <$> startedTests evs ∧
  passedTests evs = [] ∧
  commands evs = [].
Proof.
  intros Hf H1 H2. cbn zeta.
  pose proof (runHandler_uniform startedThenRefused fuel env s req
                (λ t, dispatch_without_gradle env _ _ Hf (heap s) t H1 H2)) as Hevs.
  split; [exact Hevs |].
  rewrite Hevs at 1 3 4.
  rewrite failures_app, passedTests_app, commands_app.
  assert (∀ b : bool, failures (if b then [RunEnd] else []) = []) as -> by (by intros [|]).
  assert (∀ b : bool, passedTests (if b then [RunEnd] else []) = []) as -> by (by intros [|]).
  assert (∀ b : bool, commands (if b then [RunEnd] else []) = []) as -> by (by intros [|]).
  rewrite !app_nil_r.
  clear Hevs. generalize (startedTests (runHandler fuel env s req).1). intros l.
  induction l as [|t l IH]; [done |]. destruct IH as (IH1 & IH2 & IH3).
  simpl. rewrite IH1. repeat split; [exact IH2 | exact IH3].
Qed.

Lemma run_without_gradle_file_fails_every_leaf_witness :
  let env := mkRunEnv (Some ["/ws"; "/gradle-project"])
                      (λ p, String.eqb p "/gradle-project/build.gradle") (λ _, false) in
  let evs := (runHandler 4 env fooTestStore (mkRequest (Some [1]) None)).1 in
  evs = flat_map startedThenRefused (startedTests evs)
        ++ (if (runHandler 4 env fooTestStore (mkRequest (Some [1]) None)).2
            then [RunEnd] else []) ∧
  failures evs
  = (λ t, (t, "Test execution failed: Error: Error running tests: Only Gradle workspaces are supported for now!"))
      <$> startedTests evs ∧
  passedTests evs = [] ∧
  commands evs = [].
Proof.
  exact (run_without_gradle_file_fails_every_leaf 4
           (mkRunEnv (Some ["/ws"; "/gradle-project"])
                     (λ p, String.eqb p "/gradle-project/build.gradle") (λ _, false))
           fooTestStore (mkRequest (Some [1]) None) "/ws" ["/gradle-project"]
           eq_refl eq_refl eq_refl).
Defined.

(** X4: when the first workspace folder holds [build.gradle] or
    [build.gradle.kts], every leaf a run starts has one command line
    sent to a new terminal and is reported passed without the result of
    the command being read; nothing is reported failed.  The command
    line of a leaf is built from the two first parts of its id split at
    "#". *)
Theorem run_in_gradle_workspace_passes_every_leaf (fuel : nat) (env : RunEnv)
    (s : Store) (req : TestRunRequest) (workspaceRoot : string)
    (otherFolders : list string) :
  workspaceFolders env = Some (workspaceRoot :: otherFolders) →
  fsExists env (pathJoin workspaceRoot "build.gradle")
  || fsExists env (pathJoin workspaceRoot "build.gradle.kts") = true →
  let evs := (runHandler fuel env s req).1 in
  evs = flat_map (startedThenPassed (heap s)) (startedTests evs)
        ++ (if (runHandler fuel env s req).2 then [RunEnd] else []) ∧
  passedTests evs = startedTests evs ∧
  failures evs = [] ∧
  commands evs
  = (λ t, gradleCommand (selectorOf (itemId (heap s) t)).1
                        (selectorOf (itemId (heap s) t)).2) <$> startedTests evs.
Proof.
  intros Hf H1. cbn zeta.
  pose proof (runHandler_uniform (startedThenPassed (heap s)) fuel env s req
                (λ t, dispatch_with_gradle env _ _ Hf (heap s) t H1)) as Hevs.
  split; [exact Hevs |].
  rewrite Hevs at 1 3 4.
  rewrite failures_app, passedTests_app, commands_app.
  assert (∀ b : bool, failures (if b then [RunEnd] else []) = []) as -> by (by intros [|]).
  assert (∀ b : bool, passedTests (if b then [RunEnd] else []) = []) as -> by (by intros [|]).
  assert (∀ b : bool, commands (if b then [RunEnd] else []) = []) as -> by (by intros [|]).
  rewrite !app_nil_r.
  clear Hevs. generalize (startedTests (runHandler fuel env s req).1). intros l.
  induction l as [|t l IH]; [done |]. destruct IH as (IH1 & IH2 & IH3).
  simpl. rewrite IH1, IH3. repeat split. exact IH2.
Qed.

Lemma run_in_gradle_workspace_passes_every_leaf_witness :
  let evs := (runHandler 4 gradleEnv fooTestStore (mkRequest (Some [1]) None)).1 in
  evs = flat_map (startedThenPassed (heap fooTestStore)) (startedTests evs)
        ++ (if (runHandler 4 gradleEnv fooTestStore (mkRequest (Some [1]) None)).2
            then [RunEnd] else []) ∧
  passedTests evs = startedTests evs ∧
  failures evs = [] ∧
  commands evs
  = (λ t, gradleCommand (selectorOf (itemId (heap fooTestStore) t)).1
                        (selectorOf (itemId (heap fooTestStore) t)).2)
      <$> startedTests evs.
Proof.
  exact (run_in_gradle_workspace_passes_every_leaf 4 gradleEnv fooTestStore
           (mkRequest (Some [1]) None) "/ws" [] eq_refl eq_refl).
Defined.

(** ** Cancellation, fuel and coverage *)

Lemma runLoop_cancelled fuel env h req n : ∀ queue iteration,
  isCancellationRequested env n = true → iteration ≤ n →
  length (startedTests (runLoop fuel env h req queue iteration).1) ≤ n - iteration.
Proof.
  intros queue iteration Hc. revert queue iteration.
  induction fuel as [|fuel IH]; intros queue iteration Hle.
  - destruct queue; simpl; [lia |].
    destruct (isCancellationRequested env iteration); simpl; lia.
  - destruct queue as [|test queue]; [simpl; lia |]. rewrite runLoop_cons.
    destruct (isCancellationRequested env iteration) eqn:Hci; [simpl; lia |].
    assert (iteration ≠ n) as Hne by (intros ->; congruence).
    destruct (isExcluded h req test) as [[|]|].
    + specialize (IH queue (S iteration)). lia.
    + destruct (0 <? length (itemChildren h test)).
      * specialize (IH (queue ++ (itemChildren h test).*2) (S iteration)). lia.
      * specialize (IH queue (S iteration)).
        cbn [fst]. rewrite startedTests_app, dispatch_started.
        rewrite length_app. simpl. lia.
    + simpl. lia.
Qed.

Lemma runLoop_cancelled_ends s env req n :
  wfStore s → isCancellationRequested env n = true →
  ∀ fuel queue iteration, iteration ≤ n → n - iteration ≤ fuel →
    (runLoop fuel env (heap s) req queue iteration).2 = true.
Proof.
  intros Hwf Hc. induction fuel as [|fuel IH]; intros queue iteration Hle Hfuel.
  - destruct queue; simpl; [done |].
    assert (iteration = n) as -> by lia. by rewrite Hc.
  - destruct queue as [|test queue]; [done |]. rewrite runLoop_cons.
    destruct (isCancellationRequested env iteration) eqn:Hci; [done |].
    assert (iteration ≠ n) as Hne by (intros ->; congruence).
    destruct (isExcluded_total s Hwf req test) as [[|] ->].
    + apply IH; lia.
    + destruct (0 <? length (itemChildren (heap s) test)).
      * apply IH; lia.
      * cbn [snd]. apply IH; lia.
Qed.

(** X5: if the token reads cancelled at the [n]-th test of the loop
    condition, a run starts at most [n] tests, whatever the request; from
    a reachable state the loop has then ended after at most [n]
    iterations, with [run.end()] as the last event. *)
Theorem cancellation_bounds_the_run (fuel : nat) (env : RunEnv) (s : Store)
    (req : TestRunRequest) (n : nat) :
  reachable s →
  isCancellationRequested env n = true →
  length (startedTests (runHandler fuel env s req).1) ≤ n ∧
  (n ≤ fuel →
   (runHandler fuel env s req).2 = true ∧
   last (runHandler fuel env s req).1 = Some RunEnd).
Proof.
  intros Hwf%reachable_wf Hc. split.
  - rewrite runHandler_started.
    pose proof (runLoop_cancelled fuel env (heap s) req n (initialQueue s req) 0 Hc).
    lia.
  - intros Hfuel. rewrite runHandler_unfold. cbn [fst snd].
    rewrite (runLoop_cancelled_ends s env req n Hwf Hc fuel _ 0) by lia.
    split; [done |]. apply last_snoc.
Qed.

Lemma cancellation_bounds_the_run_witness :
  length (startedTests
            (runHandler 4 (mkRunEnv (Some ["/ws"]) (λ _, true) (λ i, 1 <=? i))
                        fooTestStore (mkRequest (Some [2; 3]) None)).1) ≤ 1 ∧
  (1 ≤ 4 →
   (runHandler 4 (mkRunEnv (Some ["/ws"]) (λ _, true) (λ i, 1 <=? i))
               fooTestStore (mkRequest (Some [2; 3]) None)).2 = true ∧
   last (runHandler 4 (mkRunEnv (Some ["/ws"]) (λ _, true) (λ i, 1 <=? i))
                    fooTestStore (mkRequest (Some [2; 3]) None)).1 = Some RunEnd).
Proof.
  apply (cancellation_bounds_the_run 4
           (mkRunEnv (Some ["/ws"]) (λ _, true) (λ i, 1 <=? i))
           fooTestStore (mkRequest (Some [2; 3]) None) 1).
  - exact (reachable_step (ResolveTestsInFile fooTestFs (Some fooTestPath))
             initialStore reachable_initial).
  - reflexivity.
Defined.

(** Once the loop has ended, more fuel changes nothing. *)
Lemma runLoop_more_fuel env h req : ∀ fuel queue iteration,
  (runLoop fuel env h req queue iteration).2 = true →
  runLoop (S fuel) env h req queue iteration = runLoop fuel env h req queue iteration.
Proof.
  induction fuel as [|fuel IH]; intros queue iteration Hends.
  - destruct queue as [|test queue]; [done |]. simpl in *.
    by destruct (isCancellationRequested env iteration).
  - destruct queue as [|test queue]; [done |].
    rewrite (runLoop_cons (S fuel)). rewrite runLoop_cons in Hends |- *.
    destruct (isCancellationRequested env iteration); [done |].
    destruct (isExcluded h req test) as [[|]|]; [by apply IH | | done].
    destruct (0 <? length (itemChildren h test)); [by apply IH |].
    cbn [snd] in Hends. by rewrite IH.
Qed.

Lemma runLoop_stable env h req queue iteration fuel0 :
  (runLoop fuel0 env h req queue iteration).2 = true →
  ∀ fuel, fuel0 ≤ fuel →
    runLoop fuel env h req queue iteration = runLoop fuel0 env h req queue iteration.
Proof.
  intros Hends fuel Hle. induction Hle as [|fuel Hle IH]; [done |].
  rewrite runLoop_more_fuel; [done |]. by rewrite IH.
Qed.

(** X6: from every reachable state, whatever the request and the
    surroundings, the queue loop ends: there is a number of iterations,
    the size of the subtrees in the queue, within which the run has
    ended with [run.end()] as its last event, and allowing more
    iterations gives the same events. *)
Theorem run_from_reachable_store_ends (env : RunEnv) (s : Store)
    (req : TestRunRequest) :
  reachable s →
  let fuel0 := queueBound (heap s) (initialQueue s req) in
  (runHandler fuel0 env s req).2 = true ∧
  last (runHandler fuel0 env s req).1 = Some RunEnd ∧
  ∀ fuel, fuel0 ≤ fuel → runHandler fuel env s req = runHandler fuel0 env s req.
Proof.
  intros Hwf%reachable_wf fuel0.
  pose proof (runLoop_ends s Hwf env req fuel0 (initialQueue s req) 0 (le_n _)) as Hends.
  rewrite !runHandler_unfold. cbn [fst snd]. rewrite Hends.
  split; [done |]. split; [apply last_snoc |].
  intros fuel Hfuel. rewrite runHandler_unfold.
  by rewrite (runLoop_stable env (heap s) req _ 0 fuel0 Hends fuel Hfuel), Hends.
Qed.

Lemma run_from_reachable_store_ends_witness :
  let fuel0 := queueBound (heap fooTestStore)
                 (initialQueue fooTestStore (mkRequest (Some [0]) None)) in
  (runHandler fuel0 gradleEnv fooTestStore (mkRequest (Some [0]) None)).2 = true ∧
  last (runHandler fuel0 gradleEnv fooTestStore (mkRequest (Some [0]) None)).1
  = Some RunEnd ∧
  ∀ fuel, fuel0 ≤ fuel →
    runHandler fuel gradleEnv fooTestStore (mkRequest (Some [0]) None)
    = runHandler fuel0 gradleEnv fooTestStore (mkRequest (Some [0]) None).
Proof.
  apply (run_from_reachable_store_ends gradleEnv fooTestStore (mkRequest (Some [0]) None)).
  exact (reachable_step (ResolveTestsInFile fooTestFs (Some fooTestPath))
           initialStore reachable_initial).
Defined.

Lemma below_leaf h t u : itemChildren h t = [] → below h t u → u = t.
Proof.
  intros Hleaf Hb. destruct Hb as [|t c u Hc _]; [done |].
  unfold childOf in Hc. rewrite Hleaf in Hc. by apply elem_of_nil in Hc.
Qed.

Lemma runLoop_covers env h req :
  exclude req = None →
  (∀ i, isCancellationRequested env i = false) →
  ∀ fuel queue iteration,
    (runLoop fuel env h req queue iteration).2 = true →
    ∀ q t, q ∈ queue → below h q t → itemChildren h t = [] →
      t ∈ startedTests (runLoop fuel env h req queue iteration).1.
Proof.
  intros Hex Hc. induction fuel as [|fuel IH]; intros queue iteration Hends q t Hq Hb Hleaf.
  - destruct queue as [|test queue]; [by apply elem_of_nil in Hq |].
    simpl in Hends. by rewrite Hc in Hends.
  - destruct queue as [|test queue]; [by apply elem_of_nil in Hq |].
    rewrite runLoop_cons in Hends |- *. rewrite Hc in *.
    unfold isExcluded in *. rewrite Hex in *.
    destruct (itemChildren h test) as [|kid kids] eqn:Hkids.
    + change (0 <? length (@nil (string * nat))) with false in *.
      cbn [fst snd] in *. rewrite startedTests_app, dispatch_started.
      apply elem_of_cons in Hq as [-> | Hq].
      * apply (below_leaf _ _ _ Hkids) in Hb as ->. apply elem_of_app. left.
        apply list_elem_of_here.
      * apply elem_of_app. right. by apply (IH _ _ Hends q t).
    + change (0 <? length (kid :: kids)) with true in *. cbv iota in *.
      apply elem_of_cons in Hq as [-> | Hq].
      * destruct Hb as [|test c t Hstep Hb]; [congruence |].
        apply (IH _ _ Hends c t); [| done | done].
        apply elem_of_app. right. unfold childOf in Hstep. by rewrite Hkids in Hstep.
      * apply (IH _ _ Hends q t); [| done | done]. apply elem_of_app. by left.
Qed.

(** X7: a run that excludes nothing and is never cancelled, from a
    reachable state, starts every leaf that lies at or below an item of
    its queue, and so reports an outcome for it. *)
Theorem run_covers_every_leaf_below_the_queue (env : RunEnv) (s : Store)
    (req : TestRunRequest) :
  reachable s →
  exclude req = None →
  (∀ i, isCancellationRequested env i = false) →
  ∀ fuel, queueBound (heap s) (initialQueue s req) ≤ fuel →
    ∀ q t, q ∈ initialQueue s req → below (heap s) q t →
      itemChildren (heap s) t = [] →
      t ∈ startedTests (runHandler fuel env s req).1 ∧
      t ∈ outcomes (runHandler fuel env s req).1.
Proof.
  intros Hwf%reachable_wf Hex Hc fuel Hfuel q t Hq Hb Hleaf.
  assert (t ∈ startedTests (runHandler fuel env s req).1) as Hin.
  { rewrite runHandler_started.
    apply (runLoop_covers env (heap s) req Hex Hc fuel _ 0
             (runLoop_ends s Hwf env req fuel _ 0 Hfuel) q t Hq Hb Hleaf). }
  split; [done |].
  rewrite runHandler_started in Hin. rewrite runHandler_unfold. cbn [fst].
  rewrite outcomes_end. revert Hin.
  apply (runLoop_events_ind (λ evs, t ∈ startedTests evs → t ∈ outcomes evs)); [done |].
  intros test evs _ _ IH.
  rewrite outcomes_app, startedTests_app, dispatch_outcomes, dispatch_started.
  rewrite !elem_of_app. intros [Hl | Hr]; [by left | right; by apply IH].
Qed.

Lemma run_covers_every_leaf_below_the_queue_witness :
  3 ∈ startedTests (runHandler 4 gradleEnv fooTestStore (mkRequest (Some [0]) None)).1 ∧
  3 ∈ outcomes (runHandler 4 gradleEnv fooTestStore (mkRequest (Some [0]) None)).1.
Proof.
  apply (run_covers_every_leaf_below_the_queue gradleEnv fooTestStore
           (mkRequest (Some [0]) None)
           (reachable_step (ResolveTestsInFile fooTestFs (Some fooTestPath))
              initialStore reachable_initial)
           eq_refl (λ _, eq_refl) 4 ltac:(vm_compute; lia) 0 3).
  - apply list_elem_of_here.
  - apply (rtc_l _ 0 1); [vm_compute; apply list_elem_of_here |].
    apply (rtc_l _ 1 3); [vm_compute; apply list_elem_of_further, list_elem_of_here |].
    apply rtc_refl.
  - reflexivity.
Defined.

(** ** Selectors and the command line *)

Lemma split_at_separator a sep b :
  Js.indexOf a sep = None →
  Js.split (a +:+ String sep b) sep = a :: Js.split b sep.
Proof.
  induction a as [|c a IH]; intros H.
  - rewrite append_nil. cbn [Js.split]. by rewrite Ascii.eqb_refl.
  - rewrite append_cons. cbn [Js.split Js.indexOf] in *.
    destruct (Ascii.eqb c sep); [done |].
    destruct (Js.indexOf a sep); [done |]. by rewrite IH.
Qed.

Lemma selectorOf_joined testClass testMethod :
  Js.indexOf testClass "#" = None →
  Js.indexOf testMethod "#" = None →
  selectorOf (testClass +:+ "#" +:+ testMethod) = (testClass, Some testMethod).
Proof.
  intros Hc Hm. unfold selectorOf.
  change (testClass +:+ "#" +:+ testMethod) with (testClass +:+ String "#" testMethod).
  rewrite (split_at_separator _ _ _ Hc), (split_without_separator _ _ Hm). done.
Qed.

(** X8: the split at "#" undoes the joining of a class name and a
    method name with "#": for names that hold no "#", an id
    [testClass#testMethod] gives back [testClass] and [testMethod], and
    the command line of a run is then [./gradlew test --tests
    testClass.testMethod]. *)
Theorem selector_of_joined_names (testClass testMethod : string) (m : ascii)
    (rest : string) :
  Js.indexOf testClass "#" = None →
  Js.indexOf testMethod "#" = None →
  testMethod = String m rest →
  selectorOf (testClass +:+ "#" +:+ testMethod) = (testClass, Some testMethod) ∧
  (let '(c, o) := selectorOf (testClass +:+ "#" +:+ testMethod) in gradleCommand c o)
  = "./gradlew test --tests " +:+ testClass +:+ "." +:+ testMethod.
Proof.
  intros Hc Hm ->. rewrite (selectorOf_joined _ _ Hc Hm). done.
Qed.

Lemma selector_of_joined_names_witness :
  selectorOf ("com.example.FooTest" +:+ "#" +:+ "testA")
  = ("com.example.FooTest", Some "testA") ∧
  (let '(c, o) := selectorOf ("com.example.FooTest" +:+ "#" +:+ "testA") in
   gradleCommand c o)
  = "./gradlew test --tests " +:+ "com.example.FooTest" +:+ "." +:+ "testA".
Proof.
  exact (selector_of_joined_names "com.example.FooTest" "testA" "t" "estA"
           eq_refl eq_refl eq_refl).
Defined.

(** X9: the [kotlin.test.run] command and the run handler build the
    same command line: called with a method and a class, the command
    sends what a run sends for a leaf whose id is [testClass#testMethod],
    and it sends nothing exactly when the run sends nothing.  With a
    workspace open the command throws exactly when the run reports the
    leaf failed; with none it returns silently where the run reports a
    failure. *)
Theorem run_command_agrees_with_run_handler (env : RunEnv) (h : list TestItem)
    (test : nat) (testClass testMethod : string) :
  itemId h test = testClass +:+ "#" +:+ testMethod →
  Js.indexOf testClass "#" = None →
  Js.indexOf testMethod "#" = None →
  commands (testRunCommand env testMethod testClass).1 = commands (dispatch env h test) ∧
  (is_Some (workspaceFolders env) →
   ((testRunCommand env testMethod testClass).2 = None ↔ failures (dispatch env h test) = [])) ∧
  (workspaceFolders env = None →
   (testRunCommand env testMethod testClass).2 = None ∧
   failures (dispatch env h test) = [(test, failedMessage noWorkspaceError)]).
Proof.
  intros Hid Hc Hm. unfold testRunCommand, dispatch.
  rewrite Hid, (selectorOf_joined _ _ Hc Hm).
  destruct (workspaceFolders env) as [[|root rest]|].
  - split; [done |]. split; [| done]. intros _. split; done.
  - destruct (_ || _).
    + split; [done |]. split; [| done]. intros _. split; done.
    + split; [done |]. split; [| done]. intros _. split; done.
  - split; [done |]. split; [| done]. by intros [? ?].
Qed.

Lemma run_command_agrees_with_run_handler_witness :
  commands (testRunCommand gradleEnv "testA" "FooTest").1
  = commands (dispatch gradleEnv [mkTestItem "FooTest#testA" "testA" None [] None] 0) ∧
  (is_Some (workspaceFolders gradleEnv) →
   ((testRunCommand gradleEnv "testA" "FooTest").2 = None ↔
    failures (dispatch gradleEnv [mkTestItem "FooTest#testA" "testA" None [] None] 0) = [])) ∧
  (workspaceFolders gradleEnv = None →
   (testRunCommand gradleEnv "testA" "FooTest").2 = None ∧
   failures (dispatch gradleEnv [mkTestItem "FooTest#testA" "testA" None [] None] 0)
   = [(0, failedMessage noWorkspaceError)]).
Proof.
  exact (run_command_agrees_with_run_handler gradleEnv
           [mkTestItem "FooTest#testA" "testA" None [] None] 0 "FooTest" "testA"
           eq_refl eq_refl eq_refl).
Defined.

(** ** Parent links and exclusion *)















Lemma someAncestor_elem s excluded e t :
  wfStore s → e ∈ excluded → isAncestorOf (heap s) e t = Some true →
  someAncestor (heap s) excluded t = Some true.
Proof.
  intros Hwf Hin He. induction excluded as [|x excluded IH]; [by apply elem_of_nil in Hin |].
  cbn [someAncestor].
  apply elem_of_cons in Hin as [<- | Hin]; [by rewrite He |].
  destruct (isAncestorOf_total s Hwf x t) as [[|] ->]; [done | by apply IH].
Qed.



(** ** The file index *)

Lemma extends_itemParent f fid s s' r :
  extends f fid s s' → r < length (heap s) →
  itemParent (heap s') r = itemParent (heap s) r.
Proof.
  intros (_ & F & K & _) Hr.
  destruct (lookup_lt_is_Some_2 _ _ Hr) as [it Hit].
  unfold itemParent. destruct (decide (r = f)) as [->|Hne].
  - destruct (K _ Hit) as (it' & Hit' & _ & Hp). by rewrite Hit', Hit.
  - by rewrite F.
Qed.

Lemma rooted_removeTestsForFile filePath s :
  rooted s → rooted (removeTestsForFile filePath s).
Proof.
  intros Hro q l. rewrite removeTestsForFile_heap, removeTestsForFile_index.
  intros [_ Hq]%lookup_delete_Some. by apply (Hro q l).
Qed.

Lemma rooted_getOrCreateFileTestItem filePath s :
  wfStore s → rooted s → rooted (getOrCreateFileTestItem filePath s).2.
Proof.
  intros Hwf Hro. destruct (testItems s !! fileIdOf filePath) as [r|] eqn:E.
  - by rewrite (getOrCreateFileTestItem_old _ _ _ E).
  - rewrite (getOrCreateFileTestItem_new _ _ E). cbn [snd].
    intros q l. cbn [heap fileToTestItemsMap].
    destruct (decide (filePath = q)) as [<-|Hne].
    + rewrite lookup_insert_eq. intros [= <-]. eexists. split; [done |].
      unfold itemParent. rewrite lookup_app_r by done. by rewrite Nat.sub_diag.
    + rewrite lookup_insert_ne by done. intros Hq.
      destruct (Hro _ _ Hq) as (f & -> & Hp). exists f. split; [done |].
      destruct (wf_files s Hwf q [f] f Hq) as (it & Hit & _); [apply list_elem_of_here |].
      unfold itemParent in *. rewrite lookup_app_l; [done | by eapply lookup_lt_Some].
Qed.

Lemma rooted_extends f fid s s' :
  wfStore s → extends f fid s s' → rooted s → rooted s'.
Proof.
  intros Hwf Hext Hro q l Hq.
  pose proof Hext as (_ & _ & _ & _ & Hmap & _). rewrite Hmap in Hq.
  destruct (Hro _ _ Hq) as (f0 & -> & Hp). exists f0. split; [done |].
  destruct (wf_files s Hwf q [f0] f0 Hq) as (it & Hit & _); [apply list_elem_of_here |].
  rewrite (extends_itemParent f fid s s' f0 Hext); [done | by eapply lookup_lt_Some].
Qed.

Lemma rooted_resolveTestsInFile readFile uri0 s :
  wfStore s → rooted s → rooted (resolveTestsInFile readFile uri0 s).
Proof.
  intros Hwf Hro. destruct uri0 as [filePath|]; [|done].
  rewrite resolveTestsInFile_unfold.
  destruct (negb _ && negb _); [done |].
  pose proof (wf_removeTestsForFile filePath s Hwf) as Hwf1.
  pose proof (rooted_removeTestsForFile filePath s Hro) as Hro1.
  destruct (readFile filePath) as [content|]; [|done].
  destruct (wf_getOrCreateFileTestItem filePath _ Hwf1) as (Hwf2 & itf & Hf & _).
  destruct (addClasses_spec filePath _ (execAll classRegex content) _ _ Hwf2 Hf)
    as (_ & Hext & _).
  eapply rooted_extends; [exact Hwf2 | exact Hext |].
  by apply rooted_getOrCreateFileTestItem.
Qed.

Lemma reachable_rooted s : reachable s → rooted s.
Proof.
  induction 1 as [|op s Hr IH]; [by intros q l H |].
  pose proof (reachable_wf s Hr) as Hwf.
  destruct op as [folders readFile | readFile uri0 | filePath]; simpl.
  - pose proof (wf_discoverAllTests None readFile s Hwf) as Hwf1.
    unfold discoverAllTests in *.
    set (s1 := mkStore (heap s) _ ∅ ∅) in *.
    assert (rooted s1) as Hro1 by (by intros q l H).
    destruct folders as [folders|]; [|done].
    apply (foldl_preserves (λ a, wfStore a ∧ rooted a)); [| done].
    intros acc folder Hacc.
    apply (foldl_preserves (λ a, wfStore a ∧ rooted a)); [| done].
    intros acc' file [Hw Hk].
    split; [by apply wf_resolveTestsInFile | by apply rooted_resolveTestsInFile].
  - by apply rooted_resolveTestsInFile.
  - by apply rooted_removeTestsForFile.
Qed.



(** X12: [removeTestsForFile] in a reachable state forgets the path
    and its file item and nothing else: the path leaves the file index,
    the other paths keep their entries, the file id leaves the registry
    when the path was indexed, and every other id stays registered, the
    ids of the classes and methods of the file among them; no object is
    changed.  A second removal changes nothing. *)
Theorem removeTestsForFile_forgets_only_the_file_item (s : Store) (filePath : string) :
  reachable s →
  let s' := removeTestsForFile filePath s in
  heap s' = heap s ∧
  fileToTestItemsMap s' = delete filePath (fileToTestItemsMap s) ∧
  (∀ k, k ≠ fileIdOf filePath → testItems s' !! k = testItems s !! k) ∧
  (is_Some (fileToTestItemsMap s !! filePath) →
   testItems s' !! fileIdOf filePath = None) ∧
  removeTestsForFile filePath s' = s'.
Proof.
  intros Hr s'. pose proof (reachable_wf s Hr) as Hwf.
  pose proof (reachable_rooted s Hr) as Hro.
  assert (∀ f, fileToTestItemsMap s !! filePath = Some [f] →
            testItems s' = delete (fileIdOf filePath) (testItems s)) as Hreg.
  { intros f Hf. subst s'. rewrite (removeTestsForFile_single _ _ _ Hf).
    destruct (wf_files s Hwf _ _ f Hf) as (it & Hit & Hid); [apply list_elem_of_here |].
    by rewrite (itemId_lookup _ _ _ Hit), Hid. }
  split; [apply removeTestsForFile_heap |].
  split; [apply removeTestsForFile_index |].
  split; [| split].
  - intros k Hk. destruct (fileToTestItemsMap s !! filePath) as [l|] eqn:Hq.
    + destruct (Hro _ _ Hq) as (f & -> & _). rewrite (Hreg f eq_refl).
      by apply lookup_delete_ne.
    + subst s'. by rewrite (removeTestsForFile_absent _ _ Hq).
  - intros [l Hq]. destruct (Hro _ _ Hq) as (f & -> & _).
    rewrite (Hreg f Hq). apply lookup_delete_eq.
  - apply removeTestsForFile_absent. subst s'.
    rewrite removeTestsForFile_index. apply lookup_delete_eq.
Qed.

Lemma removeTestsForFile_forgets_only_the_file_item_witness :
  let s' := removeTestsForFile fooTestPath fooTestStore in
  heap s' = heap fooTestStore ∧
  fileToTestItemsMap s' = delete fooTestPath (fileToTestItemsMap fooTestStore) ∧
  (∀ k, k ≠ fileIdOf fooTestPath → testItems s' !! k = testItems fooTestStore !! k) ∧
  (is_Some (fileToTestItemsMap fooTestStore !! fooTestPath) →
   testItems s' !! fileIdOf fooTestPath = None) ∧
  removeTestsForFile fooTestPath s' = s'.
Proof.
  apply (removeTestsForFile_forgets_only_the_file_item fooTestStore fooTestPath).
  exact (reachable_step (ResolveTestsInFile fooTestFs (Some fooTestPath))
           initialStore reachable_initial).
Defined.

(** X13: [getOrCreateFileTestItem] is idempotent: a second call for the
    same path returns the item of the first and leaves the store as the
    first call left it, whatever the store. *)
Theorem getOrCreateFileTestItem_twice (s : Store) (filePath : string) :
  getOrCreateFileTestItem filePath (getOrCreateFileTestItem filePath s).2
  = getOrCreateFileTestItem filePath s.
Proof.
  destruct (testItems s !! fileIdOf filePath) as [r|] eqn:E.
  - rewrite (getOrCreateFileTestItem_old _ _ _ E). cbn [snd].
    apply (getOrCreateFileTestItem_old _ _ _ E).
  - rewrite (getOrCreateFileTestItem_new _ _ E). cbn [snd].
    apply getOrCreateFileTestItem_old. cbn [testItems]. apply lookup_insert_eq.
Qed.

(** ** A rescan and the other files *)

Lemma startsWith_refl s : Js.startsWith s s = true.
Proof. induction s as [|c s IH]; simpl; [done |]. by rewrite Ascii.eqb_refl. Qed.

Lemma startsWith_app_inv a b : ∀ s,
  Js.startsWith s (a +:+ b) = true → Js.startsWith s a = true.
Proof.
  induction a as [|c a IH]; intros s H; [by destruct s |].
  rewrite append_cons in H. destruct s as [|d s]; cbn [Js.startsWith] in *; [done |].
  apply andb_prop in H as [H1 H2]. rewrite H1. by apply IH.
Qed.

Lemma startsWith_fileIdOf p q :
  Js.startsWith (fileIdOf p) (fileIdOf q) = Js.startsWith p q.
Proof. reflexivity. Qed.

Lemma treeView_app s extra depth :
  wfStore s →
  ∀ x, x < length (heap s) →
    treeView depth (heap s ++ extra) x = treeView depth (heap s) x.
Proof.
  intros Hwf.
  assert (∀ x, x < length (heap s) → itemId (heap s ++ extra) x = itemId (heap s) x)
    as Hid by (intros x Hx; unfold itemId; by rewrite lookup_app_l).
  assert (∀ x, x < length (heap s) →
            itemParentId (heap s ++ extra) x = itemParentId (heap s) x) as Hpid.
  { intros x Hx. unfold itemParentId, itemParent. rewrite lookup_app_l by done.
    destruct (heap s !! x) as [it|] eqn:Hit; [|done]. simpl.
    destruct (parent it) as [p|] eqn:Hp; [|done]. simpl. f_equal. apply Hid.
    pose proof (wf_parent s Hwf _ _ _ Hit Hp). lia. }
  induction depth as [|d IH]; intros x Hx; simpl.
  - by rewrite Hid, Hpid.
  - rewrite Hid, Hpid by done. f_equal.
    unfold itemChildren. rewrite lookup_app_l by done.
    destruct (heap s !! x) as [it|] eqn:Hit; [|done]. simpl.
    apply list_fmap_ext. intros i [k c] Hi. unfold prod_map. simpl. f_equal.
    apply list_elem_of_lookup_2 in Hi.
    destruct (wf_children s Hwf _ _ _ _ Hit Hi) as (_ & itc & Hc & _).
    apply IH. by eapply lookup_lt_Some.
Qed.

(** Work on the object [f] does not show in the subtree of an object
    whose id is not a prefix of the id of [f]. *)
Lemma treeView_frame_away f fid s s' depth :
  wfStore s → extends f fid s s' →
  (∀ itf, heap s !! f = Some itf → id itf = fid) →
  ∀ x it, heap s !! x = Some it → Js.startsWith fid (id it) = false →
    treeView depth (heap s') x = treeView depth (heap s) x.
Proof.
  intros Hwf Hext Hfid.
  induction depth as [|d IH]; intros x it Hx Hid.
  - pose proof (lookup_lt_Some _ _ _ Hx) as Hlt. simpl.
    by rewrite (extends_itemId f fid s s' Hext),
               (extends_itemParentId f fid s s' Hwf Hext).
  - pose proof (lookup_lt_Some _ _ _ Hx) as Hlt.
    assert (x ≠ f) as Hne.
    { intros ->. rewrite (Hfid _ Hx), startsWith_refl in Hid. done. }
    simpl. rewrite (extends_itemId f fid s s' Hext),
                   (extends_itemParentId f fid s s' Hwf Hext) by done.
    f_equal. destruct Hext as (_ & F & _).
    unfold itemChildren. rewrite F by done. rewrite Hx. simpl.
    apply list_fmap_ext. intros i [k c] Hi. unfold prod_map. simpl. f_equal.
    apply list_elem_of_lookup_2 in Hi.
    destruct (wf_children s Hwf _ _ _ _ Hx Hi) as (_ & itc & Hc & Hidc & name & Hname).
    apply (IH c itc Hc). rewrite Hidc, Hname.
    destruct (Js.startsWith fid (id it +:+ "." +:+ name)) eqn:E; [| done].
    apply startsWith_app_inv in E. congruence.
Qed.

(** The entry of another path in the file index after a rescan. *)
Lemma resolveTestsInFile_index_other readFile p q s :
  wfStore s → p ≠ q →
  fileToTestItemsMap (resolveTestsInFile readFile (Some p) s) !! q
  = fileToTestItemsMap s !! q.
Proof.
  intros Hwf Hne. rewrite resolveTestsInFile_unfold.
  destruct (negb _ && negb _); [done |].
  pose proof (wf_removeTestsForFile p s Hwf) as Hwf0.
  assert (fileToTestItemsMap (removeTestsForFile p s) !! q = fileToTestItemsMap s !! q)
    as H0 by (rewrite removeTestsForFile_index; by apply lookup_delete_ne).
  destruct (readFile p) as [content|]; [| done].
  destruct (wf_getOrCreateFileTestItem p _ Hwf0) as (Hwf2 & itf & Hf & _).
  destruct (addClasses_spec p _ (execAll classRegex content) _ _ Hwf2 Hf)
    as (_ & (_ & _ & _ & _ & Hmap & _) & _).
  rewrite Hmap, <- H0.
  destruct (testItems (removeTestsForFile p s) !! fileIdOf p) as [r|] eqn:E.
  - by rewrite (getOrCreateFileTestItem_old _ _ _ E).
  - rewrite (getOrCreateFileTestItem_new _ _ E). cbn [snd fileToTestItemsMap].
    by apply lookup_insert_ne.
Qed.

(** X14: a rescan of one path leaves the other files as they were: for
    a path [q] that is not a prefix of the rescanned path, the entry of
    [q] in the file index is unchanged and the subtree under it is the
    same at every depth, ids, parents and children. *)
Theorem rescan_leaves_other_files_alone (readFile : string → option string)
    (p q : string) (s : Store) (depth : nat) :
  reachable s →
  Js.startsWith p q = false →
  fileToTestItemsMap (resolveTestsInFile readFile (Some p) s) !! q
  = fileToTestItemsMap s !! q ∧
  fileIndexView depth (resolveTestsInFile readFile (Some p) s) q
  = fileIndexView depth s q.
Proof.
  intros Hwf%reachable_wf Hpq.
  assert (p ≠ q) as Hne by (intros ->; by rewrite startsWith_refl in Hpq).
  pose proof (resolveTestsInFile_index_other readFile p q s Hwf Hne) as Hidx.
  split; [done |]. unfold fileIndexView. rewrite Hidx.
  destruct (fileToTestItemsMap s !! q) as [l|] eqn:Hq; [| done].
  cbn [fmap option_fmap option_map]. f_equal.
  apply list_fmap_ext. intros i fq Hi. apply list_elem_of_lookup_2 in Hi.
  destruct (wf_files s Hwf _ _ _ Hq Hi) as (it & Hit & Hid).
  rewrite resolveTestsInFile_unfold.
  destruct (negb _ && negb _); [done |].
  pose proof (wf_removeTestsForFile p s Hwf) as Hwf0.
  pose proof (removeTestsForFile_heap p s) as Hh0.
  destruct (readFile p) as [content|]; [| by rewrite Hh0].
  destruct (wf_getOrCreateFileTestItem p _ Hwf0) as (Hwf2 & itf & Hf & Hfid).
  destruct (addClasses_spec p _ (execAll classRegex content) _ _ Hwf2 Hf)
    as (_ & Hext & _).
  assert (treeView depth (heap (getOrCreateFileTestItem p (removeTestsForFile p s)).2) fq
          = treeView depth (heap s) fq ∧
          heap (getOrCreateFileTestItem p (removeTestsForFile p s)).2 !! fq = Some it)
    as [Hview Hit2].
  { destruct (testItems (removeTestsForFile p s) !! fileIdOf p) as [r|] eqn:E.
    - rewrite (getOrCreateFileTestItem_old _ _ _ E). cbn [snd]. by rewrite Hh0.
    - rewrite (getOrCreateFileTestItem_new _ _ E). cbn [snd heap].
      pose proof (lookup_lt_Some _ _ _ Hit) as Hlt. split.
      + rewrite treeView_app by (done || by rewrite Hh0). by rewrite Hh0.
      + rewrite Hh0. by rewrite lookup_app_l. }
  rewrite <- Hview. rewrite Hfid in Hext.
  apply (treeView_frame_away _ (fileIdOf p) _ _ depth Hwf2 Hext) with (it := it);
    [| done |].
  - intros itf' Hf'. rewrite Hf in Hf'. by injection Hf' as <-.
  - by rewrite Hid, startsWith_fileIdOf.
Qed.

Lemma rescan_leaves_other_files_alone_witness :
  fileToTestItemsMap (resolveTestsInFile (λ _, Some nestedContent)
                        (Some "/ws/NestedTest.kt") fooTestStore) !! fooTestPath
  = fileToTestItemsMap fooTestStore !! fooTestPath ∧
  fileIndexView 3 (resolveTestsInFile (λ _, Some nestedContent)
                     (Some "/ws/NestedTest.kt") fooTestStore) fooTestPath
  = fileIndexView 3 fooTestStore fooTestPath.
Proof.
  apply (rescan_leaves_other_files_alone (λ _, Some nestedContent)
           "/ws/NestedTest.kt" fooTestPath fooTestStore 3).
  - exact (reachable_step (ResolveTestsInFile fooTestFs (Some fooTestPath))
             initialStore reachable_initial).
  - reflexivity.
Defined.

(** ** What a scan builds from nothing *)




(** ** [discoverAllTests] *)

Lemma collDelete_all (l : TestItemCollection) : ∀ acc : TestItemCollection,
  (∀ e, e ∈ acc → e.1 ∈ l.*1) →
  foldl (λ acc item, collDelete acc item.1) acc l = [].
Proof.
  induction l as [|x l IH]; intros acc Hacc.
  - destruct acc as [|e acc]; [done |].
    specialize (Hacc e (list_elem_of_here _ _)). by apply elem_of_nil in Hacc.
  - cbn [foldl]. apply IH. intros e He. unfold collDelete in He.
    apply list_elem_of_filter in He as [Hne He].
    specialize (Hacc e He). rewrite fmap_cons in Hacc.
    apply elem_of_cons in Hacc as [Heq | Hin]; [done | done].
Qed.

(** X16: with no workspace folder open, [discoverAllTests] leaves a
    store with nothing in the root collection, in the registry or in the
    file index, whatever the store held; the objects created before are
    left as they are. *)
Theorem discoverAllTests_without_workspace (readFile : string → option string)
    (s : Store) :
  discoverAllTests None readFile s = mkStore (heap s) [] ∅ ∅.
Proof.
  unfold discoverAllTests. f_equal. apply collDelete_all.
  intros e He. by apply list_elem_of_fmap_2.
Qed.




(** ** The directory walk *)










(** ** The patterns of the scanner *)

Lemma orElse_Some {A} (x y : option A) v : orElse x y = Some v → x = Some v ∨ y = Some v.
Proof. destruct x; simpl; intros H; [by left | by right]. Qed.

Lemma lit_Some {A} l : ∀ s (k : string → option A) v,
  lit l s k = Some v → ∃ s', s = l +:+ s' ∧ k s' = Some v.
Proof.
  induction l as [|a l IH]; intros s k v H.
  - exists s. by rewrite append_nil.
  - destruct s as [|b s]; cbn [lit] in H; [done |].
    destruct (Ascii.eqb a b) eqn:E; [| done]. apply Ascii.eqb_eq in E as ->.
    destruct (IH _ _ _ H) as (s' & -> & Hk). exists s'. by rewrite append_cons.
Qed.

Lemma star_Some {A} p : ∀ s (k : string → option A) v,
  star p s k = Some v →
  ∃ w s', s = w +:+ s' ∧ allChars p w = true ∧ k s' = Some v.
Proof.
  induction s as [|c s IH]; intros k v H; cbn [star] in H.
  - by exists EmptyString, EmptyString.
  - destruct (p c) eqn:Hp; [| by exists EmptyString, (String c s)].
    apply orElse_Some in H as [H|H]; [| by exists EmptyString, (String c s)].
    destruct (IH _ _ H) as (w & s' & -> & Hw & Hk).
    exists (String c w), s'. rewrite append_cons. split; [done |].
    split; [| done]. cbn [allChars]. by rewrite Hp, Hw.
Qed.

Lemma starLazy_Some {A} p : ∀ s (k : string → option A) v,
  starLazy p s k = Some v →
  ∃ w s', s = w +:+ s' ∧ allChars p w = true ∧ k s' = Some v.
Proof.
  induction s as [|c s IH]; intros k v H; cbn [starLazy] in H.
  - apply orElse_Some in H as [H|H]; [| done]. by exists EmptyString, EmptyString.
  - apply orElse_Some in H as [H|H]; [by exists EmptyString, (String c s) |].
    destruct (p c) eqn:Hp; [| done].
    destruct (IH _ _ H) as (w & s' & -> & Hw & Hk).
    exists (String c w), s'. rewrite append_cons. split; [done |].
    split; [| done]. cbn [allChars]. by rewrite Hp, Hw.
Qed.

Lemma plus_Some {A} p s (k : string → option A) v :
  plus p s k = Some v →
  ∃ c w s', s = String c w +:+ s' ∧ allChars p (String c w) = true ∧ k s' = Some v.
Proof.
  destruct s as [|c s]; cbn [plus]; [done |].
  destruct (p c) eqn:Hp; [| done]. intros H.
  destruct (star_Some _ _ _ _ H) as (w & s' & -> & Hw & Hk).
  exists c, w, s'. rewrite append_cons. split; [done |]. split; [| done].
  cbn [allChars]. by rewrite Hp, Hw.
Qed.

(** A pattern without a capture group hands on the capture it was
    given, with a suffix of its input. *)
Lemma run_without_group {A} r : ∀ s cap (k : string → option string → option A) v,
  hasGroup r = false → run r s cap k = Some v →
  ∃ pre s', s = pre +:+ s' ∧ k s' cap = Some v.
Proof.
  induction r as [l | p | p | p | r1 IH1 r2 IH2 | r1 IH1 r2 IH2 | r1 IH1 | r1 IH1];
    intros s cap k v Hg H; cbn [run hasGroup] in *.
  - destruct (lit_Some _ _ _ _ H) as (s' & -> & Hk). by exists l, s'.
  - destruct (plus_Some _ _ _ _ H) as (c & w & s' & -> & _ & Hk). by exists (String c w), s'.
  - destruct (star_Some _ _ _ _ H) as (w & s' & -> & _ & Hk). by exists w, s'.
  - destruct (starLazy_Some _ _ _ _ H) as (w & s' & -> & _ & Hk). by exists w, s'.
  - apply orb_false_elim in Hg as [Hg1 Hg2].
    destruct (IH1 _ _ _ _ Hg1 H) as (pre1 & s1 & -> & H1).
    destruct (IH2 _ _ _ _ Hg2 H1) as (pre2 & s2 & -> & H2).
    exists (pre1 +:+ pre2), s2. by rewrite append_assoc.
  - apply orb_false_elim in Hg as [Hg1 Hg2].
    apply orElse_Some in H as [H|H]; [by apply (IH1 _ _ _ _ Hg1) | by apply (IH2 _ _ _ _ Hg2)].
  - apply orElse_Some in H as [H|H]; [by apply (IH1 _ _ _ _ Hg) |].
    by exists EmptyString, s.
  - done.
Qed.

(** White space, then a captured name, then the rest of the pattern. *)
Lemma run_space_name {A} tail s cap0 (k : string → option string → option A) v :
  run (Seq (Plus space) (Seq (Group (Plus word)) tail)) s cap0 k = Some v →
  ∃ ws name rest,
    s = ws +:+ name +:+ rest ∧ ws ≠ EmptyString ∧ allChars space ws = true ∧
    isWord name = true ∧ run tail rest (Some name) k = Some v.
Proof.
  cbn [run]. intros H.
  destruct (plus_Some _ _ _ _ H) as (c & ws & s2 & -> & Hws & H2).
  destruct (plus_Some _ _ _ _ H2) as (d & name & rest & -> & Hname & H3).
  rewrite length_append, Nat.add_sub, take_append in H3.
  by exists (String c ws), (String d name), rest.
Qed.

Lemma space_not_word c : space c = true → word c = false.
Proof.
  destruct c as [[] [] [] [] [] [] [] []]; vm_compute; intros H;
    first [reflexivity | discriminate H].
Qed.

Lemma spaces_then_nonword w d t :
  allChars space w = true → word d = false → startsWithWord (w +:+ String d t) = false.
Proof.
  destruct w as [|c w]; intros Hw Hd; [by rewrite append_nil |].
  rewrite append_cons. cbn [startsWithWord allChars] in *.
  apply andb_prop in Hw as [Hc _]. by apply space_not_word.
Qed.

Lemma indexOf_found a c b : is_Some (Js.indexOf (a +:+ String c b) c).
Proof.
  induction a as [|d a IH].
  - rewrite append_nil. cbn [Js.indexOf]. rewrite Ascii.eqb_refl. eauto.
  - rewrite append_cons. cbn [Js.indexOf]. destruct (Ascii.eqb d c); [eauto |].
    destruct IH as [n ->]. simpl. eauto.
Qed.

Lemma allChars_indexOf p w c :
  allChars p w = true → p c = false → Js.indexOf w c = None.
Proof.
  intros Hw Hc. induction w as [|d w IH]; [done |].
  cbn [allChars Js.indexOf] in *. apply andb_prop in Hw as [Hd Hw].
  destruct (Ascii.eqb d c) eqn:E; [apply Ascii.eqb_eq in E; congruence |].
  by rewrite (IH Hw).
Qed.

(** The shape of a text at whose head [classRegex] matches. *)
Lemma classRegex_match s cap len :
  matchAt classRegex s = Some (cap, len) →
  ∃ ws name rest,
    s = "class" +:+ ws +:+ name +:+ rest ∧ ws ≠ EmptyString ∧
    allChars space ws = true ∧ isWord name = true ∧ cap = Some name ∧
    startsWithWord rest = false ∧ is_Some (Js.indexOf rest "{").
Proof.
  unfold matchAt, classRegex. intros H.
  change (run (Seq (Lit "class") ?r) s None ?k)
    with (lit "class" s (λ s', run r s' None k)) in H.
  destruct (lit_Some _ _ _ _ H) as (s1 & -> & H1). clear H.
  destruct (run_space_name _ _ _ _ _ H1) as (ws & name & rest & -> & Hne & Hws & Hname & H2).
  clear H1. exists ws, name, rest. split; [done |]. split; [done |].
  split; [done |]. split; [done |].
  match type of H2 with
  | run (Seq (Opt ?a) ?b) rest ?c ?k = _ =>
      change (orElse (run a rest c (λ s' cap', run b s' cap' k)) (run b rest c k)
              = Some (cap, len)) in H2
  end.
  assert (∀ t (c0 : option string),
            run (Seq (Star space) (Lit "{")) t c0
                (λ s' cap', Some (cap', String.length ("class" +:+ ws +:+ name +:+ rest)
                                        - String.length s'))
            = Some (cap, len) →
            c0 = cap ∧ ∃ w t', t = w +:+ String "{" t' ∧ allChars space w = true) as Hbrace.
  { intros t c0 Hb. cbn [run] in Hb.
    destruct (star_Some _ _ _ _ Hb) as (w & t1 & -> & Hw & Hb1).
    destruct (lit_Some _ _ _ _ Hb1) as (t2 & -> & Hb2).
    injection Hb2 as -> _. split; [done |]. by exists w, t2. }
  apply orElse_Some in H2 as [H2|H2].
  - match type of H2 with
    | run (Seq (Star space) (Seq (Lit ":") ?a)) rest ?c ?k = _ =>
        change (star space rest (λ s', lit ":" s' (λ s'', run a s'' c k))
                = Some (cap, len)) in H2
    end.
    destruct (star_Some _ _ _ _ H2) as (w & t1 & -> & Hw & H3).
    destruct (lit_Some _ _ _ _ H3) as (t2 & -> & H4).
    apply run_without_group in H4 as (pre & t3 & -> & H5); [| reflexivity].
    destruct (Hbrace _ _ H5) as (<- & w' & t' & -> & _).
    split; [done |]. split.
    + change (":" +:+ pre +:+ w' +:+ String "{" t')
        with (String ":" (pre +:+ w' +:+ String "{" t')).
      by apply spaces_then_nonword.
    + rewrite <- !append_assoc. apply indexOf_found.
  - destruct (Hbrace _ _ H2) as (<- & w' & t' & -> & Hw').
    split; [done |]. split; [by apply spaces_then_nonword | apply indexOf_found].
Qed.

(** The shape of a text at whose head [methodRegex] matches. *)
Lemma methodRegex_match s cap len :
  matchAt methodRegex s = Some (cap, len) →
  ∃ gap keyword ws name ws' args rest,
    s = "@Test" +:+ gap +:+ keyword +:+ ws +:+ name +:+ ws' +:+ "(" +:+ args +:+ ")" +:+ rest ∧
    (keyword = "fun" ∨ keyword = "suspend fun") ∧
    ws ≠ EmptyString ∧ allChars space ws = true ∧
    isWord name = true ∧ cap = Some name ∧
    allChars space ws' = true ∧ allChars (isNot ")") args = true.
Proof.
  unfold matchAt, methodRegex. intros H.
  match type of H with
  | run (Seq (Lit "@Test") (Seq (StarLazy any) (Seq (Alt (Lit "fun") (Lit "suspend fun")) ?r)))
        s None ?k = _ =>
      change (lit "@Test" s (λ s1, starLazy any s1 (λ s2,
                orElse (lit "fun" s2 (λ s3, run r s3 None k))
                       (lit "suspend fun" s2 (λ s3, run r s3 None k))))
              = Some (cap, len)) in H
  end.
  destruct (lit_Some _ _ _ _ H) as (s1 & -> & H1). clear H.
  destruct (starLazy_Some _ _ _ _ H1) as (gap & s2 & -> & _ & H2). clear H1.
  assert (∃ keyword s3, s2 = keyword +:+ s3 ∧ (keyword = "fun" ∨ keyword = "suspend fun") ∧
            run (Seq (Plus space) (Seq (Group (Plus word))
                   (Seq (Star space) (Seq (Lit "(") (Seq (Star (isNot ")")) (Lit ")"))))))
                s3 None
                (λ s' cap', Some (cap', String.length ("@Test" +:+ gap +:+ s2)
                                        - String.length s'))
            = Some (cap, len)) as (keyword & s3 & -> & Hkw & H3).
  { apply orElse_Some in H2 as [H2|H2].
    - destruct (lit_Some _ _ _ _ H2) as (s3 & -> & H3). exists "fun", s3. eauto.
    - destruct (lit_Some _ _ _ _ H2) as (s3 & -> & H3). exists "suspend fun", s3. eauto. }
  clear H2.
  destruct (run_space_name _ _ _ _ _ H3) as (ws & name & t & -> & Hne & Hws & Hname & H4).
  clear H3. cbn [run] in H4.
  destruct (star_Some _ _ _ _ H4) as (ws' & t1 & -> & Hws' & H5).
  destruct (lit_Some _ _ _ _ H5) as (t2 & -> & H6).
  destruct (star_Some _ _ _ _ H6) as (args & t3 & -> & Hargs & H7).
  destruct (lit_Some _ _ _ _ H7) as (rest & -> & H8).
  injection H8 as <- _.
  exists gap, keyword, ws, name, ws', args, rest. done.
Qed.

(** Every match the loop reports is a match of the pattern at the head
    of a suffix of the text searched. *)
Lemma execLoop_sound r : ∀ s skip,
  Forall (λ m, (∃ pre, s = pre +:+ fromIndex m) ∧
               ∃ cap len, matchAt r (fromIndex m) = Some (cap, len) ∧
                          capture m = default EmptyString cap)
         (execLoop r s skip).
Proof.
  induction s as [|c s IH]; intros skip.
  - destruct skip; cbn [execLoop]; [| by constructor].
    destruct (matchAt r EmptyString) as [[cap len]|] eqn:E; [| by constructor].
    constructor; [| by constructor]. split; [by exists EmptyString |]. by exists cap, len.
  - assert (∀ n, Forall (λ m, (∃ pre, String c s = pre +:+ fromIndex m) ∧
               ∃ cap len, matchAt r (fromIndex m) = Some (cap, len) ∧
                          capture m = default EmptyString cap)
              (execLoop r s n)) as Hrest.
    { intros n. eapply Forall_impl; [apply IH |]. intros m [[pre ->] Hm].
      split; [| done]. exists (String c pre). by rewrite append_cons. }
    destruct skip as [|n]; cbn [execLoop]; [| apply Hrest].
    destruct (matchAt r (String c s)) as [[cap len]|] eqn:E; [| apply Hrest].
    constructor; [| apply Hrest]. split; [by exists EmptyString |]. by exists cap, len.
Qed.

Lemma indexOf_append_found a b c :
  is_Some (Js.indexOf b c) → is_Some (Js.indexOf (a +:+ b) c).
Proof.
  intros Hb. induction a as [|d a IH]; [by rewrite append_nil |].
  rewrite append_cons. cbn [Js.indexOf]. destruct (Ascii.eqb d c); [eauto |].
  destruct IH as [n ->]. simpl. eauto.
Qed.

Lemma isWord_allChars w : isWord w = true → allChars word w = true.
Proof. by destruct w. Qed.

Lemma isWord_no_separator w :
  isWord w = true → Js.indexOf w "." = None ∧ Js.indexOf w "#" = None.
Proof.
  intros Hw%isWord_allChars. split; by apply (allChars_indexOf word).
Qed.

Lemma execAll_classRegex_capture content m :
  m ∈ execAll classRegex content → isWord (capture m) = true.
Proof.
  intros Hin.
  destruct (proj1 (Forall_forall _ _) (execLoop_sound classRegex content 0) m Hin)
    as (_ & cap & len & Hm & Hcap).
  destruct (classRegex_match _ _ _ Hm) as (ws & name & rest & _ & _ & _ & Hname & -> & _).
  by rewrite Hcap.
Qed.

Lemma execAll_methodRegex_capture body m :
  m ∈ execAll methodRegex body → isWord (capture m) = true.
Proof.
  intros Hin.
  destruct (proj1 (Forall_forall _ _) (execLoop_sound methodRegex body 0) m Hin)
    as (_ & cap & len & Hm & Hcap).
  destruct (methodRegex_match _ _ _ Hm)
    as (gap & kw & ws & name & ws' & args & rest & _ & _ & _ & _ & Hname & -> & _).
  by rewrite Hcap.
Qed.

(** X19: every match the class loop of [resolveTestsInFile] works on
    starts, somewhere in the content, with the letters "class", then
    white space, then the captured name, a non-empty run of word
    characters that is not followed by another word character; and the
    text from the match on holds a "{", so the test [openBraces !== -1]
    never fails. *)
Theorem class_matches_are_keyword_space_name (content : string) :
  Forall (λ m, ∃ pre ws rest,
            content = pre +:+ fromIndex m ∧
            fromIndex m = "class" +:+ ws +:+ capture m +:+ rest ∧
            ws ≠ EmptyString ∧ allChars space ws = true ∧
            isWord (capture m) = true ∧ startsWithWord rest = false ∧
            is_Some (Js.indexOf (fromIndex m) "{"))
         (execAll classRegex content).
Proof.
  eapply Forall_impl; [apply (execLoop_sound classRegex content 0) |].
  intros m ([pre Hpre] & cap & len & Hm & Hcap).
  destruct (classRegex_match _ _ _ Hm)
    as (ws & name & rest & Hshape & Hne & Hws & Hname & -> & Hrest & Hbrace).
  simpl in Hcap. rewrite Hcap. exists pre, ws, rest.
  repeat (split; [done |]). rewrite Hshape.
  do 3 apply indexOf_append_found. exact Hbrace.
Qed.

(** X20: every match the method loop works on starts with "@Test",
    then any text, then "fun" or "suspend fun", white space, the captured
    name, a non-empty run of word characters, optional white space, and a
    parenthesised text without ")".  Nothing is asked of the text between
    "@Test" and the keyword, nor of what precedes the keyword. *)
Theorem method_matches_are_annotation_keyword_name (body : string) :
  Forall (λ m, ∃ pre gap keyword ws ws' args rest,
            body = pre +:+ fromIndex m ∧
            fromIndex m = "@Test" +:+ gap +:+ keyword +:+ ws +:+ capture m +:+ ws'
                          +:+ "(" +:+ args +:+ ")" +:+ rest ∧
            (keyword = "fun" ∨ keyword = "suspend fun") ∧
            ws ≠ EmptyString ∧ allChars space ws = true ∧
            isWord (capture m) = true ∧
            allChars space ws' = true ∧ allChars (isNot ")") args = true)
         (execAll methodRegex body).
Proof.
  eapply Forall_impl; [apply (execLoop_sound methodRegex body 0) |].
  intros m ([pre Hpre] & cap & len & Hm & Hcap).
  destruct (methodRegex_match _ _ _ Hm)
    as (gap & kw & ws & name & ws' & args & rest & Hshape & Hkw & Hne & Hws & Hname
        & -> & Hws' & Hargs).
  simpl in Hcap. rewrite Hcap. by exists pre, gap, kw, ws, ws', args, rest.
Qed.

(** X21: the declarations the scanner reports.  Every class name is a
    non-empty run of word characters that includes "Test"; every method
    name is a non-empty run of word characters; so no name holds a "."
    or a "#", the separators of item ids and of the run handler. *)
Theorem scanned_names_are_identifiers (content : string) :
  Forall (λ decl,
            isWord decl.1 = true ∧ Js.includes decl.1 "Test" = true ∧
            Js.indexOf decl.1 "." = None ∧ Js.indexOf decl.1 "#" = None ∧
            Forall (λ name, isWord name = true ∧ Js.indexOf name "." = None ∧
                            Js.indexOf name "#" = None) decl.2)
         (scanDeclarations content).
Proof.
  apply Forall_forall. intros [className names] Hin. unfold scanDeclarations in Hin.
  apply list_elem_of_omap in Hin as (m & Hm & Hdecl).
  destruct (Js.includes (capture m) "Test") eqn:Htest; [| done].
  injection Hdecl as <- <-. cbn [fst snd].
  pose proof (execAll_classRegex_capture _ _ Hm) as Hword.
  destruct (isWord_no_separator _ Hword) as [Hdot Hhash].
  repeat (split; [done |]).
  apply Forall_forall. intros name Hname. unfold methodNames in Hname.
  apply list_elem_of_fmap in Hname as (mm & -> & Hmm).
  pose proof (execAll_methodRegex_capture _ _ Hmm) as Hw.
  destruct (isWord_no_separator _ Hw). done.
Qed.

(** ** The ids of the items *)

Lemma itemKind_ext it it' :
  id it' = id it → label it' = label it → uri it' = uri it →
  itemKind it → itemKind it'.
Proof.
  intros Hi Hl Hu [p H1 H2 H3 | p cn H1 H2 H3 H4 H5 | p cn mn H1 H2 H3 H4 H5 H6].
  - apply (kind_file _ p); congruence.
  - apply (kind_class _ p cn); congruence.
  - apply (kind_method _ p cn mn); congruence.
Qed.

Lemma kinded_heap s s' : heap s' = heap s → kinded s → kinded s'.
Proof. intros Hh Hk r it. rewrite Hh. apply Hk. Qed.

Lemma kinded_createTestItem k l u s :
  itemKind (mkTestItem k l u [] None) → kinded s → kinded (createTestItem k l u s).2.
Proof.
  intros Hnew Hk r it Hit.
  apply createTestItem_lookup_Some in Hit as [Hit|[_ ->]]; [by eapply Hk | done].
Qed.

Lemma kinded_childrenAdd p c s : p ≠ c → kinded s → kinded (childrenAdd p c s).
Proof.
  intros Hne Hk r it' Hit'. rewrite childrenAdd_heap in Hit' by done.
  destruct (heap s !! r) as [it|] eqn:Hit; [| done]. injection Hit' as <-.
  apply (itemKind_ext it); [apply afterAdd_id | | | by eapply Hk];
    unfold afterAdd; by repeat case_decide.
Qed.

Lemma kinded_addMethod filePath c s name ic className :
  kinded s → heap s !! c = Some ic →
  id ic = fileIdOf filePath +:+ "." +:+ className →
  isWord className = true → Js.includes className "Test" = true →
  isWord name = true →
  kinded (addMethod filePath c s name).
Proof.
  intros Hk Hc Hid Hcn Htest Hname. rewrite addMethod_unfold.
  apply kinded_childrenAdd; [apply lookup_lt_Some in Hc; lia |].
  apply kinded_createTestItem; [| done].
  rewrite (itemId_lookup _ _ _ Hc), Hid.
  by apply (kind_method _ filePath className name).
Qed.

Lemma kinded_addMethods filePath c className names : ∀ s ic,
  wfStore s → kinded s → heap s !! c = Some ic →
  id ic = fileIdOf filePath +:+ "." +:+ className →
  isWord className = true → Js.includes className "Test" = true →
  Forall (λ name, isWord name = true) names →
  kinded (foldl (addMethod filePath c) s names).
Proof.
  induction names as [|name names IH]; intros s ic Hwf Hk Hc Hid Hcn Htest Hnames; [done |].
  apply Forall_cons in Hnames as [Hname Hnames].
  destruct (addMethod_spec filePath c s name ic Hwf Hc) as (Hwf1 & _ & Hc1 & _).
  cbn [foldl]. eapply IH; [done | by eapply kinded_addMethod | exact Hc1 | done..].
Qed.

Lemma methodNames_words classContent :
  Forall (λ name, isWord name = true) (methodNames classContent).
Proof.
  apply Forall_forall. intros name Hname. unfold methodNames in Hname.
  apply list_elem_of_fmap in Hname as (m & -> & Hm).
  by apply (execAll_methodRegex_capture _ _ Hm).
Qed.

Lemma kinded_addClass filePath f s classMatch itf :
  wfStore s → kinded s → heap s !! f = Some itf → id itf = fileIdOf filePath →
  isWord (capture classMatch) = true →
  kinded (addClass filePath f s classMatch).
Proof.
  intros Hwf Hk Hf Hid Hword. rewrite addClass_unfold.
  destruct (Js.includes (capture classMatch) "Test") eqn:Htest; [| done].
  rewrite (itemId_lookup _ _ _ Hf), Hid.
  set (cid := fileIdOf filePath +:+ "." +:+ capture classMatch).
  set (c := length (heap s)).
  set (s1 := (createTestItem cid (capture classMatch) (Some filePath) s).2).
  assert (f < c) as Hlt by (by eapply lookup_lt_Some).
  assert (f ≠ c) as Hne by lia.
  assert (heap s1 !! f = Some itf) as Hf1 by (subst s1; simpl; by rewrite lookup_app_l).
  assert (heap s1 !! c = Some (mkTestItem cid (capture classMatch) (Some filePath) [] None))
    as Hc1 by apply createTestItem_lookup_new.
  eapply (kinded_addMethods filePath c (capture classMatch)).
  - eapply (wf_childrenAdd f c s1 itf _ (capture classMatch));
      [by apply wf_createTestItem | done | done | exact Hc1 |].
    simpl. by rewrite Hid.
  - apply kinded_childrenAdd; [done |]. apply kinded_createTestItem; [| done].
    by apply (kind_class _ filePath (capture classMatch)).
  - by apply (childrenAdd_heap_child _ _ _ _ Hne Hc1).
  - done.
  - done.
  - done.
  - apply methodNames_words.
Qed.

Lemma kinded_addClasses filePath f classMatches : ∀ s itf,
  wfStore s → kinded s → heap s !! f = Some itf → id itf = fileIdOf filePath →
  Forall (λ m, isWord (capture m) = true) classMatches →
  kinded (foldl (addClass filePath f) s classMatches).
Proof.
  induction classMatches as [|m ms IH]; intros s itf Hwf Hk Hf Hid Hms; [done |].
  apply Forall_cons in Hms as [Hm Hms].
  destruct (addClass_spec filePath f s m itf Hwf Hf) as (Hwf1 & _ & itf1 & Hf1 & Hid1 & _).
  cbn [foldl].
  eapply IH; [done | by eapply kinded_addClass | exact Hf1 | congruence | done].
Qed.

Lemma kinded_resolveTestsInFile readFile uri0 s :
  wfStore s → kinded s → kinded (resolveTestsInFile readFile uri0 s).
Proof.
  intros Hwf Hk. destruct uri0 as [filePath|]; [| done].
  rewrite resolveTestsInFile_unfold.
  destruct (negb _ && negb _); [done |].
  pose proof (wf_removeTestsForFile filePath s Hwf) as Hwf1.
  pose proof (kinded_heap s _ (removeTestsForFile_heap filePath s) Hk) as Hk1.
  destruct (readFile filePath) as [content|]; [| done].
  destruct (wf_getOrCreateFileTestItem filePath _ Hwf1) as (Hwf2 & itf & Hf & Hid).
  eapply kinded_addClasses; [done | | exact Hf | done |].
  - destruct (testItems (removeTestsForFile filePath s) !! fileIdOf filePath)
      as [r|] eqn:E.
    + by rewrite (getOrCreateFileTestItem_old _ _ _ E).
    + rewrite (getOrCreateFileTestItem_new _ _ E).
      apply (kinded_heap (createTestItem (fileIdOf filePath) (basename filePath)
                            (Some filePath) (removeTestsForFile filePath s)).2); [done |].
      apply kinded_createTestItem; [| done]. by apply (kind_file _ filePath).
  - apply Forall_forall. intros m Hm. by apply (execAll_classRegex_capture content).
Qed.

Lemma reachable_kinded s : reachable s → kinded s.
Proof.
  induction 1 as [|op s Hr IH]; [by intros r it H |].
  pose proof (reachable_wf s Hr) as Hwf.
  destruct op as [folders readFile | readFile uri0 | filePath]; simpl.
  - pose proof (wf_discoverAllTests None readFile s Hwf) as Hwf1.
    unfold discoverAllTests in *.
    set (s1 := mkStore (heap s) _ ∅ ∅) in *.
    assert (kinded s1) as Hk1 by (by apply (kinded_heap s)).
    destruct folders as [folders|]; [| done].
    apply (foldl_preserves (λ a, wfStore a ∧ kinded a)); [| done].
    intros acc folder Hacc.
    apply (foldl_preserves (λ a, wfStore a ∧ kinded a)); [| done].
    intros acc' file [Hw Hk].
    split; [by apply wf_resolveTestsInFile | by apply kinded_resolveTestsInFile].
  - by apply kinded_resolveTestsInFile.
  - by apply (kinded_heap s); [apply removeTestsForFile_heap |].
Qed.

Lemma append_empty_r s : s +:+ EmptyString = s.
Proof. induction s as [|c s IH]; [done |]. by rewrite append_cons, IH. Qed.

Lemma indexOf_append_None a b c :
  Js.indexOf a c = None → Js.indexOf b c = None → Js.indexOf (a +:+ b) c = None.
Proof.
  intros Ha Hb. induction a as [|d a IH]; [by rewrite append_nil |].
  rewrite append_cons. cbn [Js.indexOf] in *.
  destruct (Ascii.eqb d c); [done |].
  destruct (Js.indexOf a c); [done |]. by rewrite IH.
Qed.

(** X22: every item of a reachable store is the item of a file, of a
    class or of a method: its id is "kotlin-test:", the path of its own
    [uri], and then nothing, [.Class] or [.Class.method], where the names
    are runs of word characters and the class name includes "Test"; its
    label is the last of these.  A "#" can stand in the path only, so
    for a path without "#" the split of the run handler returns the whole
    id as the class and no method, and the command line of every item
    names the id, file path included. *)
Theorem items_are_file_class_or_method_items (s : Store) (t : nat) (it : TestItem) :
  reachable s →
  heap s !! t = Some it →
  ∃ filePath suffix,
    uri it = Some filePath ∧
    id it = "kotlin-test:" +:+ filePath +:+ suffix ∧
    Js.indexOf suffix "#" = None ∧
    (suffix = EmptyString ∧ label it = basename filePath ∨
     (∃ className, suffix = "." +:+ className ∧ label it = className ∧
                   isWord className = true ∧ Js.includes className "Test" = true) ∨
     (∃ className methodName,
        suffix = "." +:+ className +:+ "." +:+ methodName ∧ label it = methodName ∧
        isWord className = true ∧ Js.includes className "Test" = true ∧
        isWord methodName = true)) ∧
    (Js.indexOf filePath "#" = None →
     selectorOf (itemId (heap s) t) = (id it, None) ∧
     gradleCommand (selectorOf (itemId (heap s) t)).1 (selectorOf (itemId (heap s) t)).2
     = "./gradlew test --tests " +:+ id it).
Proof.
  intros Hr Hit. pose proof (reachable_kinded s Hr t it Hit) as Hkind.
  rewrite (itemId_lookup _ _ _ Hit).
  assert (∀ filePath suffix,
            id it = "kotlin-test:" +:+ filePath +:+ suffix →
            Js.indexOf suffix "#" = None →
            Js.indexOf filePath "#" = None →
            selectorOf (id it) = (id it, None) ∧
            gradleCommand (selectorOf (id it)).1 (selectorOf (id it)).2
            = "./gradlew test --tests " +:+ id it) as Hsel.
  { intros p suffix Hid Hs Hp.
    assert (Js.indexOf (id it) "#" = None) as Hnone.
    { rewrite Hid. apply indexOf_append_None; [done |]. by apply indexOf_append_None. }
    rewrite (selectorOf_without_separator _ Hnone). split; [done |].
    unfold gradleCommand. cbn [fst snd Js.truthy]. by rewrite append_empty_r. }
  destruct Hkind as [p H1 H2 H3 | p cn H1 H2 H3 H4 H5 | p cn mn H1 H2 H3 H4 H5 H6].
  - exists p, EmptyString. split; [done |].
    assert (id it = "kotlin-test:" +:+ p +:+ EmptyString) as Hid
      by (by rewrite H2, append_empty_r).
    split; [done |]. split; [done |]. split; [by left |].
    by apply (Hsel p EmptyString).
  - destruct (isWord_no_separator _ H4) as [_ Hhash].
    exists p, ("." +:+ cn). split; [done |].
    assert (id it = "kotlin-test:" +:+ p +:+ "." +:+ cn) as Hid.
    { rewrite H2. unfold fileIdOf. by rewrite !append_assoc. }
    split; [done |].
    assert (Js.indexOf ("." +:+ cn) "#" = None) as Hs
      by (by apply indexOf_append_None).
    split; [done |]. split; [right; left; by exists cn |].
    by apply (Hsel p ("." +:+ cn)).
  - destruct (isWord_no_separator _ H4) as [_ Hhash].
    destruct (isWord_no_separator _ H6) as [_ Hhash'].
    exists p, ("." +:+ cn +:+ "." +:+ mn). split; [done |].
    assert (id it = "kotlin-test:" +:+ p +:+ "." +:+ cn +:+ "." +:+ mn) as Hid.
    { rewrite H2. unfold fileIdOf. by rewrite !append_assoc. }
    split; [done |].
    assert (Js.indexOf ("." +:+ cn +:+ "." +:+ mn) "#" = None) as Hs.
    { apply indexOf_append_None; [done |]. apply indexOf_append_None; [done |].
      by apply indexOf_append_None. }
    split; [done |]. split; [right; right; by exists cn, mn |].
    by apply (Hsel p ("." +:+ cn +:+ "." +:+ mn)).
Qed.

Lemma items_are_file_class_or_method_items_witness :
  ∃ filePath suffix,
    uri (mkTestItem "kotlin-test:/ws/FooTest.kt.FooTest.testA" "testA"
           (Some "/ws/FooTest.kt") [] (Some 1)) = Some filePath ∧
    id (mkTestItem "kotlin-test:/ws/FooTest.kt.FooTest.testA" "testA"
          (Some "/ws/FooTest.kt") [] (Some 1))
    = "kotlin-test:" +:+ filePath +:+ suffix ∧
    Js.indexOf suffix "#" = None ∧
    (suffix = EmptyString ∧
     label (mkTestItem "kotlin-test:/ws/FooTest.kt.FooTest.testA" "testA"
              (Some "/ws/FooTest.kt") [] (Some 1)) = basename filePath ∨
     (∃ className, suffix = "." +:+ className ∧
        label (mkTestItem "kotlin-test:/ws/FooTest.kt.FooTest.testA" "testA"
                 (Some "/ws/FooTest.kt") [] (Some 1)) = className ∧
        isWord className = true ∧ Js.includes className "Test" = true) ∨
     (∃ className methodName,
        suffix = "." +:+ className +:+ "." +:+ methodName ∧
        label (mkTestItem "kotlin-test:/ws/FooTest.kt.FooTest.testA" "testA"
                 (Some "/ws/FooTest.kt") [] (Some 1)) = methodName ∧
        isWord className = true ∧ Js.includes className "Test" = true ∧
        isWord methodName = true)) ∧
    (Js.indexOf filePath "#" = None →
     selectorOf (itemId (heap fooTestStore) 2)
     = (id (mkTestItem "kotlin-test:/ws/FooTest.kt.FooTest.testA" "testA"
              (Some "/ws/FooTest.kt") [] (Some 1)), None) ∧
     gradleCommand (selectorOf (itemId (heap fooTestStore) 2)).1
                   (selectorOf (itemId (heap fooTestStore) 2)).2
     = "./gradlew test --tests "
       +:+ id (mkTestItem "kotlin-test:/ws/FooTest.kt.FooTest.testA" "testA"
                 (Some "/ws/FooTest.kt") [] (Some 1))).
Proof.
  apply (items_are_file_class_or_method_items fooTestStore 2
           (mkTestItem "kotlin-test:/ws/FooTest.kt.FooTest.testA" "testA"
              (Some "/ws/FooTest.kt") [] (Some 1))).
  - exact (reachable_step (ResolveTestsInFile fooTestFs (Some fooTestPath))
             initialStore reachable_initial).
  - reflexivity.
Defined.

(** ** The exclusion test, exactly *)

Lemma someAncestor_true h excluded t :
  someAncestor h excluded t = Some true →
  ∃ e, e ∈ excluded ∧ isAncestorOf h e t = Some true.
Proof.
  induction excluded as [|x excluded IH]; [done |]. cbn [someAncestor].
  destruct (isAncestorOf h x t) as [[|]|] eqn:E; [| | done].
  - intros _. exists x. split; [apply list_elem_of_here | done].
  - intros (e & He & Ht)%IH. exists e. split; [by apply list_elem_of_further | done].
Qed.

Lemma isAncestorOfFrom_true h e : ∀ fuel t,
  isAncestorOfFrom fuel h e t = Some true →
  ∃ a, tc (parentOf h) t a ∧ itemId h a = itemId h e.
Proof.
  induction fuel as [|fuel IH]; intros t H; [done |]. cbn [isAncestorOfFrom] in H.
  destruct (itemParent h t) as [p|] eqn:Hp; [| done].
  destruct (String.eqb (itemId h p) (itemId h e)) eqn:E.
  - apply String.eqb_eq in E. exists p. split; [by apply tc_once | done].
  - destruct (IH _ H) as (a & Hpa & Hid). exists a. split; [| done].
    by apply (tc_l _ t p a).
Qed.

Lemma isAncestorOfFrom_chain s e t a :
  wfStore s → tc (parentOf (heap s)) t a → itemId (heap s) a = itemId (heap s) e →
  ∀ fuel, t < fuel → isAncestorOfFrom fuel (heap s) e t = Some true.
Proof.
  intros Hwf Hta Hid. induction Hta as [t a Hp | t p a Hp Hpa IH]; intros fuel Hfuel.
  - destruct fuel as [|fuel]; [lia |]. cbn [isAncestorOfFrom].
    unfold parentOf in Hp. rewrite Hp, Hid. by rewrite String.eqb_refl.
  - destruct fuel as [|fuel]; [lia |]. cbn [isAncestorOfFrom].
    unfold parentOf in Hp. rewrite Hp.
    destruct (String.eqb _ _); [done |]. apply (IH Hid).
    unfold itemParent in Hp. destruct (heap s !! t) as [it|] eqn:Hit; [| done].
    simpl in Hp. pose proof (wf_parent s Hwf _ _ _ Hit Hp). lia.
Qed.

(** X23: what the exclusion test decides, in every reachable state: an
    item is dropped exactly when, going up its parent links, one comes
    to an item that has the id of an excluded item.  The walk starts at
    the parent, so the ids are compared for proper ancestors only, and
    it compares ids, not objects. *)
Theorem exclusion_test_finds_ancestors_with_an_excluded_id (s : Store)
    (req : TestRunRequest) (excluded : list nat) (t : nat) :
  reachable s →
  exclude req = Some excluded →
  isExcluded (heap s) req t = Some true ↔
  ∃ e a, e ∈ excluded ∧ tc (parentOf (heap s)) t a ∧
         itemId (heap s) a = itemId (heap s) e.
Proof.
  intros Hwf%reachable_wf Hex. unfold isExcluded. rewrite Hex. split.
  - intros (e & He & Ht)%someAncestor_true.
    destruct (isAncestorOfFrom_true _ _ _ _ Ht) as (a & Hta & Hid). by exists e, a.
  - intros (e & a & He & Hta & Hid).
    apply (someAncestor_elem s excluded e t Hwf He).
    apply (isAncestorOfFrom_chain s e t a Hwf Hta Hid).
    assert (is_Some (itemParent (heap s) t)) as [p Hp].
    { destruct Hta as [t a Hp | t p a Hp _]; by eexists. }
    unfold itemParent in Hp. destruct (heap s !! t) as [it|] eqn:Hit; [| done].
    apply lookup_lt_Some in Hit. lia.
Qed.

Lemma exclusion_test_finds_ancestors_with_an_excluded_id_witness :
  isExcluded (heap fooTestStore) (mkRequest None (Some [0])) 3 = Some true ↔
  ∃ e a, e ∈ [0] ∧ tc (parentOf (heap fooTestStore)) 3 a ∧
         itemId (heap fooTestStore) a = itemId (heap fooTestStore) e.
Proof.
  exact (exclusion_test_finds_ancestors_with_an_excluded_id fooTestStore
           (mkRequest None (Some [0])) [0] 3
           (reachable_step (ResolveTestsInFile fooTestFs (Some fooTestPath))
              initialStore reachable_initial)
           eq_refl).
Defined.

(** ** The class body, in every case *)

Lemma indexOf_split s c n :
  Js.indexOf s c = Some n →
  ∃ pre t, s = pre +:+ String c t ∧ Js.indexOf pre c = None.
Proof.
  revert n. induction s as [|b s IH]; intros n H; [done |]. cbn [Js.indexOf] in H.
  destruct (Ascii.eqb b c) eqn:E.
  - apply Ascii.eqb_eq in E as ->. by exists EmptyString, s.
  - destruct (Js.indexOf s c) as [m|] eqn:Hs; [| done].
    destruct (IH m eq_refl) as (pre & t & -> & Hpre).
    exists (String b pre), t. split; [by rewrite append_cons |].
    cbn [Js.indexOf]. by rewrite E, Hpre.
Qed.

(** Read from [d] open braces and one more, a text either closes that
    one more brace at some point, or leaves the count positive
    throughout. *)
Lemma braces_close_or_stay_open t : ∀ d,
  (∃ body after, t = body +:+ "}" +:+ after ∧ balancedFrom d body = true) ∨
  staysOpen (Z.of_nat d + 1) t = true.
Proof.
  induction t as [|c t IH]; intros d.
  - right. cbn [staysOpen]. rewrite andb_true_r. apply Z.ltb_lt. lia.
  - assert ((0 <? Z.of_nat d + 1)%Z = true) as Hpos by (apply Z.ltb_lt; lia).
    destruct (Ascii.eqb c "{") eqn:Eo.
    + destruct (IH (S d)) as [(body & after & -> & Hb) | Hs].
      * left. exists (String c body), after. split; [by rewrite append_cons |].
        cbn [balancedFrom]. by rewrite Eo.
      * right. cbn [staysOpen]. rewrite Hpos, Eo.
        by replace (Z.of_nat d + 1 + 1)%Z with (Z.of_nat (S d) + 1)%Z by lia.
    + destruct (Ascii.eqb c "}") eqn:Ec.
      * destruct d as [|d].
        -- left. apply Ascii.eqb_eq in Ec as ->. by exists EmptyString, t.
        -- destruct (IH d) as [(body & after & -> & Hb) | Hs].
           ++ left. exists (String c body), after. split; [by rewrite append_cons |].
              cbn [balancedFrom]. by rewrite Eo, Ec.
           ++ right. cbn [staysOpen]. rewrite Hpos, Eo, Ec.
              by replace (Z.of_nat (S d) + 1 - 1)%Z with (Z.of_nat d + 1)%Z by lia.
      * destruct (IH d) as [(body & after & -> & Hb) | Hs].
        -- left. exists (String c body), after. split; [by rewrite append_cons |].
           cbn [balancedFrom]. by rewrite Eo, Ec.
        -- right. cbn [staysOpen]. by rewrite Hpos, Eo, Ec.
Qed.

(** X25: the text searched for the methods of a class, in every case.
    If the text from the class match on holds no "{", it is that text.
    Otherwise it runs from the match through the brace that closes the
    first "{", counting nested braces, when there is such a brace, and to
    the end of the content when there is none.  No other case arises. *)
Theorem class_body_ends_at_the_closing_brace_or_at_the_end (classContent : string) :
  Js.indexOf classContent "{" = None ∧ classBody classContent = classContent ∨
  ∃ pre t,
    classContent = pre +:+ "{" +:+ t ∧ Js.indexOf pre "{" = None ∧
    ((∃ body after,
        t = body +:+ "}" +:+ after ∧ balancedFrom 0 body = true ∧
        classBody classContent = pre +:+ "{" +:+ body +:+ "}") ∨
     staysOpen 1 t = true ∧ classBody classContent = classContent).
Proof.
  destruct (Js.indexOf classContent "{") as [n|] eqn:Hn.
  2: { left. split; [done |]. unfold classBody. by rewrite Hn. }
  right. destruct (indexOf_split _ _ _ Hn) as (pre & t & -> & Hpre).
  exists pre, t. split; [done |]. split; [done |].
  change (pre +:+ String "{" t) with (pre +:+ "{" +:+ t).
  rewrite (classBody_from_brace pre t Hpre).
  destruct (braces_close_or_stay_open t 0) as [(body & after & -> & Hb) | Hs].
  - left. exists body, after. split; [done |]. split; [done |].
    rewrite (braceLoop_balanced body 0 after _ Hb).
    replace (String.length pre + 1 + String.length body + 1)
      with (String.length (pre +:+ "{" +:+ body +:+ "}"))
      by (rewrite !length_append; simpl; lia).
    rewrite <- (append_assoc body "}" after).
    rewrite <- (append_assoc "{" (body +:+ "}") after).
    rewrite <- (append_assoc pre ("{" +:+ body +:+ "}") after).
    by rewrite take_append.
  - right. split; [done |].
    rewrite (braceLoop_unclosed t 1 _ Hs).
    replace (String.length pre + 1 + String.length t)
      with (String.length (pre +:+ "{" +:+ t))
      by (rewrite !length_append; simpl; lia).
    apply take_all.
Qed.

(** ** What the registry keeps *)

Lemma registered_createTestItem k l u s k' :
  is_Some (testItems s !! k') → is_Some (testItems (createTestItem k l u s).2 !! k').
Proof.
  intros [r Hr]. cbn [createTestItem snd testItems].
  destruct (decide (k = k')) as [<-|Hne].
  - rewrite lookup_insert_eq. eauto.
  - rewrite lookup_insert_ne by done. eauto.
Qed.

Lemma registered_addMethod filePath c s name k :
  is_Some (testItems s !! k) → is_Some (testItems (addMethod filePath c s name) !! k).
Proof. intros H. rewrite addMethod_unfold. by apply registered_createTestItem. Qed.

Lemma registered_addClass filePath f s classMatch k :
  is_Some (testItems s !! k) → is_Some (testItems (addClass filePath f s classMatch) !! k).
Proof.
  intros H. rewrite addClass_unfold. destruct (Js.includes _ _); [| done].
  apply (foldl_preserves (λ a, is_Some (testItems a !! k))).
  - intros a name. apply registered_addMethod.
  - by apply registered_createTestItem.
Qed.

(** X26: a rescan of a file never takes an id out of the registry,
    the file id of the rescanned path apart: in a reachable state, every
    other id that is registered before [resolveTestsInFile] is registered
    after it, so the ids of classes and methods that are no longer in the
    file stay registered; only [discoverAllTests] clears them. *)
Theorem rescan_keeps_registered_ids (readFile : string → option string)
    (uri0 : option string) (s : Store) (k : string) :
  reachable s →
  is_Some (testItems s !! k) →
  (∀ filePath, uri0 = Some filePath → k ≠ fileIdOf filePath) →
  is_Some (testItems (resolveTestsInFile readFile uri0 s) !! k) ∧
  testItems (discoverAllTests None readFile s) !! k = None.
Proof.
  intros Hr Hk Hne. split.
  2: { unfold discoverAllTests. cbn [testItems]. apply lookup_empty. }
  destruct uri0 as [filePath|]; [| done].
  specialize (Hne filePath eq_refl).
  pose proof (reachable_wf s Hr) as Hwf. pose proof (reachable_rooted s Hr) as Hro.
  rewrite resolveTestsInFile_unfold.
  destruct (negb _ && negb _); [done |].
  assert (is_Some (testItems (removeTestsForFile filePath s) !! k)) as Hk0.
  { destruct (fileToTestItemsMap s !! filePath) as [l|] eqn:Hq.
    - destruct (Hro _ _ Hq) as (f & -> & _).
      rewrite (removeTestsForFile_single _ _ _ Hq).
      destruct (wf_files s Hwf _ _ f Hq) as (it & Hit & Hid); [apply list_elem_of_here |].
      rewrite (itemId_lookup _ _ _ Hit), Hid. by rewrite lookup_delete_ne.
    - by rewrite (removeTestsForFile_absent _ _ Hq). }
  destruct (readFile filePath) as [content|]; [| done].
  apply (foldl_preserves (λ a, is_Some (testItems a !! k))).
  - intros a m. apply registered_addClass.
  - destruct (testItems (removeTestsForFile filePath s) !! fileIdOf filePath)
      as [r|] eqn:E.
    + by rewrite (getOrCreateFileTestItem_old _ _ _ E).
    + rewrite (getOrCreateFileTestItem_new _ _ E). cbn [snd testItems].
      by rewrite lookup_insert_ne.
Qed.

Lemma rescan_keeps_registered_ids_witness :
  is_Some (testItems (resolveTestsInFile (λ _, Some "class FooTest { }")
                        (Some fooTestPath) fooTestStore)
             !! "kotlin-test:/ws/FooTest.kt.FooTest.testA") ∧
  testItems (discoverAllTests None (λ _, Some "class FooTest { }") fooTestStore)
    !! "kotlin-test:/ws/FooTest.kt.FooTest.testA" = None.
Proof.
  apply (rescan_keeps_registered_ids (λ _, Some "class FooTest { }")
           (Some fooTestPath) fooTestStore "kotlin-test:/ws/FooTest.kt.FooTest.testA").
  - exact (reachable_step (ResolveTestsInFile fooTestFs (Some fooTestPath))
             initialStore reachable_initial).
  - vm_compute. eauto.
  - intros filePath [= <-]. vm_compute. congruence.
Defined.
